(** * US Chess rating scrapers: a shallow embedding and its properties

    The development follows the three source files of the repository:

    - [search_players.py]: driver acquisition ([setup_chrome_driver]), the
      fuzzy card search ([get_uscf_player_data]) and the command line;
    - [pop.py]: the form search and its two-stage table parser;
    - [test.py]: the profile lookup ([get_uschess_info]), the record sink
      ([update_player_rating_and_expiration]) and the batch over all players
      ([get_all_players_from_db], [process_all_players]).

    Python texts are sequences of code points.  They are modelled as lists of
    [ascii], one element per code point, read as U+0000 .. U+00FF.  The
    browser, the driver manager and pandas are the environment: what each
    call returns (a value or an exception) is a field of an environment
    record, and every property is stated for all environments.  The SQLite
    store is a table; the statements the code runs on it are functions on
    tables, with the scope stated in [test]. *)

From Stdlib Require Import ZArith List String Ascii Bool Arith Lia DecimalString.
Import ListNotations.

Set Warnings "-register-all".  (* pyval nests through list and prod *)

(** ** Python runtime: exceptions and results *)

Module Py.

(** The exception classes the three files raise, catch or can receive from the
    libraries they call.  All are subclasses of [Exception]; the two Selenium
    classes named in [except (TimeoutException, NoSuchElementException)]
    clauses are kept apart from the other [WebDriverException]s. *)
Inductive exn : Type :=
| ValueError
| KeyError
| AttributeError
| UnboundLocalError
| TimeoutException
| NoSuchElementException
| WebDriverException
| OperationalError
| OverflowError
| OtherException.

Inductive result (A : Type) : Type :=
| Ok (a : A)
| Raise (e : exn).

Arguments Ok {A} a.
Arguments Raise {A} e.

Definition bind {A B : Type} (m : result A) (k : A -> result B) : result B :=
  match m with
  | Ok a => k a
  | Raise e => Raise e
  end.

Definition fmap {A B : Type} (f : A -> B) (m : result A) : result B :=
  bind m (fun a => Ok (f a)).

(** [try: m  except Exception: h] *)
Definition catch {A : Type} (m : result A) (h : exn -> result A) : result A :=
  match m with
  | Ok a => Ok a
  | Raise e => h e
  end.

Definition is_ok {A : Type} (m : result A) : bool :=
  match m with
  | Ok _ => true
  | Raise _ => false
  end.

(** [except (TimeoutException, NoSuchElementException)] *)
Definition is_wait_failure (e : exn) : bool :=
  match e with
  | TimeoutException | NoSuchElementException => true
  | _ => false
  end.

End Py.

Export Py.

Declare Scope py_scope.
Delimit Scope py_scope with py.
Notation "x <- m ;; k" := (bind m (fun x => k))
  (at level 61, m at next level, right associativity) : py_scope.
Local Open Scope py_scope.

(** ** Python texts *)

Module Text.

Definition text : Type := list ascii.

Definition lit (s : string) : text := list_ascii_of_string s.

Arguments lit s : simpl never.

Fixpoint eqb (a b : text) : bool :=
  match a, b with
  | [], [] => true
  | x :: a', y :: b' => Ascii.eqb x y && eqb a' b'
  | _, _ => false
  end.

Definition code (c : ascii) : N := N_of_ascii c.

(** [str.isspace] on one code point below U+0100: the ASCII controls
    U+0009 .. U+000D and U+001C .. U+001F, the space, NEL (U+0085) and the
    no-break space (U+00A0). *)
Definition isspace (c : ascii) : bool :=
  let n := code c in
  ((9 <=? n) && (n <=? 13) || (28 <=? n) && (n <=? 32)
   || (n =? 133) || (n =? 160))%N.

Fixpoint lstrip (s : text) : text :=
  match s with
  | c :: s' => if isspace c then lstrip s' else s
  | [] => []
  end.

Definition rstrip (s : text) : text := rev (lstrip (rev s)).

(** [s.strip()] *)
Definition strip (s : text) : text := rstrip (lstrip s).

(** The decimal digits [0-9] (Unicode category Nd below U+0100). *)
Definition is_decimal (c : ascii) : bool :=
  let n := code c in ((48 <=? n) && (n <=? 57))%N.

Definition decimal_value (c : ascii) : Z := Z.of_N (code c) - 48.

(** Code points with the Unicode property Numeric_Type=Digit or Decimal below
    U+0100: the decimal digits and the superscripts U+00B2, U+00B3, U+00B9. *)
Definition is_digit_char (c : ascii) : bool :=
  let n := code c in
  (is_decimal c || (n =? 178) || (n =? 179) || (n =? 185))%N.

(** [s.isdigit()]: at least one character, and all of them digits. *)
Definition isdigit (s : text) : bool :=
  match s with
  | [] => false
  | _ => forallb is_digit_char s
  end.

(** Digits of an [int] literal given as text: decimal digits, with single
    underscores allowed between two digits.  [prev] tells whether the
    previous character was a digit. *)
Fixpoint digits_value (acc : Z) (prev : bool) (s : text) : option Z :=
  match s with
  | [] => if prev then Some acc else None
  | c :: s' =>
      if is_decimal c then digits_value (10 * acc + decimal_value c) true s'
      else if Ascii.eqb c "_"%char then
        (if prev then digits_value acc false s' else None)
      else None
  end.

(** The whitespace [int] drops around a number.  It is not that of
    [str.strip]: the separators U+001C .. U+001F, which [str.isspace]
    accepts, make [int] raise. *)
Definition is_int_space (c : ascii) : bool :=
  let n := code c in
  ((9 <=? n) && (n <=? 13) || (n =? 32) || (n =? 133) || (n =? 160))%N.

Fixpoint int_lstrip (s : text) : text :=
  match s with
  | c :: s' => if is_int_space c then int_lstrip s' else s
  | [] => []
  end.

Definition int_strip (s : text) : text := rev (int_lstrip (rev (int_lstrip s))).

(** [sys.get_int_max_str_digits()], which none of the three files changes:
    [int] refuses a text with more digits. *)
Definition int_max_str_digits : nat := 4300.

Definition digit_count (s : text) : nat := List.length (filter is_decimal s).

(** [int(s)] on a text, base 10: surrounding whitespace is dropped, one sign
    is allowed, and anything else raises [ValueError], a text of more than
    [int_max_str_digits] digits included.  Integers are unbounded. *)
Definition py_int (s : text) : result Z :=
  let body := int_strip s in
  let parsed :=
    match body with
    | c :: rest =>
        if Ascii.eqb c "+"%char then digits_value 0 false rest
        else if Ascii.eqb c "-"%char then option_map Z.opp (digits_value 0 false rest)
        else digits_value 0 false body
    | [] => None
    end in
  match parsed with
  | Some n => if Nat.leb (digit_count body) int_max_str_digits then Ok n
              else Raise ValueError
  | None => Raise ValueError
  end.

(** [str(n)] for an integer: its decimal digits, after a minus sign when it
    is negative. *)
Definition decimal (n : Z) : text :=
  list_ascii_of_string (NilZero.string_of_int (Z.to_int n)).

(** [strip_prefix p s]: the rest of [s] after the prefix [p], if [s] starts
    with [p]. *)
Fixpoint strip_prefix (p s : text) : option text :=
  match p, s with
  | [], _ => Some s
  | x :: p', y :: s' => if Ascii.eqb x y then strip_prefix p' s' else None
  | _ :: _, [] => None
  end.

(** One left-to-right pass of [s.replace(old, new)] for a non-empty [old];
    [skip] counts the characters of the current occurrence still to drop. *)
Fixpoint replace_aux (old new : text) (skip : nat) (s : text) : text :=
  match s with
  | [] => []
  | c :: s' =>
      match skip with
      | S k => replace_aux old new k s'
      | O =>
          match strip_prefix old s with
          | Some _ => new ++ replace_aux old new (List.length old - 1) s'
          | None => c :: replace_aux old new 0 s'
          end
      end
  end.

(** [s.replace(old, new)] for a non-empty [old]. *)
Definition replace (old new s : text) : text := replace_aux old new 0 s.

(** [s.split(sep)[-1]] for a non-empty [sep]: the text after the last
    occurrence of [sep], or all of [s] when there is none.  [cur] collects
    the current last segment, reversed. *)
Fixpoint split_last_aux (sep : text) (skip : nat) (cur : text) (s : text) : text :=
  match s with
  | [] => rev cur
  | c :: s' =>
      match skip with
      | S k => split_last_aux sep k cur s'
      | O =>
          match strip_prefix sep s with
          | Some _ => split_last_aux sep (List.length sep - 1) [] s'
          | None => split_last_aux sep 0 (c :: cur) s'
          end
      end
  end.

Definition split_last (sep s : text) : text := split_last_aux sep 0 [] s.

End Text.

Export Text.

(** ** Python values and dictionaries *)

Module Value.

(** The values that occur in the records the scrapers build.  A dictionary is
    a list of key/value pairs in insertion order. *)
Inductive pyval : Type :=
| PNone
| PInt (n : Z)
| PStr (s : text)
| PDict (d : list (string * pyval)).

Definition dict : Type := list (string * pyval).

Fixpoint dict_get (k : string) (d : dict) : option pyval :=
  match d with
  | [] => None
  | (k', v) :: d' => if String.eqb k k' then Some v else dict_get k d'
  end.

(** [d[k]] *)
Definition dict_item (k : string) (d : dict) : result pyval :=
  match dict_get k d with
  | Some v => Ok v
  | None => Raise KeyError
  end.

(** [d[k] = v]: an existing key keeps its place, a new key goes last. *)
Fixpoint dict_set (k : string) (v : pyval) (d : dict) : dict :=
  match d with
  | [] => [(k, v)]
  | (k', v') :: d' =>
      if String.eqb k k' then (k, v) :: d' else (k', v') :: dict_set k v d'
  end.

Definition keys (d : dict) : list string := map fst d.

(** Truth value of an object, as [if x], [x or y] and [x and y] test it. *)
Definition truthy (v : pyval) : bool :=
  match v with
  | PNone => false
  | PInt n => negb (n =? 0)%Z
  | PStr s => negb (Nat.eqb (List.length s) 0)
  | PDict d => negb (Nat.eqb (List.length d) 0)
  end.

(** [x or y] *)
Definition py_or (x y : pyval) : pyval := if truthy x then x else y.

(** [l[:n]] for an integer [n]: a negative [n] counts from the end. *)
Definition slice_to {A : Type} (n : Z) (l : list A) : list A :=
  if (0 <=? n)%Z then firstn (Z.to_nat n) l
  else firstn (Z.to_nat (Z.of_nat (List.length l) + n)) l.

End Value.

Export Value.

(** ** Calls to the environment and their trace *)

Module Session.

(** Diagnostic lines of the table parser's fallback stage. *)
Inductive line : Type :=
| FoundRows (n : nat)                 (* "Found {n} rows in tbody" *)
| RowCells (i n : nat)                (* "Row {i}: {n} cells" *)
| CellText (j : nat) (t : text).      (* "  Cell {j}: '{t}'" *)

(** What a scraper does to the outside world, in the order it does it. *)
Inductive event : Type :=
| Install                             (* ChromeDriverManager().install() *)
| Launch (service : option text)      (* webdriver.Chrome(...) is called *)
| Started                             (* ... and has returned a browser handle *)
| Get (url : text)                    (* driver.get(url) *)
| Quit                                (* driver.quit() *)
| Print (l : line).

(** A browser handle remembers the driver service it was launched with. *)
Definition handle : Type := option text.

(** A computation: the events it produced and how it ended. *)
Definition io (A : Type) : Type := (list event * result A)%type.

Definition ret {A : Type} (a : A) : io A := ([], Ok a).

Definition raise {A : Type} (e : exn) : io A := ([], Raise e).

Definition call {A : Type} (ev : list event) (r : result A) : io A := (ev, r).

Definition io_bind {A B : Type} (m : io A) (k : A -> io B) : io B :=
  match m with
  | (t, Ok a) => let (t', r) := k a in (t ++ t', r)
  | (t, Raise e) => (t, Raise e)
  end.

(** [try: m  except Exception as e: h e] *)
Definition try_except {A : Type} (m : io A) (h : exn -> io A) : io A :=
  match m with
  | (t, Ok a) => (t, Ok a)
  | (t, Raise e) => let (t', r) := h e in (t ++ t', r)
  end.

(** [try: m  finally: f].  An exception of [f] replaces the outcome of [m]. *)
Definition try_finally {A : Type} (m : io A) (f : io unit) : io A :=
  let (t, r) := m in
  let (t', r') := f in
  match r' with
  | Ok _ => (t ++ t', r)
  | Raise e => (t ++ t', Raise e)
  end.

(** [webdriver.Chrome(...)], given what the call answers: the handle exists
    only when the call returns. *)
Definition launch_chrome (answer : result unit) (service : option text) : io handle :=
  match answer with
  | Ok _ => ([Launch service; Started], Ok service)
  | Raise e => ([Launch service], Raise e)
  end.

Definition trace {A : Type} (m : io A) : list event := fst m.

Definition outcome {A : Type} (m : io A) : result A := snd m.

Definition is_started (e : event) : bool :=
  match e with Started => true | _ => false end.

Definition is_quit (e : event) : bool :=
  match e with Quit => true | _ => false end.

(** Number of browser handles created along a trace. *)
Definition handles_created (t : list event) : nat :=
  List.length (filter is_started t).

(** Number of handles still open after a trace: a [Quit] closes the handle
    in use, and without a handle it closes nothing. *)
Fixpoint open_after (n : nat) (t : list event) : nat :=
  match t with
  | [] => n
  | Started :: t' => open_after (S n) t'
  | Quit :: t' => open_after (Nat.pred n) t'
  | _ :: t' => open_after n t'
  end.

Definition handles_open (t : list event) : nat := open_after 0 t.

(** A trace that neither creates nor releases a handle. *)
Definition quiet (t : list event) : Prop :=
  Forall (fun e => is_started e = false /\ is_quit e = false) t.

(** A trace that releases no handle. *)
Definition no_quit (t : list event) : Prop :=
  Forall (fun e => is_quit e = false) t.

End Session.

Export Session.

Notation "x <~ m ;; k" := (io_bind m (fun x => k))
  (at level 61, m at next level, right associativity) : py_scope.

(** ** search_players.py *)

Module search_players.

Definition URL : text := lit "https://beta-ratings.uschess.org".

(** *** Driver acquisition *)

(** What the driver manager, the file system and Selenium answer. *)
Record driver_env : Type := {
  wdm_install : result text;             (* ChromeDriverManager().install() *)
  path_exists : text -> bool;            (* os.path.exists(path) *)
  chrome : option text -> result unit    (* webdriver.Chrome(service=Service(p)) or webdriver.Chrome() *)
}.

Definition possible_paths : list text :=
  [ lit "/usr/local/bin/chromedriver";
    lit "/opt/homebrew/bin/chromedriver";
    lit "/usr/bin/chromedriver";
    lit "chromedriver" ].

Definition launch (env : driver_env) (service : option text) : io handle :=
  launch_chrome (chrome env service) service.

(** Method 1.  [Some driver] stands for [return driver], [None] for falling
    through to the next method. *)
Definition method_webdriver_manager (env : driver_env) : io (option handle) :=
  try_except
    (p <~ call [Install] (wdm_install env) ;;
     driver <~ launch env (Some p) ;;
     ret (Some driver))
    (fun _ => ret None).

(** Method 2: the [for path in possible_paths] loop. *)
Fixpoint method_system_paths (env : driver_env) (paths : list text) : io (option handle) :=
  match paths with
  | [] => ret None
  | path :: rest =>
      if path_exists env path || Text.eqb path (lit "chromedriver") then
        r <~ try_except (driver <~ launch env (Some path) ;; ret (Some driver))
                        (fun _ => ret None) ;;
        match r with
        | Some driver => ret (Some driver)
        | None => method_system_paths env rest
        end
      else method_system_paths env rest
  end.

(** Method 3. *)
Definition method_default (env : driver_env) : io (option handle) :=
  try_except (driver <~ launch env None ;; ret (Some driver)) (fun _ => ret None).

Definition setup_chrome_driver (env : driver_env) : io handle :=
  r1 <~ method_webdriver_manager env ;;
  match r1 with
  | Some driver => ret driver
  | None =>
      r2 <~ try_except (method_system_paths env possible_paths) (fun _ => ret None) ;;
      match r2 with
      | Some driver => ret driver
      | None =>
          r3 <~ method_default env ;;
          match r3 with
          | Some driver => ret driver
          | None => raise WebDriverException
          end
      end
  end.

(** The acquisition strategies, as the specification names them. *)
Inductive strategy : Type :=
| Managed                    (* (a) the managed, auto-downloaded driver *)
| LocalPath (p : text)       (* (b) a well-known local path *)
| FrameworkDefault.          (* (c) the framework locates the driver *)

(** One isolated attempt of a strategy. *)
Definition attempt (env : driver_env) (s : strategy) : io handle :=
  match s with
  | Managed => p <~ call [Install] (wdm_install env) ;; launch env (Some p)
  | LocalPath p => launch env (Some p)
  | FrameworkDefault => launch env None
  end.

(** The fixed order of strategies; of the local paths only those that exist
    (or are the bare command name) are candidates. *)
Definition plan (env : driver_env) : list strategy :=
  [Managed]
  ++ map LocalPath
       (filter (fun p => path_exists env p || Text.eqb p (lit "chromedriver"))
               possible_paths)
  ++ [FrameworkDefault].

Definition failed (env : driver_env) (s : strategy) : Prop :=
  is_ok (outcome (attempt env s)) = false.

(** "First success wins": the strategies of a list are attempted in order
    until one returns a handle; [otherwise] runs when all have failed. *)
Fixpoint try_each (env : driver_env) (l : list strategy) (otherwise : io handle)
  : io handle :=
  match l with
  | [] => otherwise
  | s :: l' => try_except (attempt env s) (fun _ => try_each env l' otherwise)
  end.

(** Only the exhaustion of all strategies raises. *)
Definition first_success (env : driver_env) (l : list strategy) : io handle :=
  try_each env l (raise WebDriverException).

(** *** Result cards *)

(** A rating badge of a card: the texts of its two spans, or the exception
    raised while locating or reading them. *)
Record badge : Type := {
  font_condensed : result text;   (* badge.find_element(".font-condensed").text *)
  font_mono : result text         (* badge.find_element(".font-mono").text *)
}.

(** A search-result card, as the element queries of the loop body see it. *)
Record card : Type := {
  font_names : result text;          (* card.find_element(".font-names span").text *)
  player_link : result (option text);(* card.find_element("a[href*='/player/']").get_attribute('href') *)
  font_sans : result text;           (* card.find_element(".font-sans").text *)
  w_13 : result (list badge);        (* card.find_elements(".w-13") *)
  exp_span : result text             (* card.find_element(".//span[contains(text(), 'Exp:')]").text *)
}.

Definition initial_ratings : dict :=
  [ ("regular"%string, PNone); ("quick"%string, PNone); ("blitz"%string, PNone);
    ("online_regular"%string, PNone); ("online_quick"%string, PNone);
    ("online_blitz"%string, PNone) ].

(** [int(rating_value) if rating_value.isdigit() else None] *)
Definition convert_rating (rating_value : text) : result pyval :=
  if isdigit rating_value then n <- py_int rating_value ;; Ok (PInt n)
  else Ok PNone.

(** The [if]/[elif] chain over the type code of a badge. *)
Definition rating_key (rating_type : text) : option string :=
  if Text.eqb rating_type (lit "R") then Some "regular"%string
  else if Text.eqb rating_type (lit "Q") then Some "quick"%string
  else if Text.eqb rating_type (lit "B") then Some "blitz"%string
  else if Text.eqb rating_type (lit "OR") then Some "online_regular"%string
  else if Text.eqb rating_type (lit "OQ") then Some "online_quick"%string
  else if Text.eqb rating_type (lit "OB") then Some "online_blitz"%string
  else None.

(** Body of the [try] inside [for badge in rating_badges]. *)
Definition parse_badge (b : badge) (ratings : dict) : result dict :=
  rating_type <- fmap strip (font_condensed b) ;;
  rating_value <- fmap strip (font_mono b) ;;
  match rating_key rating_type with
  | Some key => v <- convert_rating rating_value ;; Ok (dict_set key v ratings)
  | None => Ok ratings
  end.

(** One iteration: an exception leaves [ratings] as it was ([continue]). *)
Definition badge_step (ratings : dict) (b : badge) : dict :=
  match parse_badge b ratings with
  | Ok ratings' => ratings'
  | Raise _ => ratings
  end.

Definition parse_badges (rating_badges : list badge) : dict :=
  fold_left badge_step rating_badges initial_ratings.

(** [ratings['regular'] or ratings['quick'] or ratings['blitz']] *)
Definition primary_rating_of (ratings : dict) : result pyval :=
  r <- dict_item "regular" ratings ;;
  q <- dict_item "quick" ratings ;;
  b <- dict_item "blitz" ratings ;;
  Ok (py_or (py_or r q) b).

(** Body of the [try] inside [for card in search_cards[:max_results]]. *)
Definition parse_card (c : card) : result dict :=
  name <- fmap strip (font_names c) ;;
  href <- player_link c ;;
  player_url <- match href with
                | Some u => Ok u
                | None => Raise AttributeError   (* None.split *)
                end ;;
  let uscf_id := split_last (lit "/player/") player_url in
  let state := match font_sans c with
               | Ok s => PStr (strip s)
               | Raise _ => PNone
               end in
  rating_badges <- w_13 c ;;
  let ratings := parse_badges rating_badges in
  let expiration_text :=
    match exp_span c with
    | Ok s => PStr (strip (replace (lit "Exp: ") [] s))
    | Raise _ => PNone
    end in
  primary_rating <- primary_rating_of ratings ;;
  Ok [ ("name"%string, PStr name);
       ("memberId"%string, PStr uscf_id);
       ("state"%string, if truthy state then state else PNone);
       ("ratings"%string, PDict ratings);
       ("uscf_id"%string, PStr uscf_id);
       ("rating"%string, primary_rating);
       ("expiration_date"%string, expiration_text) ].

(** One iteration of the card loop: [players.append(player)], or [continue]
    when the card raised. *)
Definition card_step (players : list dict) (c : card) : list dict :=
  match parse_card c with
  | Ok player => players ++ [player]
  | Raise _ => players
  end.

(** *** The search *)

Record search_env : Type := {
  drivers : driver_env;
  get_page : text -> result unit;   (* driver.get(search_url) *)
  find_cards : result (list card);  (* driver.find_elements(By.CLASS_NAME, "search-card-player") *)
  quit_driver : result unit         (* driver.quit() *)
}.

Definition get_uscf_player_data (env : search_env) (search_term : text) (max_results : Z)
  : io (list dict) :=
  try_except
    (let search_url := URL ++ lit "/?fuzzy=" ++ search_term in
     driver <~ setup_chrome_driver (drivers env) ;;
     try_finally
       (_ <~ call [Get search_url] (get_page env search_url) ;;
        search_cards <~ call [] (find_cards env) ;;
        ret (fold_left card_step (slice_to max_results search_cards) []))
       (try_except (call [Quit] (quit_driver env)) (fun _ => ret tt)))
    (fun _ => ret []).

End search_players.

(** ** The regular expressions of pop.py *)

Module Regex.

(** The fragment of [re] syntax the fallback parser uses.  [re.DOTALL] is
    set at every use of a lazy group, so [.] matches any character. *)
Inductive item : Type :=
| Lit (s : text)         (* literal text *)
| StarNot (c : ascii)    (* [^c]*  (greedy) *)
| PlusNot (c : ascii)    (* [^c]+  (greedy) *)
| LazyGroup.             (* (.*?)  (capturing) *)

Definition pattern : Type := list item.

(** A match yields the captured groups and the text after the match. *)
Definition found : Type := (list text * text)%type.

(** [[^c]*] followed by [k]: the longest run is tried first. *)
Fixpoint greedy_not (c : ascii) (k : text -> option found) (s : text) : option found :=
  match s with
  | ch :: s' =>
      if Ascii.eqb ch c then k s
      else match greedy_not c k s' with
           | Some r => Some r
           | None => k s
           end
  | [] => k []
  end.

(** [(.*?)] followed by [k]: the shortest capture is tried first; [acc] is
    the capture so far, reversed. *)
Fixpoint lazy_any (k : text -> option found) (acc : text) (s : text) : option found :=
  match k s with
  | Some (groups, rest) => Some (rev acc :: groups, rest)
  | None =>
      match s with
      | [] => None
      | ch :: s' => lazy_any k (ch :: acc) s'
      end
  end.

(** Backtracking match of a pattern at the start of a text. *)
Fixpoint match_here (p : pattern) : text -> option found :=
  match p with
  | [] => fun s => Some ([], s)
  | Lit l :: p' =>
      fun s => match strip_prefix l s with
               | Some s' => match_here p' s'
               | None => None
               end
  | StarNot c :: p' => greedy_not c (match_here p')
  | PlusNot c :: p' =>
      fun s => match s with
               | ch :: s' => if Ascii.eqb ch c then None
                             else greedy_not c (match_here p') s'
               | [] => None
               end
  | LazyGroup :: p' => lazy_any (match_here p') []
  end.

(** [re.search(p, s)]: the match at the leftmost position that has one. *)
Fixpoint search (p : pattern) (s : text) : option found :=
  match match_here p s with
  | Some r => Some r
  | None =>
      match s with
      | [] => None
      | _ :: s' => search p s'
      end
  end.

(** [re.findall(p, s)], the groups of the successive non-overlapping
    matches, left to right.  The scan resumes after a match, or one
    character further when nothing was consumed. *)
Fixpoint findall_fuel (fuel : nat) (p : pattern) (s : text) : list (list text) :=
  match fuel with
  | O => []
  | S fuel' =>
      match match_here p s with
      | Some (groups, rest) =>
          groups ::
          (if Nat.ltb (List.length rest) (List.length s) then findall_fuel fuel' p rest
           else match s with
                | [] => []
                | _ :: s' => findall_fuel fuel' p s'
                end)
      | None =>
          match s with
          | [] => []
          | _ :: s' => findall_fuel fuel' p s'
          end
      end
  end.

Definition findall (p : pattern) (s : text) : list (list text) :=
  findall_fuel (S (List.length s)) p s.

(** With one group in the pattern, [re.findall] returns the texts of that
    group. *)
Definition findall1 (p : pattern) (s : text) : list text :=
  map (fun groups => hd [] groups) (findall p s).

(** [re.sub(p, '', s)] for a pattern that consumes at least one character. *)
Fixpoint delete_fuel (fuel : nat) (p : pattern) (s : text) : text :=
  match fuel with
  | O => s
  | S fuel' =>
      match match_here p s with
      | Some (_, rest) =>
          if Nat.ltb (List.length rest) (List.length s) then delete_fuel fuel' p rest
          else match s with
               | [] => []
               | c :: s' => c :: delete_fuel fuel' p s'
               end
      | None =>
          match s with
          | [] => []
          | c :: s' => c :: delete_fuel fuel' p s'
          end
      end
  end.

Definition delete_all (p : pattern) (s : text) : text :=
  delete_fuel (S (List.length s)) p s.

End Regex.

(** ** pop.py *)

Module pop.

Import Regex.

Definition URL : text := lit "https://new.uschess.org/civicrm/player-search".

(** *** Table parser *)

(** A cell of a pandas frame: missing, a text, or a number. *)
Inductive cell : Type :=
| NaN
| Str (s : text)
| Num (n : Z).

Record frame : Type := {
  columns : list text;
  rows : list (list cell)
}.

Definition isnull (c : cell) : bool :=
  match c with
  | NaN => true
  | _ => false
  end.

(** [results_df.isnull().all().all()] *)
Definition all_null (df : frame) : bool :=
  forallb (forallb isnull) (rows df).

Definition canonical_columns : list text :=
  map lit [ "Name"; "Member ID"; "Regular Rating"; "Quick Rating"; "Blitz Rating";
            "Online Regular"; "Online Quick"; "Online Blitz"; "Correspondence";
            "State"; "Membership Expires" ]%string.

(** [r'<tbody>(.*?)</tbody>'] *)
Definition tbody_pattern : pattern := [Lit (lit "<tbody>"); LazyGroup; Lit (lit "</tbody>")].

(** [r'<tr[^>]*>(.*?)</tr>'] *)
Definition tr_pattern : pattern :=
  [Lit (lit "<tr"); StarNot ">"%char; Lit (lit ">"); LazyGroup; Lit (lit "</tr>")].

(** [r'<td[^>]*>(.*?)</td>'] *)
Definition td_pattern : pattern :=
  [Lit (lit "<td"); StarNot ">"%char; Lit (lit ">"); LazyGroup; Lit (lit "</td>")].

(** [r'<[^>]+>'] *)
Definition tag_pattern : pattern := [Lit (lit "<"); PlusNot ">"%char; Lit (lit ">")].

(** [enumerate(l)] *)
Fixpoint enumerate_from {A : Type} (i : nat) (l : list A) : list (nat * A) :=
  match l with
  | [] => []
  | x :: l' => (i, x) :: enumerate_from (S i) l'
  end.

Definition enumerate {A : Type} (l : list A) : list (nat * A) := enumerate_from 0 l.

(** The diagnostic lines of one of the first three rows. *)
Definition row_lines (ir : nat * text) : list event :=
  let (i, row_html) := ir in
  let cell_matches := findall1 td_pattern row_html in
  Print (RowCells i (List.length cell_matches))
  :: map (fun jc : nat * text =>
            let (j, cell_html) := jc in
            Print (CellText j (strip (delete_all tag_pattern cell_html))))
         (enumerate cell_matches).

(** State 2, the fallback: what it prints. *)
Definition fallback_stage (html_table : text) : list event :=
  match search tbody_pattern html_table with
  | Some (groups, _) =>
      let tbody_content := hd [] groups in
      let row_matches := findall1 tr_pattern tbody_content in
      Print (FoundRows (List.length row_matches))
      :: flat_map row_lines (enumerate (firstn 3 row_matches))
  | None => []
  end.

(** The index of the column called [name]. *)
Fixpoint column_index (name : text) (cols : list text) : option nat :=
  match cols with
  | [] => None
  | c :: cols' => if Text.eqb c name then Some 0
                  else option_map S (column_index name cols')
  end.

(** [x.split('\n')[-1].strip() if pd.notna(x) and isinstance(x, str) else x] *)
Definition clean_name (x : cell) : cell :=
  match x with
  | Str s => Str (strip (split_last ["010"%char] s))
  | _ => x
  end.

Fixpoint apply_at {A : Type} (f : A -> A) (i : nat) (l : list A) : list A :=
  match l, i with
  | [], _ => []
  | x :: l', O => f x :: l'
  | x :: l', S i' => x :: apply_at f i' l'
  end.

(** [results_df['Name'] = results_df['Name'].apply(...)]; without a column
    of that name the lookup raises [KeyError]. *)
Definition clean_name_column (df : frame) : result frame :=
  match column_index (lit "Name") (columns df) with
  | Some i => Ok {| columns := columns df; rows := map (apply_at clean_name i) (rows df) |}
  | None => Raise KeyError
  end.

(** [results_df.columns = [...]]; a frame with another number of columns
    raises [ValueError]. *)
Definition rename_columns (df : frame) : result frame :=
  if Nat.eqb (List.length (columns df)) (List.length canonical_columns)
  then Ok {| columns := canonical_columns; rows := rows df |}
  else Raise ValueError.

(** What the search returns: a frame or one of its messages. *)
Inductive answer : Type :=
| Table (df : frame)
| StructureIssue              (* "Table found but no data extracted - structure issue" *)
| NoData                      (* "No data extracted from the table after search." *)
| ParseError (e : exn)        (* "Error parsing HTML table: {e}" *)
| WaitError (e : exn)         (* "A timeout error occurred. ..." *)
| UnexpectedError (e : exn).  (* "An unexpected error occurred during the scraping process: {e}" *)

(** STEP 5, with [parsed] the answer of [pd.read_html(StringIO(html_table))]. *)
Definition parse_table (parsed : result (list frame)) (html_table : text) : io answer :=
  try_except
    (data_frame <~ call [] parsed ;;
     match data_frame with
     | results_df :: _ =>
         if all_null results_df then
           _ <~ call (fallback_stage html_table) (Ok tt) ;;
           ret StructureIssue
         else
           cleaned <~ call [] (clean_name_column results_df) ;;
           renamed <~ call [] (rename_columns cleaned) ;;
           ret (Table renamed)
     | [] => ret NoData
     end)
    (fun e => ret (ParseError e)).

(** *** The form search *)

Record form_env : Type := {
  wdm_install : result text;            (* ChromeDriverManager().install() *)
  chrome : option text -> result unit;  (* webdriver.Chrome(service=service, ...) *)
  get_page : text -> result unit;       (* driver.get(URL) *)
  name_input : result unit;             (* wait for the input, then send_keys *)
  search_button : result unit;          (* wait for the button, then click *)
  first_row : result unit;              (* wait for tbody/tr[1] *)
  data_cell : result unit;              (* wait for a non-empty first cell *)
  table_html : result text;             (* find_element(table).get_attribute('outerHTML'), printed *)
  read_html : text -> result (list frame); (* pd.read_html(StringIO(html_table)) *)
  quit_driver : result unit             (* driver.quit() *)
}.

(** The driver is created before the [try]. *)
Definition start_driver (env : form_env) : io handle :=
  p <~ call [Install] (wdm_install env) ;;
  launch_chrome (chrome env (Some p)) (Some p).

Definition get_uscf_player_data (env : form_env) (search_term : text) : io answer :=
  driver <~ start_driver env ;;
  try_finally
    (try_except
       (_ <~ call [Get URL] (get_page env URL) ;;
        _ <~ call [] (name_input env) ;;
        _ <~ call [] (search_button env) ;;
        _ <~ call [] (first_row env) ;;
        _ <~ try_except (call [] (data_cell env)) (fun _ => ret tt) ;;
        html_table <~ call [] (table_html env) ;;
        parse_table (read_html env html_table) html_table)
       (fun e => if is_wait_failure e then ret (WaitError e)
                 else ret (UnexpectedError e)))
    (call [Quit] (quit_driver env)).

End pop.

(** ** test.py *)

Module test.

(** *** Profile lookup *)

Record profile_env : Type := {
  wdm_install : result text;            (* ChromeDriverManager().install() *)
  chrome : option text -> result unit;  (* webdriver.Chrome(service=..., options=...) *)
  get_page : text -> result unit;       (* driver.get(url) *)
  rating_div : result text;             (* WebDriverWait(driver, 10).until(presence of the rating node).text *)
  expiration_td : result text;          (* WebDriverWait(driver, 10).until(presence of the date cell).text *)
  quit_driver : result unit             (* driver.quit() *)
}.

Definition url_beta (player_id : text) : text :=
  lit "https://beta-ratings.uschess.org/player/" ++ player_id.

Definition url_msa (player_id : text) : text :=
  lit "https://www.uschess.org/msa/MbrDtlMain.php?" ++ player_id.

(** The first statement of the [try]: it binds the local [driver]. *)
Definition start_driver (env : profile_env) : io handle :=
  p <~ call [Install] (wdm_install env) ;;
  launch_chrome (chrome env (Some p)) (Some p).

(** The rest of the [try] body, once [driver] is bound. *)
Definition scrape (env : profile_env) (player_id : text) : io pyval :=
  rating <~ try_except
              (_ <~ call [Get (url_beta player_id)] (get_page env (url_beta player_id)) ;;
               t <~ call [] (rating_div env) ;;
               ret (PStr (strip t)))
              (fun e => if is_wait_failure e then ret PNone else raise e) ;;
  _ <~ call [Get (url_msa player_id)] (get_page env (url_msa player_id)) ;;
  t <~ call [] (expiration_td env) ;;
  let expiration_date := strip t in
  ret (PDict [ ("rating"%string, if truthy rating then rating else PStr (lit "Not found"));
               ("expiration_date"%string, PStr expiration_date);
               ("player_id"%string, PStr player_id) ]).

(** The [finally] clause reads the local [driver]; it is unbound when the
    first statement of the [try] raised. *)
Definition get_uschess_info (env : profile_env) (player_id : text) : io pyval :=
  let started := start_driver env in
  try_finally
    (try_except
       (driver <~ started ;; scrape env player_id)
       (fun e => if is_wait_failure e then ret PNone else raise e))
    (match outcome started with
     | Ok _ => call [Quit] (quit_driver env)
     | Raise _ => raise UnboundLocalError
     end).

(** *** Record sink *)

(** The store is one table, [players], as SQLite keeps it.  The model
    covers tables without constraints, triggers or indexes, whose columns
    are declared [TEXT] or without a type, and which hold nulls, integers
    and texts; a column declared with a numeric type behaves like one
    without a type for the integers and nulls written to it, and is
    otherwise outside the model.  So are the failures of the store itself:
    a database file that is missing or locked, a store without the
    [players] table.  A statement fails only as [update_where_id] and
    [add_column] say. *)
Inductive sqlval : Type :=
| Null
| Integer (n : Z)
| TextVal (s : text).

(** How a column treats the values written to it: [TEXT] for a column
    declared [TEXT], which turns a number into its decimal text; [BLOB] for
    a column declared without a type, which keeps a value as it is. *)
Inductive affinity : Type :=
| TEXT
| BLOB.

(** SQLite compares column names without regard to the case of the
    letters A to Z. *)
Definition lower (c : ascii) : ascii :=
  let n := code c in
  if ((65 <=? n) && (n <=? 90))%N then ascii_of_N (n + 32) else c.

Fixpoint lower_name (s : string) : string :=
  match s with
  | EmptyString => EmptyString
  | String c s' => String (lower c) (lower_name s')
  end.

Definition same_name (a b : string) : bool :=
  String.eqb (lower_name a) (lower_name b).

(** A row maps column names to values; a column it does not list reads as
    [Null]. *)
Definition row : Type := list (string * sqlval).

(** The [players] table: its schema and its rows. *)
Record table : Type := {
  columns : list (string * affinity);
  rows : list row
}.

Definition has_column (c : string) (t : table) : bool :=
  existsb (fun d => same_name c (fst d)) (columns t).

Definition affinity_of (c : string) (t : table) : affinity :=
  match find (fun d => same_name c (fst d)) (columns t) with
  | Some d => snd d
  | None => BLOB
  end.

Fixpoint row_get (c : string) (r : row) : sqlval :=
  match r with
  | [] => Null
  | (c', v) :: r' => if same_name c c' then v else row_get c r'
  end.

Fixpoint row_set (c : string) (v : sqlval) (r : row) : row :=
  match r with
  | [] => [(c, v)]
  | (c', v') :: r' => if same_name c c' then (c', v) :: r' else (c', v') :: row_set c v r'
  end.

(** The integers SQLite stores: 64 bits, signed. *)
Definition in_int64 (n : Z) : bool :=
  ((- 2 ^ 63 <=? n) && (n <? 2 ^ 63))%Z.

(** A Python value bound to a [?] parameter.  An integer that does not fit
    64 bits raises [OverflowError]. *)
Definition to_sql (v : pyval) : result sqlval :=
  match v with
  | PNone => Ok Null
  | PInt n => if in_int64 n then Ok (Integer n) else Raise OverflowError
  | PStr s => Ok (TextVal s)
  | PDict _ => Raise OtherException   (* sqlite3.ProgrammingError: type 'dict' is not supported *)
  end.

(** The value a column keeps of a value written to it. *)
Definition apply_affinity (a : affinity) (v : sqlval) : sqlval :=
  match a, v with
  | TEXT, Integer n => TextVal (decimal n)
  | _, _ => v
  end.

(** The row is addressed by the integer [player_id]. *)
Definition id_is (player_id : Z) (r : row) : bool :=
  match row_get "id" r with
  | Integer n => (n =? player_id)%Z
  | _ => false
  end.

(** [WHERE id = ?] with an integer parameter.  Against a column declared
    [TEXT] the parameter is compared as text. *)
Definition id_matches (a : affinity) (player_id : Z) (r : row) : bool :=
  id_is player_id r
  || match a, row_get "id" r with
     | TEXT, TextVal s => Text.eqb s (decimal player_id)
     | _, _ => false
     end.

(** [cursor.execute("UPDATE players SET c = ? WHERE id = ?", (v, player_id))]:
    the statement is compiled, which fails for a column the table does not
    have; then the parameters are bound, in their order; then it runs. *)
Definition update_where_id (c : string) (v : pyval) (player_id : Z) (t : table)
  : result table :=
  if has_column c t && has_column "id" t then
    value <- to_sql v ;;
    _ <- to_sql (PInt player_id) ;;
    Ok {| columns := columns t;
          rows := map (fun r => if id_matches (affinity_of "id" t) player_id r
                                then row_set c (apply_affinity (affinity_of c t) value) r
                                else r)
                      (rows t) |}
  else Raise OperationalError.

(** [ALTER TABLE players ADD COLUMN c TEXT] *)
Definition add_column (c : string) (t : table) : result table :=
  if has_column c t then Raise OperationalError
  else Ok {| columns := columns t ++ [(c, TEXT)]; rows := rows t |}.

(** [rating.replace(',', '')] *)
Definition remove_commas (rating : pyval) : result text :=
  match rating with
  | PStr s => Ok (replace (lit ",") [] s)
  | _ => Raise AttributeError
  end.

(** [rating != "Not found"] *)
Definition is_not_found (rating : pyval) : bool :=
  match rating with
  | PStr s => Text.eqb s (lit "Not found")
  | _ => false
  end.

(** The first block: the table as the connection sees it afterwards, and
    whether the [UPDATE] ran, which opens a transaction. *)
Definition rating_stage (player_id : Z) (rating : pyval) (t : table)
  : result (table * bool) :=
  if truthy rating && negb (is_not_found rating) then
    catch (stripped <- remove_commas rating ;;
           rating_int <- py_int stripped ;;
           t1 <- update_where_id "rating" (PInt rating_int) player_id t ;;
           Ok (t1, true))
          (fun e => match e with
                    | ValueError => Ok (t, false)
                    | _ => Raise e
                    end)
  else Ok (t, false).

(** The second block: [ALTER TABLE] under [except sqlite3.OperationalError]. *)
Definition provision (t : table) : result table :=
  catch (add_column "expiration_date" t)
        (fun e => match e with
                  | OperationalError => Ok t
                  | _ => Raise e
                  end).

(** How the call ends, and the stored table after it.  The changes of a
    transaction reach the store at [conn.commit()], and are undone when an
    exception ends the call before it.  [ALTER TABLE] opens no transaction:
    run when none is open, it is stored at once, and stays when the last
    [UPDATE] raises. *)
Definition update_player_rating_and_expiration
  (player_id : Z) (rating expiration_date : pyval) (t : table) : result unit * table :=
  match rating_stage player_id rating t with
  | Raise e => (Raise e, t)
  | Ok (t1, in_transaction) =>
      match provision t1 with
      | Raise e => (Raise e, t)
      | Ok t2 =>
          match update_where_id "expiration_date" expiration_date player_id t2 with
          | Ok t3 => (Ok tt, t3)
          | Raise e => (Raise e, if in_transaction then t else t2)
          end
      end
  end.

(** The rating as the record sink's contract reads it: the integer the text
    denotes once its thousands separators are removed, if it denotes one. *)
Definition rating_as_integer (rating : pyval) : option Z :=
  match rating with
  | PStr s =>
      match py_int (filter (fun c => negb (Ascii.eqb c ","%char)) s) with
      | Ok n => Some n
      | Raise _ => None
      end
  | _ => None
  end.

End test.

(** ** Statements of the specification, and sample inputs *)

Module Examples.

Import search_players.

(** The first non-null value of a list, in its order; null if there is
    none. *)
Fixpoint first_non_null (l : list pyval) : pyval :=
  match l with
  | [] => PNone
  | PNone :: l' => first_non_null l'
  | v :: _ => v
  end.

(** "The primary rating is the first non-null value among regular, quick,
    blitz", for the record a card produces. *)
Definition primary_is_first_non_null (c : card) : Prop :=
  forall player ratings r q b,
    parse_card c = Ok player ->
    dict_get "ratings" player = Some (PDict ratings) ->
    dict_get "regular" ratings = Some r ->
    dict_get "quick" ratings = Some q ->
    dict_get "blitz" ratings = Some b ->
    dict_get "rating" player = Some (first_non_null [r; q; b]).

(** "A search returns at most [max_results] records." *)
Definition at_most_max_results (env : search_env) (search_term : text) (max_results : Z)
  : Prop :=
  forall players,
    outcome (get_uscf_player_data env search_term max_results) = Ok players ->
    (Z.of_nat (List.length players) <= max_results)%Z.

Definition badge_of (type_code value : text) : badge :=
  {| font_condensed := Ok type_code; font_mono := Ok value |}.

Definition card_of (name href : string) (badges : list badge) : card :=
  {| font_names := Ok (lit name);
     player_link := Ok (Some (lit href));
     font_sans := Ok (lit "NY");
     w_13 := Ok badges;
     exp_span := Ok (lit "Exp: 2026-01-31") |}.

(** U+00B2, SUPERSCRIPT TWO. *)
Definition superscript_two : text := [ascii_of_nat 178].

(** A card with two badges of type R, the second reading U+00B2. *)
Definition card_superscript : card :=
  card_of "SMITH, JOHN" "https://beta-ratings.uschess.org/player/12345678"
    [badge_of (lit "R") (lit "1500"); badge_of (lit "R") superscript_two].

(** A card whose regular rating reads 0 and whose quick rating is 1200. *)
Definition card_zero_regular : card :=
  card_of "DOE, JANE" "https://beta-ratings.uschess.org/player/87654321"
    [badge_of (lit "R") (lit "0"); badge_of (lit "Q") (lit "1200")].

Definition card_plain : card :=
  card_of "SMITH, ANN" "https://beta-ratings.uschess.org/player/11112222"
    [badge_of (lit "R") (lit "1834"); badge_of (lit "OB") (lit "Unr.")].

(** A card without a name element. *)
Definition card_broken : card :=
  {| font_names := Raise NoSuchElementException;
     player_link := Ok (Some (lit "https://beta-ratings.uschess.org/player/1"));
     font_sans := Ok (lit "CA");
     w_13 := Ok [];
     exp_span := Raise NoSuchElementException |}.

(** A machine on which the managed driver works. *)
Definition drivers_ok : driver_env :=
  {| search_players.wdm_install := Ok (lit "/root/.wdm/chromedriver");
     path_exists := fun _ => false;
     search_players.chrome := fun _ => Ok tt |}.

(** A machine without network and without Chrome. *)
Definition drivers_none : driver_env :=
  {| search_players.wdm_install := Raise OtherException;
     path_exists := fun _ => false;
     search_players.chrome := fun _ => Raise WebDriverException |}.

Definition search_ok : search_env :=
  {| drivers := drivers_ok;
     search_players.get_page := fun _ => Ok tt;
     find_cards := Ok [card_plain; card_broken; card_zero_regular];
     search_players.quit_driver := Ok tt |}.

End Examples.

(** ** Predicates used in the statements *)

Module Invariants.

(** The number a run of decimal digits denotes. *)
Definition decimal_number (t : text) : Z :=
  fold_left (fun acc c => (10 * acc + decimal_value c)%Z) t 0%Z.

(** A rating field: a non-negative integer, or absent. *)
Definition rating_value (v : pyval) : Prop :=
  v = PNone \/ exists n, (0 <= n)%Z /\ v = PInt n.

Definition ratings_ok (d : dict) : Prop :=
  Forall (fun kv : string * pyval => rating_value (snd kv)) d.

Definition has_key (k : string) (d : dict) : Prop := exists v, dict_get k d = Some v.

(** Neither null nor the integer 0. *)
Definition null_or_zero (v : pyval) : bool :=
  match v with
  | PNone => true
  | PInt n => (n =? 0)%Z
  | _ => false
  end.

End Invariants.

(** ** The contract of the card search *)

Module Contract.

Import search_players.

(** The keys every player record of a search must carry. *)
Definition required_keys : list string :=
  [ "name"; "memberId"; "state"; "ratings"; "rating"; "expiration_date" ]%string.

(** [successfully_parsed cards players]: [players] are the records of the
    cards that parse, in the order of the cards; a card that raises
    contributes nothing. *)
Inductive successfully_parsed : list card -> list dict -> Prop :=
| parsed_none : successfully_parsed [] []
| parsed_card c player cards players :
    parse_card c = Ok player ->
    successfully_parsed cards players ->
    successfully_parsed (c :: cards) (player :: players)
| parsed_skip c e cards players :
    parse_card c = Raise e ->
    successfully_parsed cards players ->
    successfully_parsed (c :: cards) players.

Definition search_url (search_term : text) : text :=
  URL ++ lit "/?fuzzy=" ++ search_term.

(** A run of digits: one decimal digit or more, and nothing else. *)
Definition digit_run (t : text) : bool :=
  match t with
  | [] => false
  | _ => forallb is_decimal t
  end.

(** The category a badge writes to, when its type code can be read. *)
Definition badge_category (b : badge) : option string :=
  match font_condensed b with
  | Ok rating_type => rating_key (strip rating_type)
  | Raise _ => None
  end.

(** What the specification asks a category to hold after a badge
    reading [t]: [int(t)] for a run of digits, [None] otherwise.  A run so
    long that [int] refuses it has no [int(t)]; it counts as [None]. *)
Definition converted (t : text) : pyval :=
  if digit_run t then
    match py_int t with
    | Ok n => PInt n
    | Raise _ => PNone
    end
  else PNone.

End Contract.

(** ** Sample profile pages and claims about the browser handle *)

Module ProfileExamples.

Import test.

(** "Exactly one browser handle is created, and it is released." *)
Definition exactly_one_handle (t : list event) : Prop :=
  handles_created t = 1 /\ handles_open t = 0.

(** A profile whose rating node never appears. *)
Definition profile_no_rating : profile_env :=
  {| wdm_install := Ok (lit "/root/.wdm/chromedriver");
     chrome := fun _ => Ok tt;
     get_page := fun _ => Ok tt;
     rating_div := Raise TimeoutException;
     expiration_td := Ok (lit " 2026-03-31 ");
     quit_driver := Ok tt |}.

Definition profile_ok : profile_env :=
  {| wdm_install := Ok (lit "/root/.wdm/chromedriver");
     chrome := fun _ => Ok tt;
     get_page := fun _ => Ok tt;
     rating_div := Ok (lit "2,104");
     expiration_td := Ok (lit "2026-03-31");
     quit_driver := Ok tt |}.

(** A machine on which the driver cannot be installed. *)
Definition profile_no_driver : profile_env :=
  {| wdm_install := Raise OtherException;
     chrome := fun _ => Raise WebDriverException;
     get_page := fun _ => Ok tt;
     rating_div := Ok (lit "1500");
     expiration_td := Ok (lit "2026-03-31");
     quit_driver := Ok tt |}.

End ProfileExamples.

(** ** The contract of the record sink *)

Module SinkContract.

Import test.

(** The value the [expiration_date] column keeps of a date: the column is
    the one the table has, or the [TEXT] column the sink adds. *)
Definition stored_date (t : table) (date : sqlval) : sqlval :=
  apply_affinity (if has_column "expiration_date" t
                  then affinity_of "expiration_date" t else TEXT) date.

(** What one stored row becomes: the row addressed by [player_id] gets the
    date, and the rating if the rating text denotes an integer; other rows
    are left alone. *)
Definition row_effect (t : table) (player_id : Z) (rating : pyval) (date : sqlval) (r : row)
  : row :=
  if id_matches (affinity_of "id" t) player_id r then
    row_set "expiration_date" (stored_date t date)
      match rating_as_integer rating with
      | Some n => row_set "rating" (apply_affinity (affinity_of "rating" t) (Integer n)) r
      | None => r
      end
  else r.

(** The table after a successful call of the sink. *)
Definition sink_effect (player_id : Z) (rating : pyval) (date : sqlval) (t : table) : table :=
  {| columns := if has_column "expiration_date" t then columns t
                else columns t ++ [("expiration_date"%string, TEXT)];
     rows := map (row_effect t player_id rating date) (rows t) |}.

(** The rating can be bound: it denotes no integer, or one of 64 bits. *)
Definition rating_fits (rating : pyval) : bool :=
  match rating_as_integer rating with
  | Some n => in_int64 n
  | None => true
  end.




(** Columns declared without a type. *)
Definition untyped (names : list string) : list (string * affinity) :=
  map (fun c => (c, BLOB)) names.

(** A players table with the row of player 7 and one other row. *)
Definition players_before : table :=
  {| columns := untyped ["id"; "name"; "uscf_id"; "rating"]%string;
     rows := [ [("id", Integer 7); ("name", TextVal (lit "Ann")); ("uscf_id", TextVal (lit "14970943"));
                ("rating", Integer 2000)]%string;
               [("id", Integer 8); ("name", TextVal (lit "Bob")); ("uscf_id", TextVal (lit "12345678"));
                ("rating", Null)]%string ] |}.



End SinkContract.

(** ** The contract of the table parser's fallback stage *)

Module TableContract.

Import pop.

Definition starts_with (w s : text) : Prop := exists after, s = w ++ after.

(** [w] occurs in [s] right after [before], and at no earlier position. *)
Definition first_occurrence (w s before after : text) : Prop :=
  s = before ++ w ++ after /\
  forall k, k < List.length before -> ~ starts_with w (skipn k s).

(** [s] starts with a [<tbody>] block: the tag, then [body] up to the first
    [</tbody>]. *)
Definition tbody_at (s body after : text) : Prop :=
  exists inner,
    s = lit "<tbody>" ++ inner /\
    first_occurrence (lit "</tbody>") inner body after.

(** [body] is the content of the first [<tbody>] block of [html]. *)
Definition tbody_block (html body : text) : Prop :=
  exists k after,
    tbody_at (skipn k html) body after /\
    forall j b a, j < k -> ~ tbody_at (skipn j html) b a.

(** The first [c] of a text: what precedes it and what follows it. *)
Fixpoint break_at (c : ascii) (s : text) : option (text * text) :=
  match s with
  | [] => None
  | ch :: s' =>
      if Ascii.eqb ch c then Some ([], s')
      else match break_at c s' with
           | Some (before, after) => Some (ch :: before, after)
           | None => None
           end
  end.

(** [s] starts with a row fragment: an opening tag whose name starts with
    [tr], then [body] up to the first [</tr>]. *)
Definition tr_fragment_at (s body after : text) : Prop :=
  exists attrs inner,
    s = lit "<tr" ++ attrs ++ lit ">" ++ inner /\
    ~ In ">"%char attrs /\
    first_occurrence (lit "</tr>") inner body after.

(** The row fragments of a text, left to right and without overlap. *)
Inductive tr_fragments : text -> list text -> Prop :=
| fragments_none s :
    (forall k b a, ~ tr_fragment_at (skipn k s) b a) ->
    tr_fragments s []
| fragments_next s k body after l :
    tr_fragment_at (skipn k s) body after ->
    (forall j b a, j < k -> ~ tr_fragment_at (skipn j s) b a) ->
    tr_fragments after l ->
    tr_fragments s (body :: l).

(** "When the fallback stage runs, it reports a row count." *)
Definition fallback_reports_rows (parsed : result (list frame)) (html : text) : Prop :=
  forall df frames,
    parsed = Ok (df :: frames) -> all_null df = true ->
    exists n, In (Print (FoundRows n)) (trace (parse_table parsed html)).

(** A results table whose body carries a class attribute. *)
Definition html_tbody_with_class : text :=
  lit "<table class='table table-bordered'><thead><tr><th>Name</th></tr></thead><tbody class='results'><tr><td><span></span></td></tr></tbody></table>".

(** A results table with two rows in a plain body. *)
Definition html_two_rows : text :=
  lit "<table class='table table-bordered'><thead><tr><th>Name</th></tr></thead><tbody><tr class='odd'><td><span>x</span> </td></tr><tr><td></td></tr></tbody></table>".

(** A structured parse with one row and no content. *)
Definition frames_all_null : result (list frame) :=
  Ok [ {| columns := [lit "Name"]; rows := [[NaN]] |} ].

End TableContract.

(** ** Shapes of texts and records *)

Module Shapes.

Import search_players TableContract Examples.


(** [w] occurs somewhere in [s]. *)
Definition occurs_in (w s : text) : Prop := exists k, starts_with w (skipn k s).

(** The six rating categories, in the order of the dictionary literal. *)
Definition category_keys : list string :=
  [ "regular"; "quick"; "blitz"; "online_regular"; "online_quick"; "online_blitz" ]%string.

(** A card of which only the name, the link and the badge list answer. *)
Definition card_bare : card :=
  {| font_names := Ok (lit "  LEE, KIM ");
     player_link := Ok (Some (lit "https://beta-ratings.uschess.org/player/30001234"));
     font_sans := Raise NoSuchElementException;
     w_13 := Ok [ {| font_condensed := Raise NoSuchElementException; font_mono := Ok (lit "1200") |};
                  badge_of (lit "XX") (lit "1300");
                  badge_of (lit " Q ") (lit " 1410 ") ];
     exp_span := Raise NoSuchElementException |}.

End Shapes.

(** ** The two stages of a profile lookup *)

Module LookupStages.

Import test.

(** Reading the rating on the beta-ratings page. *)
Definition beta_stage (env : profile_env) (player_id : text) : result text :=
  _ <- get_page env (url_beta player_id) ;; rating_div env.

(** Reading the expiration date on the MSA page. *)
Definition msa_stage (env : profile_env) (player_id : text) : result text :=
  _ <- get_page env (url_msa player_id) ;; expiration_td env.

(** An exception the [except (TimeoutException, NoSuchElementException)]
    clauses do not catch. *)
Definition fatal {A : Type} (r : result A) : Prop :=
  exists e, r = Raise e /\ is_wait_failure e = false.

(** A profile whose MSA page never shows the expiration date. *)
Definition profile_no_expiration : profile_env :=
  {| wdm_install := Ok (lit "/root/.wdm/chromedriver");
     chrome := fun _ => Ok tt;
     get_page := fun _ => Ok tt;
     rating_div := Ok (lit "1500");
     expiration_td := Raise TimeoutException;
     quit_driver := Ok tt |}.

(** A browser that cannot be closed. *)
Definition profile_quit_fails : profile_env :=
  {| wdm_install := Ok (lit "/root/.wdm/chromedriver");
     chrome := fun _ => Ok tt;
     get_page := fun _ => Ok tt;
     rating_div := Ok (lit "1500");
     expiration_td := Ok (lit "2026-03-31");
     quit_driver := Raise WebDriverException |}.

End LookupStages.

(** ** Measures on the parser's output *)

Module ParserShapes.

Import pop.

Definition is_row_report (e : event) : bool :=
  match e with
  | Print (RowCells _ _) => true
  | _ => false
  end.

(** Number of rows whose cells a trace details. *)
Definition row_reports (t : list event) : nat :=
  List.length (filter is_row_report t).

(** A structured parse with the eleven columns of the results table and
    one row. *)
Definition frames_one_player : result (list frame) :=
  Ok [ {| columns := map lit [ "Name"; "ID"; "R"; "Q"; "B"; "OR"; "OQ"; "OB"; "C"; "St"; "Exp" ]%string;
          rows := [ [ Str (["010"%char] ++ lit " CHUGH, A "); Str (lit "14970943"); Num 1500;
                      NaN; NaN; NaN; NaN; NaN; NaN; Str (lit "NY"); Str (lit "2026-03-31") ] ] |} ].

(** A form search in which every step answers. *)
Definition form_ok : form_env :=
  {| wdm_install := Ok (lit "/root/.wdm/chromedriver");
     chrome := fun _ => Ok tt;
     get_page := fun _ => Ok tt;
     name_input := Ok tt;
     search_button := Ok tt;
     first_row := Ok tt;
     data_cell := Raise TimeoutException;
     table_html := Ok TableContract.html_two_rows;
     read_html := fun _ => frames_one_player;
     quit_driver := Ok tt |}.

End ParserShapes.

(** ** test.py: the batch over all players *)

Module batch.

Import test.

(** [f"{x}"] for a value read from the store. *)
Definition format (v : sqlval) : text :=
  match v with
  | Null => lit "None"
  | Integer n => decimal n
  | TextVal s => s
  end.

(** [uscf_id IS NOT NULL AND uscf_id != ''].  A number differs from every
    text. *)
Definition has_uscf_id (r : row) : bool :=
  match row_get "uscf_id" r with
  | Null => false
  | Integer _ => true
  | TextVal s => negb (Nat.eqb (List.length s) 0)
  end.

(** A tuple of the [SELECT]: id, name, uscf_id, rating. *)
Definition player : Type := (sqlval * sqlval * sqlval * sqlval)%type.

Definition select_player (r : row) : player :=
  (row_get "id" r, row_get "name" r, row_get "uscf_id" r, row_get "rating" r).

(** [SELECT id, name, uscf_id, rating FROM players WHERE ...]: it fails
    when the table lacks one of the four columns.  The statement has no
    [ORDER BY]; the rows are listed in the order of the table. *)
Definition get_all_players_from_db (t : table) : result (list player) :=
  if forallb (fun c => has_column c t) ["id"; "name"; "uscf_id"; "rating"]%string then
    Ok (map select_player (filter has_uscf_id (rows t)))
  else Raise OperationalError.

(** [player_info[k]]; subscripting a text or a number raises [TypeError]. *)
Definition subscript (k : string) (v : pyval) : result pyval :=
  match v with
  | PDict d => dict_item k d
  | _ => Raise OtherException
  end.

(** What the batch prints and does, in order. *)
Inductive report : Type :=
| NoPlayers                         (* "No players with USCF IDs found in the database." *)
| Found (n : nat)                   (* "Found {n} players with USCF IDs. ..." *)
| Processing (i n : nat)            (* "[{i}/{n}] Processing ..." *)
| Browser (e : event)               (* what the lookup does *)
| Retrieved (rating expiration : pyval)  (* "  Rating: ..." and "  Expiration: ..." *)
| Updated                           (* "  [ok] Updated successfully" *)
| NotRetrieved                      (* "  [x] Failed to retrieve information" *)
| ErrorProcessing (e : exn)         (* "  [x] Error processing {name}: {e}" *)
| Sleep                             (* time.sleep(2) *)
| Summary (total successful failed : nat).

(** The store as the model covers it addresses rows by integers; [None]
    stands for a call with another row identifier, which is outside the
    model. *)
Definition store_record (player_id : sqlval) (rating expiration_date : pyval) (db : table)
  : option (result unit * table) :=
  match player_id with
  | Integer n => Some (update_player_rating_and_expiration n rating expiration_date db)
  | _ => None
  end.

(** The body of the [try] of one iteration: the lines it prints, how it
    ends -- [Ok true] after an update, [Ok false] when the lookup returned
    nothing -- and the store after it. *)
Definition attempt (web : profile_env) (player_id uscf_id : sqlval) (db : table)
  : option (list report * result bool * table) :=
  let (t, r) := get_uschess_info web (format uscf_id) in
  match r with
  | Raise e => Some (map Browser t, Raise e, db)
  | Ok player_info =>
      if truthy player_info then
        match subscript "rating" player_info with
        | Raise e => Some (map Browser t, Raise e, db)
        | Ok rating =>
            match subscript "expiration_date" player_info with
            | Raise e => Some (map Browser t, Raise e, db)
            | Ok expiration =>
                match store_record player_id rating expiration db with
                | None => None
                | Some (Ok _, db') =>
                    Some (map Browser t ++ [Retrieved rating expiration; Updated], Ok true, db')
                | Some (Raise e, db') =>
                    Some (map Browser t ++ [Retrieved rating expiration], Raise e, db')
                end
            end
        end
      else Some (map Browser t ++ [NotRetrieved], Ok false, db)
  end.

Record state : Type := {
  store : table;
  successful_updates : nat;
  failed_updates : nat;
  out : list report
}.

(** One iteration: the [try] with its [except Exception], then the delay. *)
Definition iteration (web : profile_env) (i n : nat) (p : player) (s : state)
  : option state :=
  let '(player_id, name, uscf_id, current_rating) := p in
  match attempt web player_id uscf_id (store s) with
  | None => None
  | Some (lines, Ok true, db) =>
      Some {| store := db;
              successful_updates := S (successful_updates s);
              failed_updates := failed_updates s;
              out := out s ++ [Processing i n] ++ lines ++ [Sleep] |}
  | Some (lines, Ok false, db) =>
      Some {| store := db;
              successful_updates := successful_updates s;
              failed_updates := S (failed_updates s);
              out := out s ++ [Processing i n] ++ lines ++ [Sleep] |}
  | Some (lines, Raise e, db) =>
      Some {| store := db;
              successful_updates := successful_updates s;
              failed_updates := S (failed_updates s);
              out := out s ++ [Processing i n] ++ lines ++ [ErrorProcessing e; Sleep] |}
  end.

(** [for i, (...) in enumerate(players, 1)], with [web i] the answers of
    the sites during the [i]-th lookup. *)
Fixpoint loop (web : nat -> profile_env) (n i : nat) (players : list player) (s : state)
  : option state :=
  match players with
  | [] => Some s
  | p :: rest =>
      match iteration (web i) i n p s with
      | Some s' => loop web n (S i) rest s'
      | None => None
      end
  end.

(** The batch: what it prints and does, how it ends, and the store after
    it. *)
Definition process_all_players (web : nat -> profile_env) (db : table)
  : option (list report * result unit * table) :=
  match get_all_players_from_db db with
  | Raise e => Some ([], Raise e, db)
  | Ok [] => Some ([NoPlayers], Ok tt, db)
  | Ok players =>
      let n := List.length players in
      match loop web n 1 players
              {| store := db; successful_updates := 0; failed_updates := 0;
                 out := [Found n] |} with
      | Some s =>
          Some (out s ++ [Summary n (successful_updates s) (failed_updates s)],
                Ok tt, store s)
      | None => None
      end
  end.

(** *** Measures and sample inputs *)

(** Every row is addressed by an integer, of 64 bits as the store keeps
    them. *)
Definition integer_ids (t : table) : Prop :=
  Forall (fun r => exists n, row_get "id" r = Integer n /\ in_int64 n = true) (rows t).

Definition is_sleep (r : report) : bool :=
  match r with Sleep => true | _ => false end.

(** A lookup starts with the installation of the driver. *)
Definition is_lookup (r : report) : bool :=
  match r with Browser Install => true | _ => false end.

Definition is_quit_report (r : report) : bool :=
  match r with Browser Quit => true | _ => false end.

Definition count (p : report -> bool) (l : list report) : nat :=
  List.length (filter p l).

(** The summary line of an output, if it ends with one. *)
Definition summary (l : list report) : option (nat * nat * nat) :=
  match rev l with
  | Summary total successful failed :: _ => Some (total, successful, failed)
  | _ => None
  end.

(** The second table has the rows of the first, in the same order, and
    they differ at most in the rating and the expiration date. *)
Definition kept (t t' : table) : Prop :=
  Forall2
    (fun r r' =>
       forall c, same_name c "rating" = false -> same_name c "expiration_date" = false ->
                 row_get c r' = row_get c r)
    (rows t) (rows t').

(** The second table has the rows of the first, and those whose
    identifier is not listed are as they were. *)
Definition touches_only (ids : list sqlval) (t t' : table) : Prop :=
  Forall2 (fun r r' => ~ In (row_get "id" r) ids -> r' = r) (rows t) (rows t').

Definition player_id (p : player) : sqlval := fst (fst (fst p)).

Definition uscf_id (p : player) : sqlval := snd (fst p).

(** The lookup for a player returns a record. *)
Definition returns_record (web : profile_env) (p : player) : bool :=
  let '(_, _, uscf_id, _) := p in
  match outcome (get_uschess_info web (format uscf_id)) with
  | Ok (PDict _) => true
  | _ => false
  end.

(** Number of lookups that return a record, the first of them being
    lookup [i]. *)
Fixpoint records_from (web : nat -> profile_env) (i : nat) (players : list player) : nat :=
  match players with
  | [] => 0
  | p :: rest =>
      (if returns_record (web i) p then 1 else 0) + records_from web (S i) rest
  end.

(** The lookup for a player returns a record the sink can store: one
    whose rating denotes no integer, or an integer of 64 bits. *)
Definition stores_record (web : profile_env) (p : player) : bool :=
  let '(_, _, uscf_id, _) := p in
  match outcome (get_uschess_info web (format uscf_id)) with
  | Ok (PDict d) =>
      match dict_get "rating" d with
      | Some rating => SinkContract.rating_fits rating
      | None => false
      end
  | _ => false
  end.

(** Number of lookups that return a record the sink can store, the first
    of them being lookup [i]. *)
Fixpoint stored_from (web : nat -> profile_env) (i : nat) (players : list player) : nat :=
  match players with
  | [] => 0
  | p :: rest =>
      (if stores_record (web i) p then 1 else 0) + stored_from web (S i) rest
  end.

(** Sites that answer the first lookup and time out on the expiration date
    in the later ones. *)
Definition web_first_only (i : nat) : profile_env :=
  if Nat.eqb i 1 then ProfileExamples.profile_ok else LookupStages.profile_no_expiration.

End batch.

(** ** search_players.py: the command line *)

Module cli.

Import search_players.

(** How the script ends. *)
Inductive ending : Type :=
| Usage                              (* the usage line on stderr, then sys.exit(1) *)
| Traceback (e : exn)                (* an exception nothing catches *)
| Results (players : list dict).     (* print(json.dumps(results)) *)

(** The block under [if __name__ == "__main__"], with [argv] the script
    name followed by the arguments: what it does to the browser and how it
    ends. *)
Definition main (env : search_env) (argv : list text) : list event * ending :=
  if negb (Nat.eqb (List.length argv) 3) then ([], Usage)
  else
    let search_term := nth 1 argv [] in
    match py_int (nth 2 argv []) with
    | Raise e => ([], Traceback e)
    | Ok max_results =>
        match get_uscf_player_data env search_term max_results with
        | (t, Ok results) => (t, Results results)
        | (t, Raise e) => (t, Traceback e)
        end
    end.

(** The exit status of the process. *)
Definition exit_status (e : ending) : nat :=
  match e with
  | Results _ => 0
  | _ => 1
  end.

End cli.

(** * Properties *)

(** ** Driver acquisition (search_players.py) *)

Section DriverAcquisition.

Import search_players.

Variable env : driver_env.

Lemma try_each_app (l1 l2 : list strategy) (k : io handle) :
  try_each env (l1 ++ l2) k = try_each env l1 (try_each env l2 k).
Proof.
  induction l1 as [|s l1 IH]; simpl; [reflexivity|].
  now rewrite IH.
Qed.

(** The loop over the local paths is [try_each] over the candidates. *)
Lemma method_system_paths_try_each (paths : list text) (k : io handle) :
  (r <~ method_system_paths env paths ;;
   match r with Some driver => ret driver | None => k end)
  = try_each env
      (map LocalPath
         (filter (fun p => path_exists env p || Text.eqb p (lit "chromedriver")) paths))
      k.
Proof.
  induction paths as [|path rest IH].
  - simpl. now destruct k.
  - cbn [method_system_paths filter].
    destruct (path_exists env path || Text.eqb path (lit "chromedriver")).
    + cbn [map try_each attempt]. rewrite <- IH.
      unfold launch, launch_chrome.
      destruct (chrome env (Some path)); simpl.
      * reflexivity.
      * destruct (method_system_paths env rest) as [t [[d|]|e']]; simpl;
          try reflexivity.
        now destruct k.
    + exact IH.
Qed.

Lemma method_system_paths_no_raise (paths : list text) :
  exists t r, method_system_paths env paths = (t, Ok r).
Proof.
  induction paths as [|path rest IH]; simpl.
  - now exists [], None.
  - destruct (path_exists env path || Text.eqb path (lit "chromedriver")); [|exact IH].
    unfold launch, launch_chrome.
    destruct (chrome env (Some path)); simpl.
    + now eexists _, _.
    + destruct IH as (t & r & ->). simpl. now eexists _, _.
Qed.

Lemma setup_chrome_driver_first_success :
  setup_chrome_driver env = first_success env (plan env).
Proof.
  unfold first_success, plan.
  change ([Managed] ++ ?l) with (Managed :: l).
  cbn [try_each]. rewrite try_each_app.
  rewrite <- method_system_paths_try_each.
  unfold setup_chrome_driver, method_webdriver_manager, method_default.
  cbn [try_each attempt].
  destruct (method_system_paths_no_raise possible_paths) as (t2 & r2 & E2).
  rewrite E2. unfold launch, launch_chrome.
  destruct (wdm_install env) as [p|e1]; simpl.
  - destruct (chrome env (Some p)); simpl; [reflexivity|].
    destruct r2 as [d|]; simpl; [reflexivity|].
    destruct (chrome env None); reflexivity.
  - destruct r2 as [d|]; simpl; [reflexivity|].
    destruct (chrome env None); reflexivity.
Qed.

Lemma first_success_spec (l : list strategy) :
  exists tried later,
    l = tried ++ later /\
    trace (first_success env l) = flat_map (fun s => trace (attempt env s)) tried /\
    match outcome (first_success env l) with
    | Ok driver =>
        exists before s,
          tried = before ++ [s] /\ Forall (failed env) before /\
          outcome (attempt env s) = Ok driver
    | Raise e => e = WebDriverException /\ later = [] /\ Forall (failed env) tried
    end.
Proof.
  unfold first_success.
  induction l as [|s l IH]; simpl.
  - exists [], []. repeat split; constructor.
  - destruct (attempt env s) as [t [d|e]] eqn:E; simpl.
    + exists [s], l. simpl. rewrite E, app_nil_r. repeat split.
      exists [], s. rewrite E. repeat split. constructor.
    + destruct IH as (tried & later & -> & Ht & Ho).
      destruct (try_each env (tried ++ later) (raise WebDriverException))
        as [t' r'] eqn:E'.
      simpl in *. exists (s :: tried), later. simpl. rewrite E. simpl.
      split; [reflexivity|]. split; [now rewrite Ht|].
      assert (Hs : failed env s) by (unfold failed; now rewrite E).
      destruct r' as [d|e'].
      * destruct Ho as (before & s' & -> & Hb & Hs').
        exists (s :: before), s'. repeat split; auto.
      * destruct Ho as (-> & -> & Hf). repeat split; auto.
Qed.

(** C9.  Driver acquisition attempts the strategies of the fixed plan --
    the managed driver, then the candidate local paths in their listed
    order, then the framework default -- from the first on: the strategies
    attempted are a prefix of the plan and the trace is exactly their
    attempts in that order.  When a handle is returned, every earlier
    attempt failed and nothing after the successful one was tried; when an
    exception is raised, it is [WebDriverException] and the whole plan was
    attempted and failed. *)
Theorem setup_chrome_driver_fixed_order :
  exists tried later,
    plan env = tried ++ later /\
    trace (setup_chrome_driver env)
    = flat_map (fun s => trace (attempt env s)) tried /\
    match outcome (setup_chrome_driver env) with
    | Ok driver =>
        exists before s,
          tried = before ++ [s] /\ Forall (failed env) before /\
          outcome (attempt env s) = Ok driver
    | Raise e => e = WebDriverException /\ later = [] /\ Forall (failed env) tried
    end.
Proof.
  rewrite setup_chrome_driver_first_success.
  apply first_success_spec.
Qed.

End DriverAcquisition.

(** ** Texts *)

Section TextFacts.

Lemma text_eqb_eq (a b : text) : Text.eqb a b = true <-> a = b.
Proof.
  revert b; induction a as [|x a IH]; intros [|y b]; simpl; split;
    try congruence; try discriminate.
  - intros H. apply andb_true_iff in H as [Hx Hab].
    apply Ascii.eqb_eq in Hx. apply IH in Hab. congruence.
  - intros H. injection H as -> ->. rewrite Ascii.eqb_refl. now apply IH.
Qed.

Lemma forallb_lstrip (P : ascii -> bool) (s : text) :
  forallb P s = true -> forallb P (lstrip s) = true.
Proof.
  induction s as [|c s IH]; simpl; [easy|].
  intros H. destruct (isspace c); [|exact H].
  apply andb_true_iff in H as [_ H]. auto.
Qed.

Lemma forallb_rev (P : ascii -> bool) (s : text) :
  forallb P (rev s) = forallb P s.
Proof.
  induction s as [|c s IH]; simpl; [reflexivity|].
  rewrite forallb_app, IH. simpl. rewrite andb_true_r. apply andb_comm.
Qed.

Lemma forallb_strip (P : ascii -> bool) (s : text) :
  forallb P s = true -> forallb P (strip s) = true.
Proof.
  intros H. unfold strip, rstrip.
  rewrite forallb_rev. apply forallb_lstrip. rewrite forallb_rev.
  now apply forallb_lstrip.
Qed.

Lemma lstrip_no_space (s : text) :
  forallb (fun c => negb (isspace c)) s = true -> lstrip s = s.
Proof.
  destruct s as [|c s]; simpl; [easy|].
  intros H. apply andb_true_iff in H as [H _].
  now destruct (isspace c).
Qed.

Lemma strip_no_space (s : text) :
  forallb (fun c => negb (isspace c)) s = true -> strip s = s.
Proof.
  intros H. unfold strip, rstrip. rewrite (lstrip_no_space s H).
  rewrite lstrip_no_space by now rewrite forallb_rev.
  apply rev_involutive.
Qed.

Lemma forallb_impl (P Q : ascii -> bool) (s : text) :
  (forall c, P c = true -> Q c = true) ->
  forallb P s = true -> forallb Q s = true.
Proof.
  intros HPQ. induction s as [|c s IH]; simpl; [easy|].
  intros H. apply andb_true_iff in H as [Hc Hs].
  now rewrite (HPQ c Hc), IH.
Qed.

(** No digit is a whitespace character, a sign or an underscore. *)
Lemma digit_char_plain (c : ascii) :
  is_digit_char c = true ->
  isspace c = false /\ Ascii.eqb c "+"%char = false /\ Ascii.eqb c "-"%char = false.
Proof.
  destruct c as [[] [] [] [] [] [] [] []]; intros H;
    solve [repeat split; reflexivity | discriminate H].
Qed.

Lemma decimal_is_digit (c : ascii) : is_decimal c = true -> is_digit_char c = true.
Proof. unfold is_digit_char. now intros ->. Qed.

Lemma decimal_value_nonneg (c : ascii) :
  is_decimal c = true -> (0 <= decimal_value c <= 9)%Z.
Proof.
  unfold is_decimal, decimal_value. intros H.
  apply andb_true_iff in H as [H1 H2].
  apply N.leb_le in H1, H2.
  set (n := code c) in *. clearbody n. lia.
Qed.

Lemma digits_value_nonneg (s : text) :
  forall acc prev n,
    (0 <= acc)%Z -> digits_value acc prev s = Some n -> (0 <= n)%Z.
Proof.
  induction s as [|c s IH]; cbn [digits_value]; intros acc prev n Hacc H.
  - destruct prev; [injection H as <-; exact Hacc|discriminate].
  - destruct (is_decimal c) eqn:Hc.
    + apply IH in H; [exact H|].
      pose proof (decimal_value_nonneg c Hc). lia.
    + destruct (Ascii.eqb c "_"%char); [|discriminate].
      destruct prev; [|discriminate]. now apply IH in H.
Qed.

Lemma digits_value_decimal (s : text) :
  forall acc,
    forallb is_decimal s = true ->
    digits_value acc true s
    = Some (fold_left (fun a c => (10 * a + decimal_value c)%Z) s acc).
Proof.
  induction s as [|c s IH]; simpl; intros acc H; [reflexivity|].
  apply andb_true_iff in H as [Hc Hs]. rewrite Hc. now apply IH.
Qed.

Lemma isdigit_spec (t : text) :
  isdigit t = true <-> t <> [] /\ forallb is_digit_char t = true.
Proof.
  destruct t as [|c t]; simpl.
  - split; [discriminate|]. now intros [H _].
  - split; [intros H; split; [discriminate|exact H]|now intros [_ H]].
Qed.

Lemma int_space_is_space (c : ascii) : is_int_space c = true -> isspace c = true.
Proof.
  destruct c as [[] [] [] [] [] [] [] []]; intros H;
    solve [reflexivity | discriminate H].
Qed.

Lemma int_lstrip_no_space (s : text) :
  forallb (fun c => negb (isspace c)) s = true -> int_lstrip s = s.
Proof.
  destruct s as [|c s]; simpl; [easy|].
  intros H. apply andb_true_iff in H as [H _].
  destruct (is_int_space c) eqn:E; [|reflexivity].
  apply int_space_is_space in E. now rewrite E in H.
Qed.

Lemma int_strip_no_space (s : text) :
  forallb (fun c => negb (isspace c)) s = true -> int_strip s = s.
Proof.
  intros H. unfold int_strip. rewrite (int_lstrip_no_space s H).
  rewrite int_lstrip_no_space by now rewrite forallb_rev.
  apply rev_involutive.
Qed.

(** On a text of digits, [int] sees the text itself and no sign. *)
Lemma py_int_isdigit (t : text) :
  isdigit t = true ->
  py_int t = match digits_value 0 false t with
             | Some n => if Nat.leb (digit_count t) int_max_str_digits then Ok n
                         else Raise ValueError
             | None => Raise ValueError
             end.
Proof.
  intros H. apply isdigit_spec in H as [Hne Hall].
  unfold py_int. rewrite int_strip_no_space.
  - destruct t as [|c t]; [congruence|].
    simpl in Hall. apply andb_true_iff in Hall as [Hc _].
    destruct (digit_char_plain c Hc) as (_ & -> & ->). reflexivity.
  - revert Hall. apply forallb_impl. intros c Hc.
    now destruct (digit_char_plain c Hc) as (-> & _).
Qed.

Lemma py_int_isdigit_nonneg (t : text) (n : Z) :
  isdigit t = true -> py_int t = Ok n -> (0 <= n)%Z.
Proof.
  intros H. rewrite (py_int_isdigit t H).
  destruct (digits_value 0 false t) as [m|] eqn:E; [|discriminate].
  destruct (Nat.leb _ _); [|discriminate].
  intros [= <-]. now apply digits_value_nonneg in E.
Qed.

Lemma digit_count_decimal (t : text) :
  forallb is_decimal t = true -> digit_count t = List.length t.
Proof.
  unfold digit_count. induction t as [|c t IH]; simpl; [reflexivity|].
  intros H. apply andb_true_iff in H as [Hc Ht]. rewrite Hc. simpl.
  now rewrite IH.
Qed.

(** [int] on a run of decimal digits: the number it denotes, unless the run
    is longer than the interpreter allows. *)
Lemma py_int_decimal_run (t : text) :
  t <> [] -> forallb is_decimal t = true ->
  py_int t = if Nat.leb (List.length t) int_max_str_digits
             then Ok (Invariants.decimal_number t)
             else Raise ValueError.
Proof.
  intros Hne Hall.
  rewrite py_int_isdigit.
  - rewrite (digit_count_decimal t Hall).
    destruct t as [|c t]; [congruence|].
    cbn [forallb] in Hall. apply andb_true_iff in Hall as [Hc Ht].
    cbn [digits_value]. rewrite Hc.
    now rewrite digits_value_decimal.
  - apply isdigit_spec. split; [exact Hne|].
    revert Hall. apply forallb_impl, decimal_is_digit.
Qed.

Lemma py_int_decimal (t : text) :
  t <> [] -> forallb is_decimal t = true ->
  List.length t <= int_max_str_digits ->
  py_int t = Ok (Invariants.decimal_number t).
Proof.
  intros Hne Hall Hlen. rewrite (py_int_decimal_run t Hne Hall).
  apply Nat.leb_le in Hlen. now rewrite Hlen.
Qed.

(** [s.replace(',', '')] drops the commas and nothing else. *)
Lemma replace_char_filter (c : ascii) (s : text) :
  replace [c] [] s = filter (fun x => negb (Ascii.eqb x c)) s.
Proof.
  unfold replace. induction s as [|x s IH]; simpl; [reflexivity|].
  rewrite (Ascii.eqb_sym x c).
  destruct (Ascii.eqb c x); simpl; now rewrite IH.
Qed.

End TextFacts.

(** ** Rating badges and result cards (search_players.py) *)

Section Cards.

Import search_players Invariants Examples Contract.

Lemma convert_rating_value (t : text) (v : pyval) :
  convert_rating t = Ok v -> rating_value v.
Proof.
  unfold convert_rating. destruct (isdigit t) eqn:Hd.
  - destruct (py_int t) as [n|e] eqn:Hn; simpl; [|discriminate].
    intros [= <-]. right. exists n. split; [|reflexivity].
    now apply (py_int_isdigit_nonneg t).
  - intros [= <-]. now left.
Qed.

(** A run of decimal digits is converted to the number it denotes. *)
Lemma convert_rating_decimal (t : text) :
  t <> [] -> forallb is_decimal t = true ->
  List.length t <= int_max_str_digits ->
  convert_rating t = Ok (PInt (decimal_number t)).
Proof.
  intros Hne Hall Hlen. unfold convert_rating.
  assert (Hd : isdigit t = true).
  { apply isdigit_spec. split; [exact Hne|].
    revert Hall. apply forallb_impl, decimal_is_digit. }
  now rewrite Hd, py_int_decimal.
Qed.

(** A text that [isdigit] rejects is mapped to [None]. *)
Lemma convert_rating_not_digit (t : text) :
  isdigit t = false -> convert_rating t = Ok PNone.
Proof. unfold convert_rating. now intros ->. Qed.

Lemma dict_get_set_eq (k : string) (v : pyval) (d : dict) :
  dict_get k (dict_set k v d) = Some v.
Proof.
  induction d as [|[k' v'] d IH]; simpl.
  - now rewrite String.eqb_refl.
  - destruct (String.eqb k k') eqn:E; simpl.
    + now rewrite String.eqb_refl.
    + now rewrite E.
Qed.

Lemma dict_get_set_ne (k k' : string) (v : pyval) (d : dict) :
  k <> k' -> dict_get k' (dict_set k v d) = dict_get k' d.
Proof.
  intros Hne. induction d as [|[k0 v0] d IH]; simpl.
  - destruct (String.eqb k' k) eqn:E; [|reflexivity].
    apply String.eqb_eq in E. congruence.
  - destruct (String.eqb k k0) eqn:E; simpl.
    + apply String.eqb_eq in E. subst k0.
      destruct (String.eqb k' k) eqn:E'; [|reflexivity].
      apply String.eqb_eq in E'. congruence.
    + now rewrite IH.
Qed.

Lemma keys_dict_set (k : string) (v : pyval) (d : dict) :
  In k (keys d) -> keys (dict_set k v d) = keys d.
Proof.
  unfold keys. induction d as [|[k' v'] d IH]; simpl; [easy|].
  intros H. destruct (String.eqb k k') eqn:E; simpl.
  - apply String.eqb_eq in E. now subst.
  - f_equal. apply IH. destruct H as [H|H]; [|exact H].
    subst k'. now rewrite String.eqb_refl in E.
Qed.

Lemma ratings_ok_set (k : string) (v : pyval) (d : dict) :
  rating_value v -> ratings_ok d -> ratings_ok (dict_set k v d).
Proof.
  intros Hv. unfold ratings_ok.
  induction d as [|[k' v'] d IH]; simpl; intros Hd.
  - now constructor.
  - inversion Hd as [|? ? H1 H2]; subst.
    destruct (String.eqb k k'); constructor; auto.
Qed.

Lemma ratings_ok_get (k : string) (v : pyval) (d : dict) :
  ratings_ok d -> dict_get k d = Some v -> rating_value v.
Proof.
  unfold ratings_ok. induction d as [|[k' v'] d IH]; simpl; [discriminate|].
  intros Hd. inversion Hd as [|? ? H1 H2]; subst.
  destruct (String.eqb k k'); [intros [= <-]; exact H1|now apply IH].
Qed.

Lemma rating_key_in (ty : text) (k : string) :
  rating_key ty = Some k -> In k (keys initial_ratings).
Proof.
  unfold rating_key.
  repeat match goal with
         | |- context [if ?b then _ else _] => destruct b
         end; intros [= <-]; simpl; tauto.
Qed.

(** What one loop iteration keeps: the six keys and the shape of the
    values. *)
Lemma badge_step_invariant (ratings : dict) (b : badge) :
  keys ratings = keys initial_ratings -> ratings_ok ratings ->
  keys (badge_step ratings b) = keys initial_ratings /\
  ratings_ok (badge_step ratings b).
Proof.
  intros Hk Hok. unfold badge_step, parse_badge, fmap.
  destruct (font_condensed b) as [ty|]; simpl; [|now split].
  destruct (font_mono b) as [val|]; simpl; [|now split].
  destruct (rating_key (strip ty)) as [k|] eqn:Ek; [|now split].
  destruct (convert_rating (strip val)) as [v|] eqn:Ev; simpl; [|now split].
  split.
  - rewrite keys_dict_set; [exact Hk|]. rewrite Hk. eapply rating_key_in, Ek.
  - apply ratings_ok_set; [|exact Hok]. eapply convert_rating_value, Ev.
Qed.

Lemma parse_badges_invariant (rating_badges : list badge) :
  keys (parse_badges rating_badges) = keys initial_ratings /\
  ratings_ok (parse_badges rating_badges).
Proof.
  unfold parse_badges.
  assert (H0 : keys initial_ratings = keys initial_ratings /\ ratings_ok initial_ratings).
  { split; [reflexivity|]. repeat constructor. }
  revert H0. generalize initial_ratings at 1 3 4 6 as d.
  induction rating_badges as [|b l IH]; simpl; intros d [Hk Hok]; [now split|].
  apply IH. now apply badge_step_invariant.
Qed.

Lemma dict_get_keys (k : string) (d : dict) :
  In k (keys d) -> exists v, dict_get k d = Some v.
Proof.
  unfold keys. induction d as [|[k' v'] d IH]; simpl; [easy|].
  intros H. destruct (String.eqb k k') eqn:E; [now eexists|].
  destruct H as [H|H]; [|now apply IH].
  subst. now rewrite String.eqb_refl in E.
Qed.

Lemma rating_value_truthy (v : pyval) :
  rating_value v -> truthy v = negb (null_or_zero v).
Proof. intros [->|(n & _ & ->)]; reflexivity. Qed.

(** The record a card produces, spelled out. *)
Lemma parse_card_inv (c : card) (player : dict) :
  parse_card c = Ok player ->
  exists name uscf_id state expiration ratings r q b,
    keys ratings = keys initial_ratings /\ ratings_ok ratings /\
    dict_get "regular" ratings = Some r /\
    dict_get "quick" ratings = Some q /\
    dict_get "blitz" ratings = Some b /\
    player = [ ("name"%string, PStr name);
               ("memberId"%string, PStr uscf_id);
               ("state"%string, state);
               ("ratings"%string, PDict ratings);
               ("uscf_id"%string, PStr uscf_id);
               ("rating"%string, py_or (py_or r q) b);
               ("expiration_date"%string, expiration) ].
Proof.
  unfold parse_card, fmap.
  destruct (font_names c) as [name|]; simpl; [|discriminate].
  destruct (player_link c) as [[href|]|]; simpl; try discriminate.
  destruct (w_13 c) as [badges|]; simpl; [|discriminate].
  destruct (parse_badges_invariant badges) as [Hk Hok].
  unfold primary_rating_of, dict_item.
  destruct (dict_get_keys "regular" (parse_badges badges)) as [r Hr];
    [rewrite Hk; simpl; tauto|].
  destruct (dict_get_keys "quick" (parse_badges badges)) as [q Hq];
    [rewrite Hk; simpl; tauto|].
  destruct (dict_get_keys "blitz" (parse_badges badges)) as [b Hb];
    [rewrite Hk; simpl; tauto|].
  rewrite Hr, Hq, Hb. simpl. intros [= <-].
  eexists _, _, _, _, (parse_badges badges), r, q, b.
  repeat split; eauto.
Qed.

(** Every rating field of a produced record -- the six category ratings and
    the primary rating -- is a non-negative integer or [None]. *)
Lemma parse_card_rating_fields (c : card) (player : dict) :
  parse_card c = Ok player ->
  exists ratings primary,
    dict_get "ratings" player = Some (PDict ratings) /\
    dict_get "rating" player = Some primary /\
    ratings_ok ratings /\ rating_value primary.
Proof.
  intros H. apply parse_card_inv in H
    as (name & id & st & ex & ratings & r & q & b & Hk & Hok & Hr & Hq & Hb & ->).
  exists ratings, (py_or (py_or r q) b). repeat split; auto.
  pose proof (ratings_ok_get _ _ _ Hok Hr).
  pose proof (ratings_ok_get _ _ _ Hok Hq).
  pose proof (ratings_ok_get _ _ _ Hok Hb).
  unfold py_or. destruct (truthy r) eqn:Er; [now rewrite Er|].
  now destruct (truthy q).
Qed.

(** One badge: when the conversion of its text yields a value, that value is
    what its category holds after the iteration. *)
Lemma badge_step_stores (ratings : dict) (b : badge) (ty val : text)
  (key : string) (v : pyval) :
  font_condensed b = Ok ty -> font_mono b = Ok val ->
  rating_key (strip ty) = Some key ->
  convert_rating (strip val) = Ok v ->
  dict_get key (badge_step ratings b) = Some v.
Proof.
  intros Hty Hval Hkey Hv. unfold badge_step, parse_badge, fmap.
  rewrite Hty, Hval. simpl. rewrite Hkey, Hv. simpl.
  apply dict_get_set_eq.
Qed.

(** With two badges of one category the later one decides, unless its
    conversion raises: U+00B2 passes [isdigit] but [int] rejects it, the
    badge is skipped, and the category keeps what the earlier badge
    stored. *)
Example repeated_category_keeps_earlier_rating :
  isdigit superscript_two = true /\
  convert_rating superscript_two = Raise ValueError /\
  exists player ratings,
    parse_card card_superscript = Ok player /\
    dict_get "ratings" player = Some (PDict ratings) /\
    dict_get "regular" ratings = Some (PInt 1500).
Proof.
  split; [reflexivity|]. split; [reflexivity|].
  eexists _, _. split; [reflexivity|]. split; reflexivity.
Qed.

Lemma digit_run_isdigit (t : text) : digit_run t = true -> isdigit t = true.
Proof.
  destruct t as [|c t]; [discriminate|]. unfold digit_run, isdigit.
  apply forallb_impl, decimal_is_digit.
Qed.

(** A digit that is not decimal ends the reading of a number. *)
Lemma digits_value_not_decimal (t : text) :
  forallb is_digit_char t = true -> forallb is_decimal t = false ->
  forall acc prev, digits_value acc prev t = None.
Proof.
  induction t as [|c t IH]; cbn [forallb digits_value]; [discriminate|].
  intros Hd Hn acc prev. apply andb_true_iff in Hd as [Hc Ht].
  destruct (is_decimal c) eqn:Ec.
  - apply IH; [exact Ht|exact Hn].
  - destruct c as [[] [] [] [] [] [] [] []]; try discriminate; reflexivity.
Qed.

(** The conversion yields the value the specification asks for, or raises
    when it asks for [None]. *)
Lemma convert_rating_converted (t : text) :
  convert_rating t = Ok (converted t) \/
  (converted t = PNone /\ exists e, convert_rating t = Raise e).
Proof.
  unfold convert_rating, converted.
  destruct (digit_run t) eqn:Hr.
  - rewrite (digit_run_isdigit t Hr).
    destruct (py_int t) as [n|e]; [now left|right; split; [reflexivity|now exists e]].
  - destruct (isdigit t) eqn:Hd; [|now left].
    right. split; [reflexivity|].
    apply isdigit_spec in Hd as [Hne Hall].
    assert (Hnd : forallb is_decimal t = false)
      by (destruct t; [congruence|exact Hr]).
    rewrite py_int_isdigit by (apply isdigit_spec; now split).
    rewrite (digits_value_not_decimal t Hall Hnd). now eexists.
Qed.

Lemma initial_rating_none (ty : text) (k : string) :
  rating_key ty = Some k -> dict_get k initial_ratings = Some PNone.
Proof.
  unfold rating_key.
  repeat match goal with
         | |- context [if ?b then _ else _] => destruct b
         end; intros [= <-]; reflexivity.
Qed.

(** A badge of another category leaves the category alone. *)
Lemma badge_step_other (ratings : dict) (b : badge) (k : string) :
  badge_category b <> Some k ->
  dict_get k (badge_step ratings b) = dict_get k ratings.
Proof.
  unfold badge_category, badge_step, parse_badge, fmap. intros H.
  destruct (font_condensed b) as [ty|]; simpl; [|reflexivity].
  destruct (font_mono b) as [val|]; simpl; [|reflexivity].
  destruct (rating_key (strip ty)) as [k'|]; [|reflexivity].
  destruct (convert_rating (strip val)) as [v|]; simpl; [|reflexivity].
  apply dict_get_set_ne. congruence.
Qed.

Lemma badge_steps_other (l : list badge) (ratings : dict) (k : string) :
  Forall (fun b => badge_category b <> Some k) l ->
  dict_get k (fold_left badge_step l ratings) = dict_get k ratings.
Proof.
  intros H. revert ratings. induction H as [|b l Hb _ IH]; intros ratings; simpl;
    [reflexivity|].
  rewrite IH. now apply badge_step_other.
Qed.

(** C1.  Take a card that yields a record, and a badge of it that is the
    only one of its category and whose two texts can be read, [t] being its
    rating text.  After the card is parsed the category holds [int(t)] if
    [t] is a run of digits and [None] otherwise -- also for a text such as
    U+00B2 that [isdigit] accepts and [int] rejects, and for a run longer
    than [int] converts.  [int(t)] is the number the digits denote for
    every run of at most [int_max_str_digits] digits.  And in every record
    the six ratings and the primary rating are non-negative integers or
    [None]. *)
Theorem badge_text_converted
  (c : card) (player : dict) (before after : list badge) (b : badge)
  (rating_type t : text) (k : string) :
  parse_card c = Ok player ->
  w_13 c = Ok (before ++ b :: after) ->
  font_condensed b = Ok rating_type ->
  font_mono b = Ok t ->
  rating_key (strip rating_type) = Some k ->
  Forall (fun b' => badge_category b' <> Some k) (before ++ after) ->
  exists ratings primary,
    dict_get "ratings" player = Some (PDict ratings) /\
    dict_get "rating" player = Some primary /\
    ratings_ok ratings /\ rating_value primary /\
    dict_get k ratings = Some (converted (strip t)) /\
    (digit_run (strip t) = true ->
     List.length (strip t) <= int_max_str_digits ->
     converted (strip t) = PInt (decimal_number (strip t))).
Proof.
  intros Hc Hw Hty Hval Hk Honly.
  destruct (parse_card_rating_fields c player Hc)
    as (ratings & primary & Hr & Hp & Hok & Hpv).
  exists ratings, primary. repeat (split; [assumption|]).
  assert (E : ratings = parse_badges (before ++ b :: after)).
  { revert Hc Hr. unfold parse_card, fmap. rewrite Hw.
    destruct (font_names c); simpl; [|discriminate].
    destruct (player_link c) as [[href|]|]; simpl; try discriminate.
    destruct (primary_rating_of _); simpl; [|discriminate].
    intros [= <-]. simpl. now intros [= <-]. }
  apply Forall_app in Honly as [Hbefore Hafter].
  split.
  - rewrite E. unfold parse_badges. rewrite fold_left_app. cbn [fold_left].
    rewrite (badge_steps_other after _ k Hafter).
    set (d := fold_left badge_step before initial_ratings).
    assert (Hd : dict_get k d = Some PNone).
    { unfold d. rewrite (badge_steps_other before _ k Hbefore).
      exact (initial_rating_none _ _ Hk). }
    unfold badge_step, parse_badge, fmap. rewrite Hty, Hval. simpl. rewrite Hk.
    destruct (convert_rating_converted (strip t)) as [->|[-> [e ->]]]; simpl.
    + apply dict_get_set_eq.
    + exact Hd.
  - intros Hrun Hlen. unfold converted. rewrite Hrun.
    rewrite py_int_decimal; [reflexivity| |  |exact Hlen].
    + destruct (strip t); [discriminate|discriminate].
    + destruct (strip t); [discriminate|exact Hrun].
Qed.

Lemma badge_text_converted_witness :
  exists player ratings,
    parse_card card_plain = Ok player /\
    dict_get "ratings" player = Some (PDict ratings) /\
    dict_get "regular" ratings = Some (PInt 1834) /\
    dict_get "online_blitz" ratings = Some PNone.
Proof.
  eexists. 
  destruct (badge_text_converted card_plain _ []
              [badge_of (lit "OB") (lit "Unr.")] (badge_of (lit "R") (lit "1834"))
              (lit "R") (lit "1834") "regular" eq_refl eq_refl eq_refl eq_refl eq_refl)
    as (ratings & primary & Hr & _ & _ & _ & Hk & _).
  - repeat constructor. discriminate.
  - exists ratings. split; [reflexivity|]. split; [exact Hr|].
    split; [exact Hk|]. injection Hr as <-. reflexivity.
Defined.

(** C5 (as stated) fails: a regular rating of 0 is passed over for the
    quick rating. *)
Lemma primary_rating_skips_zero : ~ primary_is_first_non_null card_zero_regular.
Proof.
  intros H.
  specialize (H _ _ (PInt 0) (PInt 1200) PNone eq_refl eq_refl eq_refl eq_refl eq_refl).
  discriminate H.
Qed.

(** C5 (amended).  The primary rating of a search-result record is the
    first value among the regular, quick and blitz ratings, in this order,
    that is neither null nor 0; when there is none it is the blitz value. *)
Theorem primary_rating_first_nonzero (c : card) (player : dict) :
  parse_card c = Ok player ->
  exists ratings r q b,
    dict_get "ratings" player = Some (PDict ratings) /\
    dict_get "regular" ratings = Some r /\
    dict_get "quick" ratings = Some q /\
    dict_get "blitz" ratings = Some b /\
    dict_get "rating" player
    = Some (if null_or_zero r then if null_or_zero q then b else q else r).
Proof.
  intros H. apply parse_card_inv in H
    as (name & id & st & ex & ratings & r & q & b & Hk & Hok & Hr & Hq & Hb & ->).
  exists ratings, r, q, b. repeat split; auto.
  simpl. unfold py_or.
  pose proof (rating_value_truthy _ (ratings_ok_get _ _ _ Hok Hr)) as Tr.
  pose proof (rating_value_truthy _ (ratings_ok_get _ _ _ Hok Hq)) as Tq.
  destruct (null_or_zero r); simpl in Tr; rewrite Tr; [|now rewrite Tr].
  destruct (null_or_zero q); simpl in Tq; now rewrite Tq.
Qed.

Lemma primary_rating_first_nonzero_witness :
  exists player,
    parse_card card_zero_regular = Ok player /\
    exists ratings r q b,
      dict_get "ratings" player = Some (PDict ratings) /\
      dict_get "regular" ratings = Some r /\
      dict_get "quick" ratings = Some q /\
      dict_get "blitz" ratings = Some b /\
      dict_get "rating" player
      = Some (if null_or_zero r then if null_or_zero q then b else q else r).
Proof.
  eexists. split; [reflexivity|].
  apply (primary_rating_first_nonzero card_zero_regular). reflexivity.
Defined.

End Cards.

(** ** The card search (search_players.py) *)

Section Search.

Import search_players Invariants Examples Contract.

Lemma card_loop_acc (cards : list card) (acc : list dict) :
  fold_left card_step cards acc = acc ++ fold_left card_step cards [].
Proof.
  revert acc. induction cards as [|c cards IH]; intros acc; simpl.
  - now rewrite app_nil_r.
  - rewrite (IH (card_step acc c)), (IH (card_step [] c)).
    unfold card_step. destruct (parse_card c); simpl.
    + now rewrite <- app_assoc.
    + reflexivity.
Qed.

(** The loop collects exactly the cards that parse. *)
Lemma card_loop_parsed (cards : list card) :
  successfully_parsed cards (fold_left card_step cards []).
Proof.
  induction cards as [|c cards IH]; simpl; [constructor|].
  rewrite card_loop_acc.
  destruct (parse_card c) as [player|e] eqn:E; unfold card_step at 1; rewrite E.
  - now apply parsed_card.
  - now apply parsed_skip with e.
Qed.

Lemma successfully_parsed_length (cards : list card) (players : list dict) :
  successfully_parsed cards players -> List.length players <= List.length cards.
Proof. induction 1; simpl; lia. Qed.

Lemma successfully_parsed_keys (cards : list card) (players : list dict) :
  successfully_parsed cards players ->
  Forall (fun player => forall k, In k required_keys -> has_key k player) players.
Proof.
  induction 1 as [|c player cards players Hc _ IH|]; [constructor| |assumption].
  constructor; [|exact IH].
  apply parse_card_inv in Hc
    as (name & id & st & ex & ratings & r & q & b & _ & _ & _ & _ & _ & ->).
  intros k Hk. unfold has_key. simpl in Hk.
  repeat (destruct Hk as [<-|Hk]; [now eexists|]). contradiction.
Qed.

Lemma slice_to_length {A : Type} (n : Z) (l : list A) :
  (0 <= n)%Z -> (Z.of_nat (List.length (slice_to n l)) <= n)%Z.
Proof.
  intros Hn. unfold slice_to.
  destruct (0 <=? n)%Z eqn:E; [|apply Z.leb_gt in E; lia].
  rewrite length_firstn. lia.
Qed.

(** How a search ends: with the records of the loop when the driver, the
    page and the card query all answered, with the empty list otherwise. *)
Lemma search_outcome (env : search_env) (search_term : text) (max_results : Z) :
  outcome (get_uscf_player_data env search_term max_results)
  = Ok match outcome (setup_chrome_driver (drivers env)),
             get_page env (search_url search_term),
             find_cards env with
       | Ok _, Ok _, Ok cards => fold_left card_step (slice_to max_results cards) []
       | _, _, _ => []
       end.
Proof.
  unfold get_uscf_player_data, search_url.
  destruct (setup_chrome_driver (drivers env)) as [t [driver|e]]; simpl;
    [|reflexivity].
  destruct (get_page env _); simpl;
    [destruct (find_cards env); simpl|];
    destruct (quit_driver env); reflexivity.
Qed.

(** C7 (as stated) fails: with [max_results = -1] the slice drops only the
    last card, and one record is returned. *)
Lemma negative_max_results_exceeded :
  ~ at_most_max_results search_ok (lit "Smith") (-1).
Proof.
  intros H. specialize (H _ eq_refl). simpl in H. lia.
Qed.

(** C7 (amended).  For every search term and every non-negative
    [max_results], a fuzzy search returns a list of at most [max_results]
    player dictionaries, and each of them has the keys name, memberId,
    state, ratings, rating and expiration_date. *)
Theorem search_at_most_max_results
  (env : search_env) (search_term : text) (max_results : Z) :
  (0 <= max_results)%Z ->
  exists players,
    outcome (get_uscf_player_data env search_term max_results) = Ok players /\
    (Z.of_nat (List.length players) <= max_results)%Z /\
    Forall (fun player => forall k, In k required_keys -> has_key k player) players.
Proof.
  intros Hn. rewrite search_outcome. eexists. split; [reflexivity|].
  destruct (outcome (setup_chrome_driver (drivers env)));
    [|split; [simpl; lia|constructor]].
  destruct (get_page env _); [|split; [simpl; lia|constructor]].
  destruct (find_cards env) as [cards|]; [|split; [simpl; lia|constructor]].
  pose proof (card_loop_parsed (slice_to max_results cards)) as Hp.
  split.
  - apply successfully_parsed_length in Hp.
    pose proof (slice_to_length max_results cards Hn). lia.
  - now apply successfully_parsed_keys in Hp.
Qed.

Lemma search_at_most_max_results_witness :
  (0 <= 10)%Z /\
  exists players,
    outcome (get_uscf_player_data search_ok (lit "Smith") 10) = Ok players /\
    (Z.of_nat (List.length players) <= 10)%Z /\
    Forall (fun player => forall k, In k required_keys -> has_key k player) players.
Proof.
  split; [lia|].
  apply (search_at_most_max_results search_ok (lit "Smith") 10). lia.
Defined.

(** C10.  The fuzzy search never raises to its caller.  When driver
    acquisition, navigation or the card query fails it returns the empty
    list; otherwise it returns exactly the records of the cards, among the
    first [max_results], that parse -- a card that raises is skipped and the
    others are kept. *)
Theorem search_never_raises
  (env : search_env) (search_term : text) (max_results : Z) :
  exists players,
    outcome (get_uscf_player_data env search_term max_results) = Ok players /\
    match outcome (setup_chrome_driver (drivers env)),
          get_page env (search_url search_term),
          find_cards env with
    | Ok _, Ok _, Ok cards =>
        successfully_parsed (slice_to max_results cards) players
    | _, _, _ => players = []
    end.
Proof.
  rewrite search_outcome. eexists. split; [reflexivity|].
  destruct (outcome (setup_chrome_driver (drivers env))); [|reflexivity].
  destruct (get_page env _); [|reflexivity].
  destruct (find_cards env) as [cards|]; [|reflexivity].
  apply card_loop_parsed.
Qed.

End Search.

(** ** Profile lookup (test.py) *)

Section Profile.

Import test ProfileExamples.

(** C8.  A profile lookup that returns a dictionary returns one with
    exactly the keys rating, expiration_date and player_id, whose
    player_id is the queried member id; and when the wait for the rating
    node timed out, its rating is the text "Not found". *)
Theorem profile_lookup_result (env : profile_env) (player_id : text) (d : dict) :
  outcome (get_uschess_info env player_id) = Ok (PDict d) ->
  keys d = [ "rating"; "expiration_date"; "player_id" ]%string /\
  dict_get "player_id" d = Some (PStr player_id) /\
  (rating_div env = Raise TimeoutException ->
   dict_get "rating" d = Some (PStr (lit "Not found"))).
Proof.
  unfold get_uschess_info, start_driver, scrape, launch_chrome.
  destruct (wdm_install env) as [p|e0]; simpl;
    [|destruct (is_wait_failure e0); simpl; discriminate].
  destruct (chrome env (Some p)) as [[]|e1]; simpl;
    [|destruct (is_wait_failure e1); simpl; discriminate].
  destruct (get_page env (url_beta player_id)) as [[]|e2];
    destruct (rating_div env) as [t|e3];
    destruct (get_page env (url_msa player_id)) as [[]|e4];
    destruct (expiration_td env) as [date|e5];
    destruct (quit_driver env) as [[]|e6]; simpl;
    repeat match goal with
           | |- context [is_wait_failure ?e] => destruct (is_wait_failure e); simpl
           end;
    try discriminate;
    intros [= <-]; repeat split; try reflexivity; discriminate.
Qed.

Lemma profile_lookup_result_witness :
  exists d,
    outcome (get_uschess_info profile_no_rating (lit "14970943")) = Ok (PDict d) /\
    keys d = [ "rating"; "expiration_date"; "player_id" ]%string /\
    dict_get "player_id" d = Some (PStr (lit "14970943")) /\
    dict_get "rating" d = Some (PStr (lit "Not found")).
Proof.
  eexists. split; [reflexivity|].
  destruct (profile_lookup_result profile_no_rating (lit "14970943") _ eq_refl)
    as (Hk & Hid & Hr).
  split; [exact Hk|]. split; [exact Hid|]. apply Hr. reflexivity.
Defined.

End Profile.

(** ** The browser handle as a scoped resource *)

Section Handles.

Import ProfileExamples.

Lemma handles_created_app (t1 t2 : list event) :
  handles_created (t1 ++ t2) = handles_created t1 + handles_created t2.
Proof. unfold handles_created. now rewrite filter_app, length_app. Qed.

Lemma handles_created_cons (e : event) (t : list event) :
  handles_created (e :: t) = (if is_started e then 1 else 0) + handles_created t.
Proof. unfold handles_created. simpl. now destruct (is_started e). Qed.

Lemma open_after_app (n : nat) (t1 t2 : list event) :
  open_after n (t1 ++ t2) = open_after (open_after n t1) t2.
Proof.
  revert n. induction t1 as [|e t1 IH]; intros n; simpl; [reflexivity|].
  destruct e; apply IH.
Qed.

Lemma quiet_created (t : list event) : quiet t -> handles_created t = 0.
Proof.
  unfold handles_created. induction 1 as [|e t [He _] _ IH]; simpl; [reflexivity|].
  now rewrite He.
Qed.

Lemma quiet_open (n : nat) (t : list event) : quiet t -> open_after n t = n.
Proof.
  induction 1 as [|e t [Hs Hq] _ IH]; simpl; [reflexivity|].
  destruct e; try discriminate; exact IH.
Qed.

Lemma no_quit_open (n : nat) (t : list event) :
  no_quit t -> open_after n t = n + handles_created t.
Proof.
  intros H. revert n. induction H as [|e t Hq _ IH]; intros n.
  - simpl. unfold handles_created. simpl. lia.
  - rewrite handles_created_cons.
    destruct e; try discriminate; simpl; rewrite IH; lia.
Qed.

Lemma no_quit_app (t1 t2 : list event) : no_quit t1 -> no_quit t2 -> no_quit (t1 ++ t2).
Proof. intros H1 H2. apply Forall_app. now split. Qed.

(** *** Driver acquisition creates a handle exactly when it succeeds *)

Lemma attempt_handles (env : search_players.driver_env) (s : search_players.strategy) :
  no_quit (trace (search_players.attempt env s)) /\
  handles_created (trace (search_players.attempt env s))
  = if is_ok (outcome (search_players.attempt env s)) then 1 else 0.
Proof.
  destruct s as [|p|]; simpl; unfold search_players.launch, launch_chrome.
  - destruct (search_players.wdm_install env) as [p|]; simpl;
      [destruct (search_players.chrome env (Some p))|]; simpl;
      split; try reflexivity; repeat constructor.
  - destruct (search_players.chrome env (Some p)); simpl;
      split; try reflexivity; repeat constructor.
  - destruct (search_players.chrome env None); simpl;
      split; try reflexivity; repeat constructor.
Qed.

Lemma first_success_handles (env : search_players.driver_env)
  (l : list search_players.strategy) :
  no_quit (trace (search_players.first_success env l)) /\
  handles_created (trace (search_players.first_success env l))
  = if is_ok (outcome (search_players.first_success env l)) then 1 else 0.
Proof.
  unfold search_players.first_success.
  induction l as [|s l [IHq IHc]]; simpl.
  - split; [constructor|reflexivity].
  - destruct (attempt_handles env s) as [Hq Hc].
    destruct (search_players.attempt env s) as [t [d|e]]; simpl in *.
    + now split.
    + destruct (search_players.try_each env l (raise WebDriverException))
        as [t' r']; simpl in *.
      split; [now apply no_quit_app|].
      rewrite handles_created_app. lia.
Qed.

(** *** The table parser only prints *)

Lemma fallback_stage_quiet (html : text) : quiet (pop.fallback_stage html).
Proof.
  unfold pop.fallback_stage.
  destruct (Regex.search pop.tbody_pattern html) as [[groups rest]|];
    [|constructor].
  constructor; [now split|].
  apply Forall_flat_map, Forall_forall. intros [i row] _.
  unfold pop.row_lines. constructor; [now split|].
  apply Forall_map, Forall_forall. now intros [j c] _.
Qed.

Lemma parse_table_quiet (parsed : result (list pop.frame)) (html : text) :
  quiet (trace (pop.parse_table parsed html)).
Proof.
  unfold pop.parse_table.
  destruct parsed as [[|df frames]|e]; simpl; try constructor.
  destruct (pop.all_null df); simpl.
  - rewrite app_nil_r. apply fallback_stage_quiet.
  - destruct (pop.clean_name_column df) as [cleaned|]; simpl; [|constructor].
    destruct (pop.rename_columns cleaned); simpl; constructor.
Qed.

(** *** Traces of the combinators *)

Lemma trace_bind {A B : Type} (m : io A) (k : A -> io B) :
  trace (io_bind m k)
  = trace m ++ match outcome m with
               | Ok a => trace (k a)
               | Raise _ => []
               end.
Proof.
  destruct m as [t [a|e]]; simpl.
  - now destruct (k a).
  - now rewrite app_nil_r.
Qed.

Lemma trace_try_except {A : Type} (m : io A) (h : exn -> io A) :
  trace (try_except m h)
  = trace m ++ match outcome m with
               | Ok _ => []
               | Raise e => trace (h e)
               end.
Proof.
  destruct m as [t [a|e]]; simpl.
  - now rewrite app_nil_r.
  - now destruct (h e).
Qed.

Lemma trace_try_finally {A : Type} (m : io A) (f : io unit) :
  trace (try_finally m f) = trace m ++ trace f.
Proof. destruct m as [t r], f as [t' [u|e]]; reflexivity. Qed.

Lemma quiet_app (t1 t2 : list event) : quiet t1 -> quiet t2 -> quiet (t1 ++ t2).
Proof. intros H1 H2. apply Forall_app. now split. Qed.

Lemma quiet_bind {A B : Type} (m : io A) (k : A -> io B) :
  quiet (trace m) -> (forall a, quiet (trace (k a))) -> quiet (trace (io_bind m k)).
Proof.
  intros Hm Hk. rewrite trace_bind. apply quiet_app; [exact Hm|].
  destruct (outcome m); [apply Hk|constructor].
Qed.

Lemma quiet_try_except {A : Type} (m : io A) (h : exn -> io A) :
  quiet (trace m) -> (forall e, quiet (trace (h e))) -> quiet (trace (try_except m h)).
Proof.
  intros Hm Hh. rewrite trace_try_except. apply quiet_app; [exact Hm|].
  destruct (outcome m); [constructor|apply Hh].
Qed.

(** Between the creation of the driver and [driver.quit()], the form search
    neither creates nor releases a handle. *)
Lemma form_body_quiet (env : pop.form_env) :
  quiet (trace
    (try_except
       (_ <~ call [Get pop.URL] (pop.get_page env pop.URL) ;;
        _ <~ call [] (pop.name_input env) ;;
        _ <~ call [] (pop.search_button env) ;;
        _ <~ call [] (pop.first_row env) ;;
        _ <~ try_except (call [] (pop.data_cell env)) (fun _ => ret tt) ;;
        html_table <~ call [] (pop.table_html env) ;;
        pop.parse_table (pop.read_html env html_table) html_table)
       (fun e => if is_wait_failure e then ret (pop.WaitError e)
                 else ret (pop.UnexpectedError e)))).
Proof.
  apply quiet_try_except.
  - repeat (apply quiet_bind; [try (repeat constructor)|intros ?]).
    + apply quiet_try_except; [constructor|intros; constructor].
    + apply parse_table_quiet.
  - intros e. destruct (is_wait_failure e); constructor.
Qed.

(** C4 (as stated) fails: when the driver cannot be installed, no browser
    handle is created at all. *)
Lemma no_handle_without_driver :
  ~ exactly_one_handle (trace (test.get_uschess_info profile_no_driver (lit "14970943"))).
Proof. intros [H _]. discriminate H. Qed.

(** C4 (amended).  Each top-level scrape -- the profile lookup, the form
    search and the card search -- creates one browser handle when the
    driver starts and none when it does not, so never more than one; and
    whatever happens afterwards, exceptions included, no handle is open
    when the call ends. *)
Theorem browser_handle_released :
  (forall (env : test.profile_env) (player_id : text),
     let t := trace (test.get_uschess_info env player_id) in
     handles_created t = (if is_ok (outcome (test.start_driver env)) then 1 else 0) /\
     handles_open t = 0) /\
  (forall (env : pop.form_env) (search_term : text),
     let t := trace (pop.get_uscf_player_data env search_term) in
     handles_created t = (if is_ok (outcome (pop.start_driver env)) then 1 else 0) /\
     handles_open t = 0) /\
  (forall (env : search_players.search_env) (search_term : text) (max_results : Z),
     let t := trace (search_players.get_uscf_player_data env search_term max_results) in
     handles_created t
     = (if is_ok (outcome (search_players.setup_chrome_driver (search_players.drivers env)))
        then 1 else 0) /\
     handles_open t = 0).
Proof.
  split; [|split].
  - intros env player_id.
    unfold test.get_uschess_info, test.start_driver, test.scrape, launch_chrome.
    destruct (test.wdm_install env) as [p|e0]; simpl;
      [|destruct (is_wait_failure e0); now split].
    destruct (test.chrome env (Some p)) as [[]|e1]; simpl;
      [|destruct (is_wait_failure e1); now split].
    destruct (test.get_page env (test.url_beta player_id)) as [[]|e2];
      destruct (test.rating_div env) as [t|e3];
      destruct (test.get_page env (test.url_msa player_id)) as [[]|e4];
      destruct (test.expiration_td env) as [date|e5];
      destruct (test.quit_driver env) as [[]|e6]; simpl;
      repeat match goal with
             | |- context [is_wait_failure ?e] => destruct (is_wait_failure e); simpl
             end;
      now split.
  - intros env search_term.
    unfold pop.get_uscf_player_data.
    pose proof (form_body_quiet env) as Hq.
    rewrite trace_bind.
    unfold pop.start_driver, launch_chrome.
    destruct (pop.wdm_install env) as [p|e0]; simpl; [|now split].
    destruct (pop.chrome env (Some p)) as [[]|e1]; simpl; [|now split].
    rewrite trace_try_finally. simpl.
    set (body := trace (try_except _ _)) in *. clearbody body.
    unfold handles_open.
    change (Install :: Launch (Some p) :: Started :: body ++ [Quit])
      with ([Install; Launch (Some p); Started] ++ body ++ [Quit]).
    rewrite !handles_created_app, !open_after_app, (quiet_created body Hq).
    simpl. rewrite (quiet_open 1 body Hq). now split.
  - intros env search_term max_results.
    unfold search_players.get_uscf_player_data.
    pose proof (first_success_handles (search_players.drivers env)
                  (search_players.plan (search_players.drivers env))) as [Hq Hc].
    rewrite <- setup_chrome_driver_first_success in Hq, Hc.
    destruct (search_players.setup_chrome_driver (search_players.drivers env))
      as [ts [driver|e]]; simpl in *.
    + destruct (search_players.get_page env _) as [[]|e2];
        destruct (search_players.find_cards env) as [cards|e3];
        destruct (search_players.quit_driver env) as [[]|e4]; simpl;
        unfold handles_open;
        rewrite ?app_nil_r, ?handles_created_app, ?open_after_app,
          (no_quit_open 0 ts Hq), Hc; simpl; split; (reflexivity || lia).
    + rewrite app_nil_r. unfold handles_open. rewrite (no_quit_open 0 ts Hq), Hc.
      now split.
Qed.

End Handles.

(** ** Record sink (test.py) *)

Section Sink.

Import test SinkContract batch.

(** *** Column names *)

Lemma same_name_true (a b : string) :
  same_name a b = true <-> lower_name a = lower_name b.
Proof. apply String.eqb_eq. Qed.

Lemma same_name_false (a b : string) :
  same_name a b = false <-> lower_name a <> lower_name b.
Proof. apply String.eqb_neq. Qed.

Ltac names :=
  repeat match goal with
         | H : same_name _ _ = true |- _ => apply same_name_true in H
         | H : same_name _ _ = false |- _ => apply same_name_false in H
         | |- same_name _ _ = true => apply same_name_true
         | |- same_name _ _ = false => apply same_name_false
         end;
  congruence.

Lemma same_name_refl (c : string) : same_name c c = true.
Proof. names. Qed.

Lemma row_get_same_name (c c' : string) (r : row) :
  same_name c c' = true -> row_get c r = row_get c' r.
Proof.
  intros H. induction r as [|[c0 v0] r IH]; simpl; [reflexivity|].
  rewrite IH.
  destruct (same_name c c0) eqn:E, (same_name c' c0) eqn:E'; try reflexivity;
    exfalso; names.
Qed.

Lemma row_get_set_eq (c : string) (v : sqlval) (r : row) :
  row_get c (row_set c v r) = v.
Proof.
  induction r as [|[c' v'] r IH]; simpl.
  - now rewrite same_name_refl.
  - destruct (same_name c c') eqn:E; simpl; now rewrite E.
Qed.

Lemma row_get_set_ne (c c' : string) (v : sqlval) (r : row) :
  same_name c' c = false -> row_get c' (row_set c v r) = row_get c' r.
Proof.
  intros Hne. induction r as [|[c0 v0] r IH]; simpl.
  - now rewrite Hne.
  - destruct (same_name c c0) eqn:E; simpl.
    + destruct (same_name c' c0) eqn:E'; [exfalso; names|reflexivity].
    + now rewrite IH.
Qed.

Lemma id_is_set (player_id : Z) (c : string) (v : sqlval) (r : row) :
  same_name "id" c = false -> id_is player_id (row_set c v r) = id_is player_id r.
Proof. intros Hne. unfold id_is. now rewrite row_get_set_ne. Qed.

Lemma id_matches_set (a : affinity) (player_id : Z) (c : string) (v : sqlval) (r : row) :
  same_name "id" c = false ->
  id_matches a player_id (row_set c v r) = id_matches a player_id r.
Proof.
  intros Hne. unfold id_matches. rewrite id_is_set by exact Hne.
  now rewrite row_get_set_ne.
Qed.

(** *** The schema *)

Lemma has_column_columns (c : string) (t t' : table) :
  columns t' = columns t -> has_column c t' = has_column c t.
Proof. unfold has_column. now intros ->. Qed.

Lemma affinity_of_columns (c : string) (t t' : table) :
  columns t' = columns t -> affinity_of c t' = affinity_of c t.
Proof. unfold affinity_of. now intros ->. Qed.

Lemma has_column_added (c c' : string) (a : affinity) (t t' : table) :
  columns t' = columns t ++ [(c', a)] ->
  has_column c t' = has_column c t || same_name c c'.
Proof.
  unfold has_column. intros ->. rewrite existsb_app. simpl. now rewrite orb_false_r.
Qed.

Lemma affinity_of_added (c : string) (extra : list (string * affinity)) (t t' : table) :
  columns t' = columns t ++ extra ->
  has_column c t = true ->
  affinity_of c t' = affinity_of c t.
Proof.
  unfold has_column, affinity_of. intros ->.
  induction (columns t) as [|d l IH]; simpl; [discriminate|].
  destruct (same_name c (fst d)); [reflexivity|]. exact IH.
Qed.

Lemma affinity_of_new (c : string) (a : affinity) (t t' : table) :
  columns t' = columns t ++ [(c, a)] ->
  has_column c t = false ->
  affinity_of c t' = a.
Proof.
  unfold has_column, affinity_of. intros ->.
  induction (columns t) as [|d l IH]; simpl.
  - now rewrite same_name_refl.
  - destruct (same_name c (fst d)); [discriminate|]. exact IH.
Qed.

Lemma apply_affinity_text (a : affinity) (s : text) :
  apply_affinity a (TextVal s) = TextVal s.
Proof. now destruct a. Qed.

Lemma apply_affinity_twice (a : affinity) (v : sqlval) :
  apply_affinity a (apply_affinity a v) = apply_affinity a v.
Proof. now destruct a, v. Qed.

(** *** The conversions *)

(** [int] raises nothing but [ValueError]. *)
Lemma py_int_cases (s : text) :
  (exists n, py_int s = Ok n) \/ py_int s = Raise ValueError.
Proof.
  unfold py_int.
  destruct (match int_strip s with [] => None | _ => _ end); [|now right].
  destruct (Nat.leb _ _); [left; now eexists|now right].
Qed.

(** The guard [rating and rating != "Not found"] rejects no text that
    denotes an integer. *)
Lemma guard_rejects_no_integer (s : text) :
  truthy (PStr s) && negb (is_not_found (PStr s)) = false ->
  rating_as_integer (PStr s) = None.
Proof.
  intros H. apply andb_false_iff in H as [H|H].
  - destruct s; [reflexivity|discriminate].
  - apply negb_false_iff in H. simpl in H. apply text_eqb_eq in H. now subst.
Qed.

(** *** The three statements *)

(** The first block on a rating text, for a table with the columns [id]
    and [rating]. *)
Lemma rating_stage_text (player_id : Z) (rating : text) (t : table) :
  has_column "id" t = true ->
  has_column "rating" t = true ->
  rating_stage player_id (PStr rating) t
  = match rating_as_integer (PStr rating) with
    | Some n =>
        if in_int64 n && in_int64 player_id then
          Ok ({| columns := columns t;
                 rows := map (fun r =>
                                if id_matches (affinity_of "id" t) player_id r
                                then row_set "rating"
                                       (apply_affinity (affinity_of "rating" t) (Integer n)) r
                                else r)
                             (rows t) |}, true)
        else Raise OverflowError
    | None => Ok (t, false)
    end.
Proof.
  intros Hid Hrating. unfold rating_stage.
  destruct (truthy (PStr rating) && negb (is_not_found (PStr rating))) eqn:G.
  - cbn [remove_commas bind]. change (lit ",") with [","%char].
    rewrite replace_char_filter. unfold rating_as_integer.
    destruct (py_int_cases (filter (fun x => negb (Ascii.eqb x ","%char)) rating))
      as [[n Hn]|Hn]; rewrite Hn; cbn [bind catch]; [|reflexivity].
    unfold update_where_id. rewrite Hid, Hrating. cbn [andb to_sql].
    destruct (in_int64 n); cbn [bind catch andb]; [|reflexivity].
    destruct (in_int64 player_id); reflexivity.
  - now rewrite (guard_rejects_no_integer _ G).
Qed.

Lemma rows_effect (t : table) (player_id : Z) (rating : pyval) (date : sqlval)
  (a : affinity) (l : list row) :
  a = (if has_column "expiration_date" t then affinity_of "expiration_date" t else TEXT) ->
  map (fun r => if id_matches (affinity_of "id" t) player_id r
                then row_set "expiration_date" (apply_affinity a date) r else r)
      (map (fun r => if id_matches (affinity_of "id" t) player_id r
                     then match rating_as_integer rating with
                          | Some n => row_set "rating"
                                        (apply_affinity (affinity_of "rating" t) (Integer n)) r
                          | None => r
                          end
                     else r) l)
  = map (row_effect t player_id rating date) l.
Proof.
  intros ->. rewrite map_map. apply map_ext. intros r. unfold row_effect, stored_date.
  destruct (id_matches (affinity_of "id" t) player_id r) eqn:I; [|now rewrite I].
  destruct (rating_as_integer rating); [|now rewrite I].
  rewrite id_matches_set by reflexivity. now rewrite I.
Qed.

(** On a table with the columns [id] and [rating], with parameters that
    can be bound, the sink completes and has the effect of the contract. *)
Lemma sink_effect_spec
  (player_id : Z) (rating : text) (expiration_date : pyval) (date : sqlval) (t : table) :
  has_column "id" t = true ->
  has_column "rating" t = true ->
  in_int64 player_id = true ->
  rating_fits (PStr rating) = true ->
  to_sql expiration_date = Ok date ->
  update_player_rating_and_expiration player_id (PStr rating) expiration_date t
  = (Ok tt, sink_effect player_id (PStr rating) date t).
Proof.
  intros Hid Hrating Hpid Hfits Hdate. unfold update_player_rating_and_expiration.
  rewrite (rating_stage_text player_id rating t Hid Hrating).
  unfold rating_fits in Hfits.
  assert (Hto : to_sql (PInt player_id) = Ok (Integer player_id))
    by (cbn [to_sql]; now rewrite Hpid).
  assert (Hstep : forall l,
    (match provision {| columns := columns t; rows := l |} with
     | Raise e => (Raise e, t)
     | Ok t2 =>
         match update_where_id "expiration_date" expiration_date player_id t2 with
         | Ok t3 => (Ok tt, t3)
         | Raise e => (Raise e, t2)
         end
     end)
    = (Ok tt,
       {| columns := if has_column "expiration_date" t then columns t
                     else columns t ++ [("expiration_date"%string, TEXT)];
          rows := map (fun r => if id_matches (affinity_of "id" t) player_id r
                                then row_set "expiration_date"
                                       (apply_affinity
                                          (if has_column "expiration_date" t
                                           then affinity_of "expiration_date" t else TEXT)
                                          date) r
                                else r) l |})).
  { intros l. set (t1 := {| columns := columns t; rows := l |}).
    assert (Hcol1 : columns t1 = columns t) by reflexivity.
    unfold provision, add_column.
    rewrite (has_column_columns "expiration_date" t t1 Hcol1).
    destruct (has_column "expiration_date" t) eqn:E; cbn [catch];
      unfold update_where_id.
    - rewrite (has_column_columns "expiration_date" t t1 Hcol1), E.
      rewrite (has_column_columns "id" t t1 Hcol1), Hid.
      rewrite (affinity_of_columns "id" t t1 Hcol1).
      rewrite (affinity_of_columns "expiration_date" t t1 Hcol1).
      cbn [andb]. rewrite Hdate, Hto. reflexivity.
    - set (t2 := {| columns := columns t1 ++ [("expiration_date"%string, TEXT)];
                    rows := rows t1 |}).
      assert (Hcol2 : columns t2 = columns t ++ [("expiration_date"%string, TEXT)])
        by reflexivity.
      rewrite (has_column_added "expiration_date" "expiration_date" TEXT t t2 Hcol2).
      rewrite (has_column_added "id" "expiration_date" TEXT t t2 Hcol2), Hid.
      rewrite same_name_refl, orb_true_r. cbn [andb orb].
      rewrite Hdate, Hto. cbn [bind].
      rewrite (affinity_of_added "id" [("expiration_date"%string, TEXT)] t t2 Hcol2 Hid).
      rewrite (affinity_of_new "expiration_date" TEXT t t2 Hcol2 E).
      reflexivity. }
  destruct (rating_as_integer (PStr rating)) as [n|] eqn:Hn.
  - rewrite Hfits, Hpid. cbn [andb].
    match goal with
    | |- match provision ?t1 with _ => _ end = _ =>
        assert (Hp : exists t2, provision t1 = Ok t2)
    end.
    { unfold provision, add_column.
      destruct (has_column "expiration_date" _); now eexists. }
    destruct Hp as [t2 Hp].
    pose proof (Hstep (map (fun r => if id_matches (affinity_of "id" t) player_id r
                                     then row_set "rating"
                                            (apply_affinity (affinity_of "rating" t) (Integer n)) r
                                     else r) (rows t))) as Hs.
    rewrite Hp in *.
    destruct (update_where_id "expiration_date" expiration_date player_id t2);
      [|discriminate Hs].
    injection Hs as ->. unfold sink_effect. f_equal. f_equal.
    rewrite <- (rows_effect t player_id (PStr rating) date _ (rows t) eq_refl).
    now rewrite Hn.
  - pose proof (Hstep (rows t)) as Hs.
    replace {| columns := columns t; rows := rows t |} with t in Hs by now destruct t.
    destruct (provision t) as [t2|]; [|discriminate Hs].
    destruct (update_where_id "expiration_date" expiration_date player_id t2);
      [|discriminate Hs].
    injection Hs as ->. unfold sink_effect. f_equal. f_equal.
    rewrite <- (rows_effect t player_id (PStr rating) date _ (rows t) eq_refl).
    rewrite Hn. f_equal. rewrite <- (map_id (rows t)) at 1. apply map_ext.
    intros r. now destruct (id_matches (affinity_of "id" t) player_id r).
Qed.

(** A rating that denotes an integer beyond 64 bits: the first [UPDATE]
    raises, and the store stays as it was. *)
Lemma sink_rating_overflow
  (player_id : Z) (rating : text) (expiration_date : pyval) (t : table) :
  has_column "id" t = true ->
  has_column "rating" t = true ->
  rating_fits (PStr rating) = false ->
  update_player_rating_and_expiration player_id (PStr rating) expiration_date t
  = (Raise OverflowError, t).
Proof.
  intros Hid Hrating Hfits. unfold update_player_rating_and_expiration.
  rewrite (rating_stage_text player_id rating t Hid Hrating).
  unfold rating_fits in Hfits.
  destruct (rating_as_integer (PStr rating)); [|discriminate].
  now rewrite Hfits.
Qed.

Lemma stored_date_text (t : table) (s : text) : stored_date t (TextVal s) = TextVal s.
Proof. unfold stored_date. apply apply_affinity_text. Qed.

Lemma sink_effect_has_expiration (player_id : Z) (rating : pyval) (date : sqlval) (t : table) :
  has_column "expiration_date" (sink_effect player_id rating date t) = true.
Proof.
  destruct (has_column "expiration_date" t) eqn:E.
  - rewrite (has_column_columns "expiration_date" t); [exact E|].
    unfold sink_effect. cbn [columns]. now rewrite E.
  - rewrite (has_column_added "expiration_date" "expiration_date" TEXT t).
    + now rewrite same_name_refl, orb_true_r.
    + unfold sink_effect. cbn [columns]. now rewrite E.
Qed.

Lemma sink_effect_keeps_column (c : string) (player_id : Z) (rating : pyval)
  (date : sqlval) (t : table) :
  has_column c t = true -> has_column c (sink_effect player_id rating date t) = true.
Proof.
  intros H. destruct (has_column "expiration_date" t) eqn:E.
  - rewrite (has_column_columns c t); [exact H|].
    unfold sink_effect. cbn [columns]. now rewrite E.
  - rewrite (has_column_added c "expiration_date" TEXT t).
    + now rewrite H.
    + unfold sink_effect. cbn [columns]. now rewrite E.
Qed.

Lemma sink_effect_keeps_affinity (c : string) (player_id : Z) (rating : pyval)
  (date : sqlval) (t : table) :
  has_column c t = true ->
  affinity_of c (sink_effect player_id rating date t) = affinity_of c t.
Proof.
  intros H. destruct (has_column "expiration_date" t) eqn:E.
  - apply affinity_of_columns. unfold sink_effect. cbn [columns]. now rewrite E.
  - apply (affinity_of_added c [("expiration_date"%string, TEXT)]); [|exact H].
    unfold sink_effect. cbn [columns]. now rewrite E.
Qed.

Lemma row_effect_spec (t : table) (player_id : Z) (rating : pyval) (date : sqlval) (r : row) :
  if id_matches (affinity_of "id" t) player_id r then
    row_get "expiration_date" (row_effect t player_id rating date r) = stored_date t date /\
    row_get "rating" (row_effect t player_id rating date r)
    = match rating_as_integer rating with
      | Some n => apply_affinity (affinity_of "rating" t) (Integer n)
      | None => row_get "rating" r
      end
  else row_effect t player_id rating date r = r.
Proof.
  unfold row_effect. destruct (id_matches (affinity_of "id" t) player_id r); [|reflexivity].
  split; [apply row_get_set_eq|].
  rewrite row_get_set_ne by reflexivity.
  destruct (rating_as_integer rating); [apply row_get_set_eq|reflexivity].
Qed.

(** *** What the sink never touches *)

Lemma kept_refl (t : table) : kept t t.
Proof. unfold kept. induction (rows t); constructor; auto. Qed.

Lemma kept_rows_trans (l1 l2 l3 : list row) :
  Forall2 (fun r r' => forall c, same_name c "rating" = false ->
                                 same_name c "expiration_date" = false ->
                                 row_get c r' = row_get c r) l1 l2 ->
  Forall2 (fun r r' => forall c, same_name c "rating" = false ->
                                 same_name c "expiration_date" = false ->
                                 row_get c r' = row_get c r) l2 l3 ->
  Forall2 (fun r r' => forall c, same_name c "rating" = false ->
                                 same_name c "expiration_date" = false ->
                                 row_get c r' = row_get c r) l1 l3.
Proof.
  intros H12. revert l3. induction H12 as [|r1 r2 l1 l2 Hr _ IH]; intros l3 H23.
  - inversion H23. constructor.
  - inversion H23 as [|r2' r3 l2' l3' Hr' Hl']; subst. constructor.
    + intros c H1 H2. now rewrite Hr', Hr.
    + now apply IH.
Qed.

Lemma kept_trans (t1 t2 t3 : table) : kept t1 t2 -> kept t2 t3 -> kept t1 t3.
Proof. apply kept_rows_trans. Qed.

Lemma kept_rows (t t' : table) : rows t' = rows t -> kept t t'.
Proof. unfold kept. intros ->. induction (rows t); constructor; auto. Qed.

(** An [UPDATE] of one of the two columns keeps the schema and every
    other column. *)
Lemma update_where_id_kept (c : string) (v : pyval) (player_id : Z) (t t' : table) :
  same_name c "rating" = true \/ same_name c "expiration_date" = true ->
  update_where_id c v player_id t = Ok t' ->
  kept t t' /\ columns t' = columns t /\ has_column c t = true.
Proof.
  intros Hc. unfold update_where_id.
  destruct (has_column c t) eqn:E; [|discriminate].
  destruct (has_column "id" t); [|discriminate]. cbn [andb].
  destruct (to_sql v) as [value|]; [|discriminate]. cbn [bind].
  destruct (to_sql (PInt player_id)); [|discriminate]. cbn [bind].
  intros [= <-]. split; [|split; reflexivity].
  unfold kept. cbn [rows].
  induction (rows t) as [|r l IH]; simpl; constructor; [|exact IH].
  intros c0 H1 H2.
  destruct (id_matches _ player_id r); [|reflexivity].
  apply row_get_set_ne. destruct Hc as [Hc|Hc]; names.
Qed.

Lemma rating_stage_kept (player_id : Z) (rating : pyval) (t t1 : table) (b : bool) :
  rating_stage player_id rating t = Ok (t1, b) ->
  kept t t1 /\ columns t1 = columns t /\ (b = false -> t1 = t).
Proof.
  unfold rating_stage.
  destruct (truthy rating && negb (is_not_found rating));
    [|intros [= <- <-]; auto using kept_refl].
  destruct (remove_commas rating) as [stripped|e]; cbn [bind catch];
    [|destruct e; try discriminate; intros [= <- <-]; auto using kept_refl].
  destruct (py_int stripped) as [n|e]; cbn [bind catch];
    [|destruct e; try discriminate; intros [= <- <-]; auto using kept_refl].
  destruct (update_where_id "rating" (PInt n) player_id t) as [t'|e] eqn:E;
    cbn [bind catch];
    [|destruct e; try discriminate; intros [= <- <-]; auto using kept_refl].
  intros [= <- <-].
  destruct (update_where_id_kept "rating" (PInt n) player_id t t' (or_introl eq_refl) E)
    as (H1 & H2 & _).
  split; [exact H1|]. split; [exact H2|discriminate].
Qed.

Lemma provision_spec (t1 : table) :
  exists t2,
    provision t1 = Ok t2 /\ rows t2 = rows t1 /\
    (if has_column "expiration_date" t1 then t2 = t1
     else columns t2 = columns t1 ++ [("expiration_date"%string, TEXT)]).
Proof.
  unfold provision, add_column.
  destruct (has_column "expiration_date" t1); cbn [catch]; eexists; repeat split.
Qed.

(** Whatever it is given and however it ends, the sink leaves the rows in
    place, changes no column other than [rating] and [expiration_date],
    and at most adds the [expiration_date] column to the schema. *)
Lemma sink_kept (player_id : Z) (rating expiration_date : pyval) (t : table) :
  kept t (snd (update_player_rating_and_expiration player_id rating expiration_date t)) /\
  (columns (snd (update_player_rating_and_expiration player_id rating expiration_date t))
   = columns t \/
   columns (snd (update_player_rating_and_expiration player_id rating expiration_date t))
   = columns t ++ [("expiration_date"%string, TEXT)]).
Proof.
  unfold update_player_rating_and_expiration.
  destruct (rating_stage player_id rating t) as [[t1 b]|e] eqn:E1; cbn [snd];
    [|auto using kept_refl].
  destruct (rating_stage_kept _ _ _ _ _ E1) as (K1 & Hcol1 & B1).
  destruct (provision_spec t1) as (t2 & -> & R2 & Hcol2).
  assert (K2 : kept t t2) by (apply (kept_trans t t1 t2 K1), kept_rows, R2).
  assert (Hcol2' : columns t2 = columns t \/
                columns t2 = columns t ++ [("expiration_date"%string, TEXT)]).
  { destruct (has_column "expiration_date" t1); [subst t2; now left|].
    right. now rewrite Hcol2, Hcol1. }
  destruct (update_where_id "expiration_date" expiration_date player_id t2)
    as [t3|e] eqn:E3; cbn [snd].
  - destruct (update_where_id_kept "expiration_date" expiration_date player_id t2 t3
                (or_intror eq_refl) E3) as (K3 & Hcol3 & _).
    split; [exact (kept_trans t t2 t3 K2 K3)|]. now rewrite Hcol3.
  - destruct b; [auto using kept_refl|]. now split.
Qed.

(** *** The contract of the sink *)





(** The rating text "2,104" denotes, and is stored as, the integer 2104. *)
Example rating_2_104_stored :
  rating_as_integer (PStr (lit "2,104")) = Some 2104%Z /\
  exists t',
    update_player_rating_and_expiration 7 (PStr (lit "2,104"))
      (PStr (lit "2026-03-31")) players_before
    = (Ok tt, t') /\
    map (row_get "rating") (rows t') = [Integer 2104; Null].
Proof. split; [reflexivity|]. eexists. split; reflexivity. Qed.




End Sink.

(** ** The table parser (pop.py) *)

Section TableParser.

Import Regex pop TableContract.

(** *** Prefixes and first occurrences *)

Lemma strip_prefix_spec (w s r : text) : strip_prefix w s = Some r <-> s = w ++ r.
Proof.
  revert s. induction w as [|x w IH]; intros s; simpl.
  - split; congruence.
  - destruct s as [|y s]; [split; discriminate|].
    destruct (Ascii.eqb x y) eqn:E.
    + apply Ascii.eqb_eq in E. subst y. rewrite IH. split; congruence.
    + apply Ascii.eqb_neq in E. split; [discriminate|congruence].
Qed.

Lemma strip_prefix_none (w s : text) : strip_prefix w s = None <-> ~ starts_with w s.
Proof.
  split.
  - intros H [after Ha]. apply strip_prefix_spec in Ha. congruence.
  - intros H. destruct (strip_prefix w s) as [r|] eqn:E; [|reflexivity].
    exfalso. apply H. exists r. now apply strip_prefix_spec.
Qed.

Lemma skipn_app_length (a b : text) : skipn (List.length a) (a ++ b) = b.
Proof. induction a; simpl; auto. Qed.

Lemma first_occurrence_occurs (w s before after : text) :
  first_occurrence w s before after -> starts_with w (skipn (List.length before) s).
Proof. intros [-> _]. rewrite skipn_app_length. now exists after. Qed.

Lemma app_same_length (a1 b1 a2 b2 : text) :
  a1 ++ b1 = a2 ++ b2 -> List.length a1 = List.length a2 -> a1 = a2 /\ b1 = b2.
Proof.
  revert a2. induction a1 as [|x a1 IH]; intros [|y a2]; simpl; try discriminate.
  - auto.
  - intros [= -> H] [= L]. destruct (IH _ H L) as [-> ->]. auto.
Qed.

Lemma first_occurrence_unique (w s b1 a1 b2 a2 : text) :
  first_occurrence w s b1 a1 -> first_occurrence w s b2 a2 -> b1 = b2 /\ a1 = a2.
Proof.
  intros H1 H2.
  assert (L : List.length b1 = List.length b2).
  { destruct (Nat.lt_trichotomy (List.length b1) (List.length b2)) as [L|[L|L]];
      [|exact L|].
    - exfalso. apply (proj2 H2 _ L). eapply first_occurrence_occurs, H1.
    - exfalso. apply (proj2 H1 _ L). eapply first_occurrence_occurs, H2. }
  destruct H1 as [E1 _], H2 as [E2 _]. rewrite E1 in E2.
  destruct (app_same_length _ _ _ _ E2 L) as [-> E].
  split; [reflexivity|]. now apply app_inv_head in E.
Qed.

(** *** The lazy group followed by a literal *)

Lemma match_here_lit (w : text) (s : text) :
  match_here [Lit w] s = match strip_prefix w s with
                         | Some rest => Some ([], rest)
                         | None => None
                         end.
Proof. reflexivity. Qed.

Lemma match_here_cons_lit (w : text) (p : pattern) (s : text) :
  match_here (Lit w :: p) s = match strip_prefix w s with
                              | Some rest => match_here p rest
                              | None => None
                              end.
Proof. reflexivity. Qed.

(** [(.*?)w] captures the text before the first occurrence of [w]. *)
Lemma lazy_any_lit (w : text) (s : text) :
  forall acc,
    match lazy_any (match_here [Lit w]) acc s with
    | Some (groups, rest) =>
        exists body, groups = [rev acc ++ body] /\ first_occurrence w s body rest
    | None => forall k, ~ starts_with w (skipn k s)
    end.
Proof.
  induction s as [|ch s IH]; intros acc; cbn [lazy_any]; rewrite match_here_lit.
  - destruct (strip_prefix w []) as [rest|] eqn:E.
    + exists []. rewrite app_nil_r. split; [reflexivity|].
      apply strip_prefix_spec in E. split; [exact E|]. simpl. lia.
    + intros k. rewrite skipn_nil. now apply strip_prefix_none.
  - destruct (strip_prefix w (ch :: s)) as [rest|] eqn:E.
    + exists []. rewrite app_nil_r. split; [reflexivity|].
      apply strip_prefix_spec in E. split; [exact E|]. simpl. lia.
    + apply strip_prefix_none in E. specialize (IH (ch :: acc)).
      destruct (lazy_any (match_here [Lit w]) (ch :: acc) s) as [[groups rest]|].
      * destruct IH as (body & -> & Hs & Hmin). exists (ch :: body).
        split; [simpl; now rewrite <- app_assoc|].
        split; [simpl; now rewrite Hs|].
        intros [|k] Hk; [exact E|]. simpl in *. apply Hmin. lia.
      * intros [|k]; [exact E|]. apply IH.
Qed.

(** *** The two block patterns *)

Lemma match_tbody (s : text) :
  match match_here tbody_pattern s with
  | Some (groups, rest) => exists body, groups = [body] /\ tbody_at s body rest
  | None => forall b a, ~ tbody_at s b a
  end.
Proof.
  unfold tbody_pattern. rewrite match_here_cons_lit.
  destruct (strip_prefix (lit "<tbody>") s) as [inner|] eqn:E.
  - apply strip_prefix_spec in E.
    change (match_here [LazyGroup; Lit (lit "</tbody>")] inner)
      with (lazy_any (match_here [Lit (lit "</tbody>")]) [] inner).
    pose proof (lazy_any_lit (lit "</tbody>") inner []) as H.
    destruct (lazy_any _ [] inner) as [[groups rest]|].
    + destruct H as (body & -> & Hf). exists body. split; [reflexivity|].
      now exists inner.
    + intros b a (inner' & E' & Hf). rewrite E in E'.
      apply app_inv_head in E'. subst inner'.
      apply (H _ (first_occurrence_occurs _ _ _ _ Hf)).
  - apply strip_prefix_none in E.
    intros b a (inner & E' & _). apply E. now exists inner.
Qed.

Lemma break_at_spec (c : ascii) (s : text) :
  match break_at c s with
  | Some (before, after) => s = before ++ c :: after /\ ~ In c before
  | None => ~ In c s
  end.
Proof.
  induction s as [|ch s IH]; simpl; [tauto|].
  destruct (Ascii.eqb ch c) eqn:E.
  - apply Ascii.eqb_eq in E. subst. split; [reflexivity|tauto].
  - apply Ascii.eqb_neq in E.
    destruct (break_at c s) as [[before after]|].
    + destruct IH as [-> Hn]. split; [reflexivity|]. simpl. intros [H|H]; auto.
    + intros [H|H]; auto.
Qed.

Lemma break_at_unique (c : ascii) (before after : text) :
  ~ In c before -> break_at c (before ++ c :: after) = Some (before, after).
Proof.
  induction before as [|ch before IH]; simpl; intros Hn.
  - now rewrite Ascii.eqb_refl.
  - destruct (Ascii.eqb ch c) eqn:E.
    + apply Ascii.eqb_eq in E. tauto.
    + rewrite IH; tauto.
Qed.

(** [[^c]*] followed by the literal [c]: the run stops at the first [c]. *)
Lemma greedy_not_then_char (c : ascii) (p : pattern) (s : text) :
  greedy_not c (match_here (Lit [c] :: p)) s
  = match break_at c s with
    | Some (_, after) => match_here p after
    | None => None
    end.
Proof.
  induction s as [|ch s IH]; cbn [greedy_not break_at]; [reflexivity|].
  destruct (Ascii.eqb ch c) eqn:E.
  - apply Ascii.eqb_eq in E. subst. cbn [match_here strip_prefix].
    now rewrite Ascii.eqb_refl.
  - rewrite IH. cbn [match_here strip_prefix].
    rewrite (Ascii.eqb_sym c ch), E.
    now destruct (break_at c s) as [[before after]|]; [destruct (match_here p after)|].
Qed.

Lemma match_tr (s : text) :
  match match_here tr_pattern s with
  | Some (groups, rest) => exists body, groups = [body] /\ tr_fragment_at s body rest
  | None => forall b a, ~ tr_fragment_at s b a
  end.
Proof.
  unfold tr_pattern. rewrite match_here_cons_lit.
  destruct (strip_prefix (lit "<tr") s) as [s1|] eqn:E.
  - apply strip_prefix_spec in E.
    change (match_here (StarNot ">"%char :: ?p) s1)
      with (greedy_not ">"%char (match_here p) s1).
    change (lit ">") with [">"%char]. rewrite greedy_not_then_char.
    pose proof (break_at_spec ">"%char s1) as Hb.
    destruct (break_at ">"%char s1) as [[attrs inner]|] eqn:Eb.
    + destruct Hb as [E1 Hn].
      change (match_here [LazyGroup; Lit (lit "</tr>")] inner)
        with (lazy_any (match_here [Lit (lit "</tr>")]) [] inner).
      pose proof (lazy_any_lit (lit "</tr>") inner []) as H.
      destruct (lazy_any _ [] inner) as [[groups rest]|].
      * destruct H as (body & -> & Hf). exists body. split; [reflexivity|].
        exists attrs, inner. rewrite E, E1. split; [reflexivity|now split].
      * intros b a (attrs' & inner' & E' & Hn' & Hf). rewrite E in E'.
        apply app_inv_head in E'. rewrite E' in Eb.
        change (lit ">" ++ inner') with (">"%char :: inner') in Eb.
        rewrite break_at_unique in Eb by exact Hn'. injection Eb as <- <-.
        apply (H _ (first_occurrence_occurs _ _ _ _ Hf)).
    + intros b a (attrs' & inner' & E' & _ & _). rewrite E in E'.
      apply app_inv_head in E'. apply Hb. rewrite E'.
      apply in_or_app. right. now left.
  - apply strip_prefix_none in E.
    intros b a (attrs & inner & E' & _). apply E.
    now exists (attrs ++ lit ">" ++ inner).
Qed.

Lemma tbody_at_unique (s b1 a1 b2 a2 : text) :
  tbody_at s b1 a1 -> tbody_at s b2 a2 -> b1 = b2 /\ a1 = a2.
Proof.
  intros (i1 & E1 & F1) (i2 & E2 & F2). rewrite E1 in E2.
  apply app_inv_head in E2. subst i2.
  eapply first_occurrence_unique; eassumption.
Qed.

Lemma tr_fragment_at_unique (s b1 a1 b2 a2 : text) :
  tr_fragment_at s b1 a1 -> tr_fragment_at s b2 a2 -> b1 = b2 /\ a1 = a2.
Proof.
  intros (t1 & i1 & E1 & N1 & F1) (t2 & i2 & E2 & N2 & F2). rewrite E1 in E2.
  apply app_inv_head in E2.
  change (lit ">") with [">"%char] in E2. simpl in E2.
  pose proof (break_at_unique ">"%char t1 i1 N1) as B1.
  rewrite E2, (break_at_unique ">"%char t2 i2 N2) in B1. injection B1 as <- <-.
  eapply first_occurrence_unique; eassumption.
Qed.

(** A row fragment is never empty: the scan always advances. *)
Lemma tr_fragment_at_shorter (s body after : text) :
  tr_fragment_at s body after -> List.length after < List.length s.
Proof.
  intros (attrs & inner & -> & _ & -> & _).
  rewrite !length_app. simpl. lia.
Qed.

(** *** Leftmost search and the scan of [findall] *)

Lemma search_leftmost (p : pattern) (s : text) :
  match search p s with
  | Some r =>
      exists k, match_here p (skipn k s) = Some r /\
                forall j, j < k -> match_here p (skipn j s) = None
  | None => forall k, match_here p (skipn k s) = None
  end.
Proof.
  induction s as [|ch s IH]; cbn [search].
  - destruct (match_here p []) as [r|] eqn:E.
    + exists 0. split; [exact E|]. lia.
    + intros k. now rewrite skipn_nil.
  - destruct (match_here p (ch :: s)) as [r|] eqn:E.
    + exists 0. split; [exact E|]. lia.
    + destruct (search p s) as [r|].
      * destruct IH as (k & Hk & Hmin). exists (S k). split; [exact Hk|].
        intros [|j] Hj; [exact E|]. apply Hmin. lia.
      * intros [|k]; [exact E|]. apply IH.
Qed.

(** The search of the fallback stage finds the first [<tbody>] block. *)
Lemma search_tbody_block (html body : text) :
  tbody_block html body ->
  exists after, search tbody_pattern html = Some ([body], after).
Proof.
  intros (k & after & Hk & Hmin).
  pose proof (search_leftmost tbody_pattern html) as H.
  destruct (search tbody_pattern html) as [[groups rest]|].
  - destruct H as (k' & Hm & Hmin').
    pose proof (match_tbody (skipn k' html)) as M. rewrite Hm in M.
    destruct M as (body' & -> & Hat).
    destruct (Nat.lt_trichotomy k k') as [L|[L|L]].
    + pose proof (match_tbody (skipn k html)) as M.
      rewrite (Hmin' _ L) in M. now apply M in Hk.
    + subst k'. destruct (tbody_at_unique _ _ _ _ _ Hk Hat) as [-> ->].
      now exists rest.
    + now apply (Hmin _ _ _ L) in Hat.
  - pose proof (match_tbody (skipn k html)) as M. rewrite (H k) in M.
    now apply M in Hk.
Qed.

(** Moving the start of the scan one character to the left, over a
    position where no fragment starts, changes nothing. *)
Lemma tr_fragments_skip (ch : ascii) (s : text) (l : list text) :
  (forall b a, ~ tr_fragment_at (ch :: s) b a) ->
  tr_fragments s l -> tr_fragments (ch :: s) l.
Proof.
  intros H0 H. inversion H as [s' Hnone|s' k body after l' Hk Hmin Hrest]; subst.
  - apply fragments_none. intros [|k]; [exact H0|apply Hnone].
  - apply fragments_next with (S k) after; [exact Hk| |exact Hrest].
    intros [|j] b a Hj; [apply H0|]. apply Hmin. lia.
Qed.

Lemma findall_tr_fragments (fuel : nat) :
  forall s, List.length s < fuel ->
    tr_fragments s (map (fun groups => hd [] groups) (findall_fuel fuel tr_pattern s)).
Proof.
  induction fuel as [|fuel IH]; intros s Hs; [lia|].
  cbn [findall_fuel]. pose proof (match_tr s) as M.
  destruct (match_here tr_pattern s) as [[groups rest]|].
  - destruct M as (body & -> & Hat).
    pose proof (tr_fragment_at_shorter _ _ _ Hat) as Hlt.
    apply Nat.ltb_lt in Hlt as Hb. rewrite Hb. simpl.
    apply fragments_next with 0 rest; [exact Hat| |apply IH; lia].
    intros j b a Hj. lia.
  - destruct s as [|ch s]; simpl.
    + apply fragments_none. intros k b a. rewrite skipn_nil. apply M.
    + apply tr_fragments_skip; [exact M|]. apply IH. simpl in Hs. lia.
Qed.

(** [re.findall] with the row pattern lists the row fragments. *)
Lemma findall1_tr_fragments (s : text) : tr_fragments s (findall1 tr_pattern s).
Proof. apply findall_tr_fragments. lia. Qed.

(** A text has one list of row fragments. *)
Lemma tr_fragments_functional (s : text) (l1 l2 : list text) :
  tr_fragments s l1 -> tr_fragments s l2 -> l1 = l2.
Proof.
  intros H1. revert l2.
  induction H1 as [s Hnone|s k body after l Hk Hmin _ IH]; intros l2 H2.
  - inversion H2 as [|s' k' body' after' l' Hk' _ _]; subst; [reflexivity|].
    now apply Hnone in Hk'.
  - inversion H2 as [s' Hnone|s' k' body' after' l' Hk' Hmin' Hrest']; subst.
    + now apply Hnone in Hk.
    + destruct (Nat.lt_trichotomy k k') as [L|[L|L]].
      * now apply (Hmin' _ _ _ L) in Hk.
      * subst k'. destruct (tr_fragment_at_unique _ _ _ _ _ Hk Hk') as [-> ->].
        f_equal. now apply IH.
      * now apply (Hmin _ _ _ L) in Hk'.
Qed.

(** *** The two stages *)

(** C6 (as stated) fails: the body of this table carries a class attribute,
    the pattern of the fallback stage does not find it, and no row count is
    reported although the body has one row. *)
Lemma fallback_reports_nothing :
  ~ fallback_reports_rows frames_all_null html_tbody_with_class.
Proof.
  intros H. destruct (H _ _ eq_refl eq_refl) as [n Hn]. exact Hn.
Qed.

(** C6 (amended).  The fallback stage runs -- the parse ends with the
    "structure issue" message -- if and only if the structured parse yields
    a frame all of whose cells are null; and when it runs on a table whose
    HTML has a block opened by the tag written exactly [<tbody>] and closed
    by [</tbody>], the first line it reports is a row count equal to the
    number of [<tr>] fragments of the first such block. *)
Theorem fallback_stage_contract (parsed : result (list frame)) (html : text) :
  (outcome (parse_table parsed html) = Ok StructureIssue <->
   exists df frames, parsed = Ok (df :: frames) /\ all_null df = true) /\
  (forall df frames body,
     parsed = Ok (df :: frames) -> all_null df = true ->
     tbody_block html body ->
     exists fragments more,
       tr_fragments body fragments /\
       trace (parse_table parsed html)
       = Print (FoundRows (List.length fragments)) :: more).
Proof.
  split.
  - unfold parse_table. destruct parsed as [[|df frames]|e]; simpl.
    + split; [discriminate|]. now intros (df & frames & H & _).
    + destruct (all_null df) eqn:E; simpl.
      * split; [|reflexivity]. intros _. now exists df, frames.
      * split; [|intros (df' & frames' & [= <- <-] & H); congruence].
        destruct (clean_name_column df) as [cleaned|]; simpl; [|discriminate].
        destruct (rename_columns cleaned); simpl; discriminate.
    + split; [discriminate|]. now intros (df & frames & H & _).
  - intros df frames body -> Hnull Hblock.
    unfold parse_table. simpl. rewrite Hnull. simpl. rewrite app_nil_r.
    destruct (search_tbody_block html body Hblock) as [after Hs].
    unfold fallback_stage. rewrite Hs. cbn [hd].
    eexists (findall1 tr_pattern body), _. split; [apply findall1_tr_fragments|].
    unfold findall1 at 1. rewrite length_map. unfold findall1.
    now rewrite length_map.
Qed.

Lemma fallback_stage_contract_witness :
  exists body fragments more,
    tbody_block html_two_rows body /\
    tr_fragments body fragments /\
    List.length fragments = 2 /\
    trace (parse_table frames_all_null html_two_rows)
    = Print (FoundRows (List.length fragments)) :: more.
Proof.
  pose (body := lit "<tr class='odd'><td><span>x</span> </td></tr><tr><td></td></tr>").
  assert (Hblock : tbody_block html_two_rows body).
  { pose proof (search_leftmost tbody_pattern html_two_rows) as H.
    assert (E : search tbody_pattern html_two_rows = Some ([body], lit "</table>"))
      by reflexivity.
    rewrite E in H. destruct H as (k & Hk & Hmin).
    exists k, (lit "</table>"). split.
    - pose proof (match_tbody (skipn k html_two_rows)) as M. rewrite Hk in M.
      destruct M as (b & [= <-] & Hb). exact Hb.
    - intros j b a Hj Hat.
      pose proof (match_tbody (skipn j html_two_rows)) as M.
      rewrite (Hmin j Hj) in M. now apply M in Hat. }
  destruct (fallback_stage_contract frames_all_null html_two_rows) as [_ H].
  destruct (H _ _ body eq_refl eq_refl Hblock) as (fragments & more & Hf & Ht).
  exists body, fragments, more. repeat split; try assumption.
  rewrite (tr_fragments_functional _ _ _ Hf (findall1_tr_fragments body)).
  reflexivity.
Defined.

End TableParser.

(** * Further properties *)

(** ** Result cards: what a record always is *)

Section CardShapes.

Import search_players Invariants Examples Contract TableContract Shapes.





(** X1.  A card yields a record exactly when its name, its profile link
    (with an [href]) and its badge list can be read; the state, the
    expiration date and the individual badges never abort it. *)
Theorem parse_card_succeeds_iff (c : card) :
  (exists player, parse_card c = Ok player) <->
  (exists name href rating_badges,
     font_names c = Ok name /\ player_link c = Ok (Some href) /\
     w_13 c = Ok rating_badges).
Proof.
  unfold parse_card, fmap. split.
  - intros [player H].
    destruct (font_names c) as [name|]; simpl in H; [|discriminate].
    destruct (player_link c) as [[href|]|]; simpl in H; try discriminate.
    destruct (w_13 c) as [badges|]; simpl in H; [|discriminate].
    now exists name, href, badges.
  - intros (name & href & badges & -> & -> & ->). simpl.
    destruct (parse_badges_invariant badges) as [Hk _].
    unfold primary_rating_of, dict_item.
    destruct (dict_get_keys "regular" (parse_badges badges)) as [r ->];
      [rewrite Hk; simpl; tauto|].
    destruct (dict_get_keys "quick" (parse_badges badges)) as [q ->];
      [rewrite Hk; simpl; tauto|].
    destruct (dict_get_keys "blitz" (parse_badges badges)) as [b ->];
      [rewrite Hk; simpl; tauto|].
    simpl. now eexists.
Qed.

(** X2.  Whatever the badges of a card read, the ratings of its record are
    a dictionary with exactly the six category keys, in their fixed order,
    each holding a non-negative integer or [None]: an unknown type code
    adds no key, a badge that cannot be read changes nothing. *)
Theorem record_ratings_shape (c : card) (player : dict) :
  parse_card c = Ok player ->
  exists ratings,
    dict_get "ratings" player = Some (PDict ratings) /\
    keys ratings = category_keys /\
    ratings_ok ratings.
Proof.
  intros H. apply parse_card_inv in H
    as (name & id & st & ex & ratings & r & q & b & Hk & Hok & _ & _ & _ & ->).
  exists ratings. repeat split; assumption.
Qed.

Lemma record_ratings_shape_witness :
  exists player,
    parse_card card_bare = Ok player /\
    exists ratings,
      dict_get "ratings" player = Some (PDict ratings) /\
      keys ratings = category_keys /\
      ratings_ok ratings.
Proof.
  eexists. split; [reflexivity|].
  apply (record_ratings_shape card_bare). reflexivity.
Defined.



End CardShapes.

(** ** Result cards: the member id and the expiration date *)

Section CardRoundTrips.

Import search_players Invariants Examples Contract TableContract Shapes.

Lemma split_last_no_occurrence (sep : text) (s : text) :
  forall cur,
    ~ occurs_in sep s ->
    split_last_aux sep 0 cur s = rev cur ++ s.
Proof.
  induction s as [|c s IH]; intros cur Hno; simpl.
  - now rewrite app_nil_r.
  - assert (E : strip_prefix sep (c :: s) = None).
    { apply strip_prefix_none. intros H. apply Hno. now exists 0. }
    rewrite E, IH.
    + simpl. now rewrite <- app_assoc.
    + intros [k Hk]. apply Hno. now exists (S k).
Qed.

Lemma replace_no_occurrence (old new : text) (s : text) :
  ~ occurs_in old s -> replace_aux old new 0 s = s.
Proof.
  induction s as [|c s IH]; intros Hno; simpl; [reflexivity|].
  assert (E : strip_prefix old (c :: s) = None).
  { apply strip_prefix_none. intros H. apply Hno. now exists 0. }
  rewrite E, IH; [reflexivity|].
  intros [k Hk]. apply Hno. now exists (S k).
Qed.

(** X4.  The member id is read back from the profile link: for a link
    [https://beta-ratings.uschess.org/player/<id>], where [<id>] does not
    itself contain [/player/], both [memberId] and [uscf_id] are [<id>]. *)
Theorem member_id_round_trip (c : card) (id : text) (player : dict) :
  player_link c = Ok (Some (URL ++ lit "/player/" ++ id)) ->
  ~ occurs_in (lit "/player/") id ->
  parse_card c = Ok player ->
  dict_get "memberId" player = Some (PStr id) /\
  dict_get "uscf_id" player = Some (PStr id).
Proof.
  intros Hlink Hno. unfold parse_card, fmap. rewrite Hlink.
  destruct (font_names c) as [name|]; cbn [bind]; [|discriminate].
  destruct (w_13 c) as [badges|]; cbn [bind]; [|discriminate].
  destruct (primary_rating_of (parse_badges badges)) as [primary|]; cbn [bind];
    [|discriminate].
  assert (E : split_last (lit "/player/") (URL ++ lit "/player/" ++ id) = id).
  { unfold split_last, URL. change (lit "/player/") with (list_ascii_of_string "/player/").
    change (lit "https://beta-ratings.uschess.org")
      with (list_ascii_of_string "https://beta-ratings.uschess.org").
    cbn -[split_last_aux].
    cbn [split_last_aux strip_prefix Ascii.eqb Bool.eqb List.length Nat.sub].
    change (split_last_aux _ 0 [] id)
      with (split_last_aux (lit "/player/") 0 [] id).
    now rewrite split_last_no_occurrence. }
  rewrite E. intros [= <-]. split; reflexivity.
Qed.

Lemma member_id_round_trip_witness :
  exists player,
    parse_card card_plain = Ok player /\
    dict_get "memberId" player = Some (PStr (lit "11112222")) /\
    dict_get "uscf_id" player = Some (PStr (lit "11112222")).
Proof.
  eexists. split; [reflexivity|].
  apply (member_id_round_trip card_plain (lit "11112222")); [reflexivity| |reflexivity].
  intros [k [after H]].
  do 9 (destruct k as [|k]; [discriminate H|]).
  cbv in H. discriminate H.
Defined.

(** X5.  The expiration date is read back from its label: a span reading
    [Exp: <date>], where [<date>] does not itself contain the label, gives
    [<date>] without surrounding whitespace. *)
Theorem expiration_label_removed (c : card) (date : text) (player : dict) :
  exp_span c = Ok (lit "Exp: " ++ date) ->
  ~ occurs_in (lit "Exp: ") date ->
  parse_card c = Ok player ->
  dict_get "expiration_date" player = Some (PStr (strip date)).
Proof.
  intros Hexp Hno. unfold parse_card, fmap. rewrite Hexp.
  destruct (font_names c) as [name|]; cbn [bind]; [|discriminate].
  destruct (player_link c) as [[href|]|]; cbn [bind]; try discriminate.
  destruct (w_13 c) as [badges|]; cbn [bind]; [|discriminate].
  destruct (primary_rating_of (parse_badges badges)) as [primary|]; cbn [bind];
    [|discriminate].
  assert (E : replace (lit "Exp: ") [] (lit "Exp: " ++ date) = date).
  { unfold replace. change (lit "Exp: ") with (list_ascii_of_string "Exp: ").
    cbn -[replace_aux].
    cbn [replace_aux strip_prefix Ascii.eqb Bool.eqb List.length Nat.sub app].
    change (replace_aux _ [] 0 date) with (replace_aux (lit "Exp: ") [] 0 date).
    now rewrite replace_no_occurrence. }
  rewrite E. intros [= <-]. reflexivity.
Qed.

Lemma expiration_label_removed_witness :
  exists player,
    parse_card card_plain = Ok player /\
    dict_get "expiration_date" player = Some (PStr (strip (lit "2026-01-31"))).
Proof.
  eexists. split; [reflexivity|].
  apply (expiration_label_removed card_plain (lit "2026-01-31")); [reflexivity| |reflexivity].
  intros [k [after H]].
  do 11 (destruct k as [|k]; [discriminate H|]).
  cbv in H. discriminate H.
Defined.

End CardRoundTrips.

(** ** The card search: bounds and the driver *)

Section SearchEdges.

Import search_players Invariants Examples Contract TableContract Shapes.

Lemma slice_to_all {A : Type} (n : Z) (l : list A) :
  (Z.of_nat (List.length l) <= n)%Z -> slice_to n l = l.
Proof.
  intros H. unfold slice_to.
  destruct (0 <=? n)%Z eqn:E; [|apply Z.leb_gt in E; lia].
  apply firstn_all2. lia.
Qed.

Lemma slice_to_negative {A : Type} (n : Z) (l : list A) :
  (n < 0)%Z ->
  slice_to n l = firstn (List.length l - Z.to_nat (- n)) l.
Proof.
  intros H. unfold slice_to.
  destruct (0 <=? n)%Z eqn:E; [apply Z.leb_le in E; lia|].
  f_equal. lia.
Qed.

(** X6.  When the page has no more cards than [max_results], nothing is cut
    off: the search returns the record of every card that parses. *)
Theorem search_returns_all_when_room
  (env : search_env) (search_term : text) (max_results : Z)
  (driver : handle) (cards : list card) :
  outcome (setup_chrome_driver (drivers env)) = Ok driver ->
  get_page env (search_url search_term) = Ok tt ->
  find_cards env = Ok cards ->
  (Z.of_nat (List.length cards) <= max_results)%Z ->
  exists players,
    outcome (get_uscf_player_data env search_term max_results) = Ok players /\
    successfully_parsed cards players.
Proof.
  intros Hd Hp Hc Hn. rewrite search_outcome, Hd, Hp, Hc.
  eexists. split; [reflexivity|].
  rewrite slice_to_all by exact Hn. apply card_loop_parsed.
Qed.

Lemma search_returns_all_when_room_witness :
  exists players,
    outcome (get_uscf_player_data search_ok (lit "Smith") 10) = Ok players /\
    successfully_parsed [card_plain; card_broken; card_zero_regular] players.
Proof.
  apply (search_returns_all_when_room search_ok (lit "Smith") 10
           (Some (lit "/root/.wdm/chromedriver"))); try reflexivity.
  simpl. lia.
Defined.

(** X7.  A negative [max_results] does not limit the result but cuts cards
    off the end of the page: the search returns the records of the cards
    that parse among all but the last [- max_results]. *)
Theorem search_negative_max_results
  (env : search_env) (search_term : text) (max_results : Z)
  (driver : handle) (cards : list card) :
  outcome (setup_chrome_driver (drivers env)) = Ok driver ->
  get_page env (search_url search_term) = Ok tt ->
  find_cards env = Ok cards ->
  (max_results < 0)%Z ->
  exists players,
    outcome (get_uscf_player_data env search_term max_results) = Ok players /\
    successfully_parsed
      (firstn (List.length cards - Z.to_nat (- max_results)) cards) players.
Proof.
  intros Hd Hp Hc Hn. rewrite search_outcome, Hd, Hp, Hc.
  eexists. split; [reflexivity|].
  rewrite slice_to_negative by exact Hn. apply card_loop_parsed.
Qed.

Lemma search_negative_max_results_witness :
  exists players,
    outcome (get_uscf_player_data search_ok (lit "Smith") (-2)) = Ok players /\
    successfully_parsed [card_plain] players.
Proof.
  apply (search_negative_max_results search_ok (lit "Smith") (-2)
           (Some (lit "/root/.wdm/chromedriver"))
           [card_plain; card_broken; card_zero_regular]); try reflexivity.
Defined.

(** X8.  A failure of [driver.quit()] is swallowed: what the search returns
    does not depend on how closing the browser ends. *)
Theorem search_ignores_quit_failure
  (env : search_env) (quit_answer : result unit) (search_term : text) (max_results : Z) :
  outcome (get_uscf_player_data
             {| drivers := drivers env; get_page := get_page env;
                find_cards := find_cards env; quit_driver := quit_answer |}
             search_term max_results)
  = outcome (get_uscf_player_data env search_term max_results).
Proof. now rewrite !search_outcome. Qed.

(** X9.  Chrome is never launched with a driver path that was not found:
    a launch with a service names either the path the driver manager
    installed, or one of the listed local paths that exists or is the bare
    command name. *)
Theorem launch_only_known_paths (env : driver_env) (p : text) :
  In (Launch (Some p)) (trace (setup_chrome_driver env)) ->
  wdm_install env = Ok p \/
  (In p possible_paths /\
   (path_exists env p = true \/ p = lit "chromedriver")).
Proof.
  rewrite setup_chrome_driver_first_success.
  destruct (first_success_spec env (plan env)) as (tried & later & Hplan & -> & _).
  intros H. apply in_flat_map in H as (s & Hs & Hin).
  assert (Hsp : In s (plan env)) by (rewrite Hplan; apply in_or_app; now left).
  unfold plan in Hsp. apply in_app_or in Hsp as [[<-|[]]|Hsp].
  - left. simpl in Hin. unfold launch, launch_chrome in Hin.
    destruct (wdm_install env) as [q|]; simpl in Hin.
    + destruct (chrome env (Some q)); simpl in Hin;
        repeat (destruct Hin as [Hin|Hin]; try discriminate; try (injection Hin as ->));
        try reflexivity; contradiction.
    + destruct Hin as [Hin|[]]. discriminate.
  - apply in_app_or in Hsp as [Hsp|[<-|[]]].
    + apply in_map_iff in Hsp as (q & <- & Hq).
      apply filter_In in Hq as [Hq Hex].
      simpl in Hin. unfold launch, launch_chrome in Hin.
      assert (p = q).
      { destruct (chrome env (Some q)); simpl in Hin;
          repeat (destruct Hin as [Hin|Hin]; try discriminate; try (injection Hin as ->));
          try reflexivity; contradiction. }
      subst q. right. split; [exact Hq|].
      apply orb_true_iff in Hex as [Hex|Hex]; [now left|right].
      now apply text_eqb_eq.
    + simpl in Hin. unfold launch, launch_chrome in Hin.
      destruct (chrome env None); simpl in Hin;
        repeat (destruct Hin as [Hin|Hin]; try discriminate); contradiction.
Qed.

Lemma launch_only_known_paths_witness :
  wdm_install drivers_ok = Ok (lit "/root/.wdm/chromedriver") \/
  (In (lit "/root/.wdm/chromedriver") possible_paths /\
   (path_exists drivers_ok (lit "/root/.wdm/chromedriver") = true \/
    lit "/root/.wdm/chromedriver" = lit "chromedriver")).
Proof.
  apply (launch_only_known_paths drivers_ok (lit "/root/.wdm/chromedriver")).
  simpl. right. now left.
Defined.

End SearchEdges.

(** ** Profile lookup: how a call ends *)

Section LookupEdges.

Import test ProfileExamples LookupStages.

Ltac wait_cases :=
  repeat match goal with
         | |- context [is_wait_failure ?e] =>
             let W := fresh "W" in
             destruct (is_wait_failure e) eqn:W; simpl
         end.

Ltac lookup_cases env player_id :=
  unfold get_uschess_info, start_driver, scrape, launch_chrome,
    beta_stage, msa_stage;
  destruct (wdm_install env) as [p|e0]; simpl;
  [destruct (chrome env (Some p)) as [[]|e1]; simpl;
   [destruct (get_page env (url_beta player_id)) as [[]|e2];
    destruct (rating_div env) as [t|e3];
    destruct (get_page env (url_msa player_id)) as [[]|e4];
    destruct (expiration_td env) as [date|e5];
    destruct (quit_driver env) as [[]|e6]; simpl; wait_cases
   |wait_cases]
  |wait_cases].

(** X10.  When the driver cannot be started, the caller does not see the
    reason: the [finally] clause reads the unbound local [driver], so the
    call raises [UnboundLocalError] -- also for a timeout, which the
    [except] clause would have turned into [None] -- and no page is
    visited. *)
Theorem lookup_start_failure_masked (env : profile_env) (player_id : text) :
  is_ok (outcome (start_driver env)) = false ->
  outcome (get_uschess_info env player_id) = Raise UnboundLocalError /\
  trace (get_uschess_info env player_id) = trace (start_driver env).
Proof.
  lookup_cases env player_id; intros H; try discriminate H;
    split; try reflexivity; now rewrite ?app_nil_r.
Qed.

Lemma lookup_start_failure_masked_witness :
  outcome (get_uschess_info profile_no_driver (lit "14970943")) = Raise UnboundLocalError /\
  trace (get_uschess_info profile_no_driver (lit "14970943"))
  = trace (start_driver profile_no_driver).
Proof.
  apply (lookup_start_failure_masked profile_no_driver (lit "14970943")). reflexivity.
Defined.

(** X11.  An exception of [driver.quit()] replaces whatever the lookup had
    obtained: once the driver has started, a failing quit makes the call
    raise that exception, even when both pages were read. *)
Theorem lookup_quit_failure_wins
  (env : profile_env) (player_id : text) (driver : handle) (e : exn) :
  outcome (start_driver env) = Ok driver ->
  quit_driver env = Raise e ->
  outcome (get_uschess_info env player_id) = Raise e.
Proof.
  lookup_cases env player_id; intros Hs Hq;
    try discriminate Hs; try discriminate Hq; now injection Hq as ->.
Qed.

Lemma lookup_quit_failure_wins_witness :
  outcome (get_uschess_info profile_quit_fails (lit "14970943"))
  = Raise WebDriverException.
Proof.
  apply (lookup_quit_failure_wins profile_quit_fails (lit "14970943")
           (Some (lit "/root/.wdm/chromedriver"))); reflexivity.
Defined.



(** X13.  Once the driver has started and can be closed, the lookup returns
    [None] exactly when reading the rating raised nothing fatal and reading
    the expiration date ended in a timeout or a missing element. *)
Theorem lookup_none_iff (env : profile_env) (player_id : text) (driver : handle) :
  outcome (start_driver env) = Ok driver ->
  quit_driver env = Ok tt ->
  (outcome (get_uschess_info env player_id) = Ok PNone <->
   ~ fatal (beta_stage env player_id) /\
   exists e, msa_stage env player_id = Raise e /\ is_wait_failure e = true).
Proof.
  unfold fatal.
  lookup_cases env player_id; intros Hs Hq;
    try discriminate Hs; try discriminate Hq;
    try (exfalso; congruence);
    (split;
     [intros H; try discriminate H;
      (split;
       [intros (e & He & Hw); try discriminate He; injection He as <-; congruence
       |eexists; split; [reflexivity|assumption]])
     |intros [Hf (e & He & Hw)]; try discriminate He; injection He as <-;
      first [reflexivity | congruence
            | exfalso; apply Hf; eexists; split; [reflexivity|assumption]]]).
Qed.

Lemma lookup_none_iff_witness :
  outcome (get_uschess_info profile_no_expiration (lit "14970943")) = Ok PNone <->
  ~ fatal (beta_stage profile_no_expiration (lit "14970943")) /\
  exists e, msa_stage profile_no_expiration (lit "14970943") = Raise e /\
            is_wait_failure e = true.
Proof.
  apply (lookup_none_iff profile_no_expiration (lit "14970943")
           (Some (lit "/root/.wdm/chromedriver"))); reflexivity.
Defined.

End LookupEdges.

(** ** Record sink: what it keeps and when it fails *)

Section SinkEdges.

Import test SinkContract batch.

(** X14.  The sink touches nothing but the two columns it is about,
    whatever it is given and however it ends: the stored table keeps its
    rows and their order, every row keeps the value of every column other
    than [rating] and [expiration_date] -- the row identifiers included --
    and the schema gains at most the [expiration_date] column. *)
Theorem sink_keeps_other_columns
  (player_id : Z) (rating expiration_date : pyval) (t : table) :
  kept t (snd (update_player_rating_and_expiration player_id rating expiration_date t)) /\
  List.length
    (rows (snd (update_player_rating_and_expiration player_id rating expiration_date t)))
  = List.length (rows t) /\
  (columns (snd (update_player_rating_and_expiration player_id rating expiration_date t))
   = columns t \/
   columns (snd (update_player_rating_and_expiration player_id rating expiration_date t))
   = columns t ++ [("expiration_date"%string, TEXT)]).
Proof.
  destruct (sink_kept player_id rating expiration_date t) as [K C].
  split; [exact K|]. split; [|exact C].
  symmetry. exact (Forall2_length K).
Qed.

Lemma row_set_present (c : string) (v : sqlval) (r : row) :
  row_set c v (row_set c v r) = row_set c v r.
Proof.
  induction r as [|[c' v'] r IH]; simpl.
  - now rewrite same_name_refl.
  - destruct (same_name c c') eqn:E; simpl; rewrite E; [reflexivity|].
    now rewrite IH.
Qed.

Lemma row_set_over (c c' : string) (v v' : sqlval) (r : row) :
  same_name c' c = false ->
  row_set c v (row_set c' v' (row_set c v r)) = row_set c' v' (row_set c v r).
Proof.
  intros Hne. induction r as [|[c0 v0] r IH]; simpl.
  - rewrite Hne. simpl. now rewrite same_name_refl.
  - destruct (same_name c c0) eqn:E; simpl.
    + destruct (same_name c' c0) eqn:E'; simpl.
      * exfalso. apply same_name_true in E, E'. apply same_name_false in Hne.
        congruence.
      * now rewrite E.
    + destruct (same_name c' c0) eqn:E'; simpl; rewrite E.
      * f_equal. apply row_set_present.
      * now rewrite IH.
Qed.

Lemma row_effect_twice (t : table) (player_id : Z) (rating : pyval) (date : sqlval) (r : row) :
  row_effect t player_id rating date (row_effect t player_id rating date r)
  = row_effect t player_id rating date r.
Proof.
  unfold row_effect.
  destruct (id_matches (affinity_of "id" t) player_id r) eqn:I; [|now rewrite I].
  destruct (rating_as_integer rating) as [n|].
  - rewrite !id_matches_set, I by reflexivity.
    rewrite (row_set_over "rating" "expiration_date") by reflexivity.
    apply row_set_present.
  - rewrite id_matches_set, I by reflexivity. apply row_set_present.
Qed.

Lemma table_eq (a b : table) : columns a = columns b -> rows a = rows b -> a = b.
Proof. destruct a, b. simpl. now intros -> ->. Qed.

Lemma sink_effect_twice (player_id : Z) (rating : pyval) (date : sqlval) (t : table) :
  has_column "id" t = true -> has_column "rating" t = true ->
  sink_effect player_id rating date (sink_effect player_id rating date t)
  = sink_effect player_id rating date t.
Proof.
  intros Hid Hrating.
  set (t1 := sink_effect player_id rating date t).
  assert (E1 : has_column "expiration_date" t1 = true)
    by apply sink_effect_has_expiration.
  assert (Ai : affinity_of "id" t1 = affinity_of "id" t)
    by now apply sink_effect_keeps_affinity.
  assert (Ar : affinity_of "rating" t1 = affinity_of "rating" t)
    by now apply sink_effect_keeps_affinity.
  assert (Ad : stored_date t1 date = stored_date t date).
  { unfold stored_date. rewrite E1.
    destruct (has_column "expiration_date" t) eqn:E.
    - unfold t1. now rewrite sink_effect_keeps_affinity.
    - f_equal. apply (affinity_of_new "expiration_date" TEXT t); [|exact E].
      unfold t1, sink_effect. cbn [columns]. now rewrite E. }
  assert (Rw : rows t1 = map (row_effect t player_id rating date) (rows t))
    by reflexivity.
  apply table_eq; unfold sink_effect at 1; cbn [columns rows].
  - now rewrite E1.
  - rewrite Rw, map_map. apply map_ext. intros r.
    transitivity (row_effect t player_id rating date (row_effect t player_id rating date r));
      [|apply row_effect_twice].
    unfold row_effect at 1 3. now rewrite Ai, Ar, Ad.
Qed.

(** X15.  Storing the same record twice is the same as storing it once:
    when the sink is given parameters that can be bound, on a table with
    the columns [id] and [rating], a second call with the same arguments
    completes like the first and leaves the table as the first call left
    it. *)
Theorem sink_idempotent
  (player_id : Z) (rating : text) (expiration_date : pyval) (date : sqlval) (t : table) :
  has_column "id" t = true ->
  has_column "rating" t = true ->
  in_int64 player_id = true ->
  rating_fits (PStr rating) = true ->
  to_sql expiration_date = Ok date ->
  exists t1,
    update_player_rating_and_expiration player_id (PStr rating) expiration_date t
    = (Ok tt, t1) /\
    update_player_rating_and_expiration player_id (PStr rating) expiration_date t1
    = (Ok tt, t1).
Proof.
  intros Hid Hrating Hpid Hfits Hdate.
  rewrite (sink_effect_spec player_id rating expiration_date date t
             Hid Hrating Hpid Hfits Hdate).
  eexists. split; [reflexivity|].
  rewrite (sink_effect_spec player_id rating expiration_date date _
             (sink_effect_keeps_column "id" player_id (PStr rating) date t Hid)
             (sink_effect_keeps_column "rating" player_id (PStr rating) date t Hrating)
             Hpid Hfits Hdate).
  f_equal. now apply sink_effect_twice.
Qed.

Lemma sink_idempotent_witness :
  exists t1,
    update_player_rating_and_expiration 7 (PStr (lit "2,104"))
      (PStr (lit "2026-03-31")) players_before
    = (Ok tt, t1) /\
    update_player_rating_and_expiration 7 (PStr (lit "2,104"))
      (PStr (lit "2026-03-31")) t1
    = (Ok tt, t1).
Proof.
  apply (sink_idempotent 7 (lit "2,104") (PStr (lit "2026-03-31"))
           (TextVal (lit "2026-03-31")) players_before); reflexivity.
Defined.

(** X16.  On a table without a [rating] column -- under any spelling of
    the name -- the sink fails only if it has a rating to write: a rating
    text that denotes no integer (such as "Not found") is skipped and the
    call completes, while one that denotes an integer makes the [UPDATE]
    raise [OperationalError], which nothing catches. *)
Theorem sink_without_rating_column
  (player_id : Z) (rating : text) (expiration_date : pyval) (date : sqlval) (t : table) :
  has_column "id" t = true ->
  has_column "rating" t = false ->
  in_int64 player_id = true ->
  to_sql expiration_date = Ok date ->
  match rating_as_integer (PStr rating) with
  | None =>
      exists t', update_player_rating_and_expiration player_id (PStr rating)
                   expiration_date t = (Ok tt, t')
  | Some _ =>
      update_player_rating_and_expiration player_id (PStr rating) expiration_date t
      = (Raise OperationalError, t)
  end.
Proof.
  intros Hid Hrating Hpid Hdate.
  assert (Hto : to_sql (PInt player_id) = Ok (Integer player_id))
    by (cbn [to_sql]; now rewrite Hpid).
  assert (Hrest : exists t',
            match provision t with
            | Raise e => (Raise e, t)
            | Ok t2 =>
                match update_where_id "expiration_date" expiration_date player_id t2 with
                | Ok t3 => (Ok tt, t3)
                | Raise e => (Raise e, t2)
                end
            end = (Ok tt, t')).
  { destruct (provision_spec t) as (t2 & -> & R2 & C2). unfold update_where_id.
    destruct (has_column "expiration_date" t) eqn:E.
    - subst t2. rewrite E, Hid, Hdate, Hto. now eexists.
    - rewrite (has_column_added "expiration_date" "expiration_date" TEXT t t2 C2).
      rewrite (has_column_added "id" "expiration_date" TEXT t t2 C2), Hid.
      rewrite same_name_refl, orb_true_r. cbn [andb orb].
      rewrite Hdate, Hto. now eexists. }
  unfold update_player_rating_and_expiration, rating_stage.
  destruct (truthy (PStr rating) && negb (is_not_found (PStr rating))) eqn:G.
  - cbn [remove_commas bind]. change (lit ",") with [","%char].
    rewrite replace_char_filter. unfold rating_as_integer.
    destruct (py_int_cases (filter (fun x => negb (Ascii.eqb x ","%char)) rating))
      as [[n Hn]|Hn]; rewrite Hn; cbn [bind catch].
    + unfold update_where_id. rewrite Hrating. reflexivity.
    + exact Hrest.
  - rewrite (guard_rejects_no_integer _ G). exact Hrest.
Qed.

Lemma sink_without_rating_column_witness :
  exists t',
    update_player_rating_and_expiration 7 (PStr (lit "Not found"))
      (PStr (lit "2026-03-31"))
      {| columns := untyped ["id"; "name"]%string; rows := [[("id", Integer 7)]%string] |}
    = (Ok tt, t').
Proof.
  apply (sink_without_rating_column 7 (lit "Not found") (PStr (lit "2026-03-31"))
           (TextVal (lit "2026-03-31"))
           {| columns := untyped ["id"; "name"]%string;
              rows := [[("id", Integer 7)]%string] |});
    reflexivity.
Defined.

End SinkEdges.

(** ** The form search and its table parser: further properties *)

Section ParserEdges.

Import Regex pop TableContract Shapes ParserShapes.

Lemma outcome_bind {A B : Type} (m : io A) (k : A -> io B) :
  outcome (io_bind m k)
  = match outcome m with
    | Ok a => outcome (k a)
    | Raise e => Raise e
    end.
Proof. destruct m as [t [a|e]]; simpl; [now destruct (k a)|reflexivity]. Qed.

Lemma outcome_try_except {A : Type} (m : io A) (h : exn -> io A) :
  outcome (try_except m h)
  = match outcome m with
    | Ok a => Ok a
    | Raise e => outcome (h e)
    end.
Proof. destruct m as [t [a|e]]; simpl; [reflexivity|now destruct (h e)]. Qed.

Lemma outcome_try_finally {A : Type} (m : io A) (f : io unit) :
  outcome (try_finally m f)
  = match outcome f with
    | Ok _ => outcome m
    | Raise e => Raise e
    end.
Proof. destruct m as [t r], f as [t' [u|e]]; reflexivity. Qed.

(** X17.  The form search raises to its caller in two cases only: the
    driver could not be created, or [driver.quit()] failed; every other
    failure comes back as a message. *)
Theorem form_search_raises_iff (env : form_env) (search_term : text) (e : exn) :
  outcome (get_uscf_player_data env search_term) = Raise e <->
  outcome (start_driver env) = Raise e \/
  (is_ok (outcome (start_driver env)) = true /\ quit_driver env = Raise e).
Proof.
  unfold get_uscf_player_data. rewrite outcome_bind.
  destruct (outcome (start_driver env)) as [driver|e0]; simpl.
  - rewrite outcome_try_finally, outcome_try_except. unfold call, outcome at 1.
    cbn [snd]. destruct (quit_driver env) as [[]|e8].
    + split; [|intros [H|[_ H]]; discriminate].
      destruct (outcome _) as [a|e1]; [discriminate|].
      destruct (is_wait_failure e1); discriminate.
    + split; [intros [= ->]; right; now split|].
      intros [H|[_ H]]; [discriminate|congruence].
  - split; [intros [= ->]; now left|].
    intros [H|[H _]]; [congruence|discriminate].
Qed.

(** X18.  The wait for a non-empty first cell is advisory: whether it
    succeeds or fails, the form search ends the same way. *)
Theorem form_search_ignores_data_cell
  (env : form_env) (data_cell_answer : result unit) (search_term : text) :
  outcome (get_uscf_player_data
             {| wdm_install := wdm_install env; chrome := chrome env;
                get_page := get_page env; name_input := name_input env;
                search_button := search_button env; first_row := first_row env;
                data_cell := data_cell_answer; table_html := table_html env;
                read_html := read_html env; quit_driver := quit_driver env |}
             search_term)
  = outcome (get_uscf_player_data env search_term).
Proof.
  unfold get_uscf_player_data, start_driver, launch_chrome.
  cbn [wdm_install chrome get_page name_input search_button first_row
       data_cell table_html read_html quit_driver].
  destruct (wdm_install env) as [p|]; simpl; [|reflexivity].
  destruct (chrome env (Some p)) as [[]|]; simpl; [|reflexivity].
  destruct (get_page env URL) as [[]|e2]; simpl; [|reflexivity].
  destruct (name_input env) as [[]|e3]; simpl; [|reflexivity].
  destruct (search_button env) as [[]|e4]; simpl; [|reflexivity].
  destruct (first_row env) as [[]|e5]; simpl; [|reflexivity].
  destruct data_cell_answer as [[]|ea], (data_cell env) as [[]|eb]; simpl;
    (destruct (table_html env) as [html|e7]; simpl; [|reflexivity]);
    destruct (parse_table (read_html env html) html) as [t [a|e]]; reflexivity.
Qed.

Lemma apply_at_length {A : Type} (f : A -> A) (i : nat) (l : list A) :
  List.length (apply_at f i l) = List.length l.
Proof.
  revert i. induction l as [|x l IH]; intros [|i]; simpl; auto.
Qed.

Lemma apply_at_nth {A : Type} (f : A -> A) (i j : nat) (l : list A) :
  nth_error (apply_at f i l) j
  = if Nat.eqb i j then option_map f (nth_error l j) else nth_error l j.
Proof.
  revert i j. induction l as [|x l IH]; intros [|i] [|j]; simpl; auto.
  - now destruct (Nat.eqb i j).
Qed.

(** X19.  A table the parser returns has exactly the eleven canonical
    column names and the rows of the structured parse, which had eleven
    columns, one of them called Name, and some non-null cell; in every row
    only the Name cell may differ, and it is the cleaned name. *)
Theorem parse_table_table_shape
  (parsed : result (list frame)) (html : text) (df' : frame) :
  outcome (parse_table parsed html) = Ok (Table df') ->
  exists df frames i,
    parsed = Ok (df :: frames) /\ all_null df = false /\
    column_index (lit "Name") (columns df) = Some i /\
    List.length (columns df) = 11 /\
    columns df' = canonical_columns /\
    Forall2
      (fun r r' =>
         List.length r' = List.length r /\
         forall j, nth_error r' j
                   = if Nat.eqb i j then option_map clean_name (nth_error r j)
                     else nth_error r j)
      (rows df) (rows df').
Proof.
  unfold parse_table. destruct parsed as [[|df frames]|e]; simpl; try discriminate.
  destruct (all_null df) eqn:Hnull; simpl; [discriminate|].
  unfold clean_name_column.
  destruct (column_index (lit "Name") (columns df)) as [i|] eqn:Hi; simpl;
    [|discriminate].
  unfold rename_columns. cbn [columns rows].
  destruct (Nat.eqb (List.length (columns df)) (List.length canonical_columns)) eqn:Hl;
    simpl; [|discriminate].
  intros [= <-]. exists df, frames, i.
  apply Nat.eqb_eq in Hl.
  split; [reflexivity|]. split; [exact Hnull|]. split; [exact Hi|].
  split; [exact Hl|]. split; [reflexivity|]. cbn [rows].
  induction (rows df) as [|r l IH]; simpl; constructor; [|exact IH].
  split; [apply apply_at_length|]. intros j. apply apply_at_nth.
Qed.

Lemma parse_table_table_shape_witness :
  exists df',
    outcome (parse_table frames_one_player html_two_rows) = Ok (Table df') /\
    columns df' = canonical_columns /\
    map (fun r => nth_error r 0) (rows df') = [Some (Str (lit "CHUGH, A"))].
Proof.
  eexists. split; [reflexivity|].
  destruct (parse_table_table_shape frames_one_player html_two_rows _ eq_refl)
    as (df & frames & i & _ & _ & _ & _ & Hc & _).
  split; [exact Hc|reflexivity].
Defined.

Lemma split_last_char (c : ascii) (before after : text) :
  ~ In c after ->
  forall cur, split_last_aux [c] 0 cur (before ++ c :: after) = after.
Proof.
  intros Hno. induction before as [|x before IH]; intros cur; simpl.
  - rewrite Ascii.eqb_refl. simpl.
    rewrite (split_last_no_occurrence [c] after []); [reflexivity|].
    intros [k [rest Hk]]. apply Hno.
    assert (Hin : In c (skipn k after)) by (rewrite Hk; now left).
    clear Hk. revert k Hin. induction after as [|y after IHa]; intros [|k] Hin;
      simpl in *; try contradiction; auto.
    right. apply (IHa (fun H => Hno (or_intror H)) k Hin).
  - destruct (Ascii.eqb c x); simpl; apply IH.
Qed.

(** X20.  Cleaning a Name cell keeps the text after its last line break,
    without surrounding whitespace; a cell that is not a text is left as it
    is. *)
Theorem clean_name_last_line (before after : text) :
  ~ In "010"%char after ->
  clean_name (Str (before ++ "010"%char :: after)) = Str (strip after) /\
  clean_name NaN = NaN /\
  forall n, clean_name (Num n) = Num n.
Proof.
  intros Hno. split; [|split; reflexivity].
  unfold clean_name, split_last. now rewrite split_last_char.
Qed.

Lemma clean_name_last_line_witness :
  clean_name (Str (lit "US" ++ "010"%char :: lit " CHUGH, A ")) = Str (strip (lit " CHUGH, A ")) /\
  clean_name NaN = NaN /\
  forall n, clean_name (Num n) = Num n.
Proof.
  apply (clean_name_last_line (lit "US") (lit " CHUGH, A ")).
  intros H. cbv in H. repeat (destruct H as [H|H]; [discriminate H|]). exact H.
Defined.

Lemma row_lines_one_report (ir : nat * text) : row_reports (row_lines ir) = 1.
Proof.
  destruct ir as [i row]. unfold row_reports, row_lines. simpl. f_equal.
  induction (enumerate _) as [|[j c] l IH]; simpl; [reflexivity|exact IH].
Qed.

Lemma row_reports_flat_map (l : list (nat * text)) :
  row_reports (flat_map row_lines l) = List.length l.
Proof.
  induction l as [|ir l IH]; simpl; [reflexivity|].
  unfold row_reports in *. rewrite filter_app, length_app.
  fold (row_reports (row_lines ir)). now rewrite row_lines_one_report, IH.
Qed.

Lemma enumerate_from_length {A : Type} (i : nat) (l : list A) :
  List.length (enumerate_from i l) = List.length l.
Proof. revert i. induction l; intros i; simpl; auto. Qed.

(** X21.  The fallback stage details at most three rows, however many the
    table has: when it finds a body with n row fragments, it lists the
    cells of min(3, n) rows. *)
Theorem fallback_details_three_rows (html : text) :
  row_reports (fallback_stage html) <= 3 /\
  forall body fragments,
    tbody_block html body -> tr_fragments body fragments ->
    row_reports (fallback_stage html) = Nat.min 3 (List.length fragments).
Proof.
  assert (H : forall body after,
            search tbody_pattern html = Some ([body], after) ->
            row_reports (fallback_stage html)
            = Nat.min 3 (List.length (findall1 tr_pattern body))).
  { intros body after Hs. unfold fallback_stage. rewrite Hs. cbn [hd].
    change (row_reports (Print (FoundRows ?n) :: ?t)) with (row_reports t).
    rewrite row_reports_flat_map. unfold enumerate.
    now rewrite enumerate_from_length, length_firstn. }
  split.
  - pose proof (search_leftmost tbody_pattern html) as Hl.
    destruct (search tbody_pattern html) as [[groups rest]|] eqn:Hs.
    + destruct Hl as (k & Hk & _).
      pose proof (match_tbody (skipn k html)) as M. rewrite Hk in M.
      destruct M as (body & -> & _). rewrite (H body rest eq_refl). lia.
    + unfold fallback_stage. rewrite Hs. cbv. lia.
  - intros body fragments Hb Hf.
    destruct (search_tbody_block html body Hb) as [after Hs].
    rewrite (H body after Hs).
    now rewrite (tr_fragments_functional _ _ _ Hf (findall1_tr_fragments body)).
Qed.

Lemma html_two_rows_block :
  tbody_block html_two_rows
    (lit "<tr class='odd'><td><span>x</span> </td></tr><tr><td></td></tr>").
Proof.
  pose proof (search_leftmost tbody_pattern html_two_rows) as H.
  assert (E : search tbody_pattern html_two_rows
              = Some ([lit "<tr class='odd'><td><span>x</span> </td></tr><tr><td></td></tr>"],
                      lit "</table>"))
    by reflexivity.
  rewrite E in H. destruct H as (k & Hk & Hmin).
  exists k, (lit "</table>"). split.
  - pose proof (match_tbody (skipn k html_two_rows)) as M. rewrite Hk in M.
    destruct M as (b & [= <-] & Hb). exact Hb.
  - intros j b a Hj Hat.
    pose proof (match_tbody (skipn j html_two_rows)) as M.
    rewrite (Hmin j Hj) in M. now apply M in Hat.
Qed.

Lemma fallback_details_three_rows_witness :
  row_reports (fallback_stage html_two_rows) = 2.
Proof.
  destruct (fallback_details_three_rows html_two_rows) as [_ H].
  rewrite (H _ _ html_two_rows_block (findall1_tr_fragments _)).
  reflexivity.
Defined.

Lemma first_occurrence_body_free (w s body after : text) :
  w <> [] -> first_occurrence w s body after -> ~ occurs_in w body.
Proof.
  intros Hw [-> Hmin] [k [rest Hk]].
  destruct (Nat.lt_ge_cases k (List.length body)) as [L|L].
  - apply (Hmin k L). exists (rest ++ w ++ after).
    rewrite skipn_app, Hk.
    replace (k - List.length body) with 0 by lia. simpl.
    now rewrite <- app_assoc.
  - rewrite skipn_all2 in Hk by exact L. destruct w; [congruence|discriminate].
Qed.

Lemma tr_fragments_bodies_free (s : text) (l : list text) :
  tr_fragments s l -> Forall (fun body => ~ occurs_in (lit "</tr>") body) l.
Proof.
  induction 1 as [|s k body after l Hk _ _ IH]; constructor; [|exact IH].
  destruct Hk as (attrs & inner & _ & _ & Hf).
  eapply first_occurrence_body_free; [discriminate|exact Hf].
Qed.

(** X22.  No row fragment the scan returns contains a closing [</tr>] tag:
    a fragment always ends at the first one. *)
Theorem row_fragments_have_no_closing_tag (s : text) :
  Forall (fun body => ~ occurs_in (lit "</tr>") body) (findall1 tr_pattern s).
Proof. apply (tr_fragments_bodies_free s), findall1_tr_fragments. Qed.

End ParserEdges.

(** ** The batch over all players *)

Section BatchEdges.

Import test SinkContract batch.

Ltac lookup_split env player_id :=
  unfold get_uschess_info, start_driver, scrape, launch_chrome;
  destruct (wdm_install env) as [p|e0]; simpl;
  [destruct (chrome env (Some p)) as [[]|e1]; simpl;
   [destruct (get_page env (url_beta player_id)) as [[]|e2];
    destruct (rating_div env) as [t|e3];
    destruct (get_page env (url_msa player_id)) as [[]|e4];
    destruct (expiration_td env) as [date|e5];
    destruct (quit_driver env) as [[]|e6]; simpl|]|];
  repeat match goal with
         | |- context [is_wait_failure ?e] => destruct (is_wait_failure e); simpl
         end.

(** What a lookup can return: nothing, or a dictionary of three texts
    whose rating is not empty. *)
Lemma lookup_answer_shape (env : profile_env) (player_id : text) (v : pyval) :
  outcome (get_uschess_info env player_id) = Ok v ->
  v = PNone \/
  exists rating date,
    rating <> [] /\
    v = PDict [ ("rating", PStr rating); ("expiration_date", PStr date);
                ("player_id", PStr player_id) ]%string.
Proof.
  lookup_split env player_id; intros H; try discriminate H;
    injection H as <-; auto; right.
  all: try (destruct (strip t) as [|ch rest] eqn:E; simpl).
  all: do 2 eexists; (split; [|reflexivity]); discriminate.
Qed.

(** A lookup asks for the driver once. *)
Lemma lookup_installs_once (env : profile_env) (player_id : text) :
  count is_lookup (map Browser (trace (get_uschess_info env player_id))) = 1 /\
  count is_sleep (map Browser (trace (get_uschess_info env player_id))) = 0.
Proof.
  lookup_split env player_id; split; reflexivity.
Qed.

Lemma count_app (p : report -> bool) (l1 l2 : list report) :
  count p (l1 ++ l2) = count p l1 + count p l2.
Proof. unfold count. now rewrite filter_app, length_app. Qed.

Lemma kept_sink_effect (n : Z) (rating : pyval) (date : sqlval) (t : table) :
  kept t (sink_effect n rating date t).
Proof.
  unfold kept, sink_effect. cbn [rows].
  induction (rows t) as [|r l IH]; simpl; constructor; [|exact IH].
  intros c H1 H2. unfold row_effect.
  destruct (id_matches (affinity_of "id" t) n r); [|reflexivity].
  rewrite row_get_set_ne by exact H2.
  destruct (rating_as_integer rating); [|reflexivity].
  now apply row_get_set_ne.
Qed.

Lemma touches_only_refl (ids : list sqlval) (t : table) : touches_only ids t t.
Proof. unfold touches_only. induction (rows t); constructor; auto. Qed.

Lemma touches_only_rows_trans (ids1 ids2 : list sqlval) (l1 l2 l3 : list row) :
  Forall2 (fun r r' => ~ In (row_get "id" r) ids1 -> r' = r) l1 l2 ->
  Forall2 (fun r r' => ~ In (row_get "id" r) ids2 -> r' = r) l2 l3 ->
  Forall2 (fun r r' => ~ In (row_get "id" r) (ids1 ++ ids2) -> r' = r) l1 l3.
Proof.
  intros H12. revert l3. induction H12 as [|r1 r2 l1 l2 Hr _ IH]; intros l3 H23.
  - inversion H23. constructor.
  - inversion H23 as [|r2' r3 l2' l3' Hr' Hl']; subst. constructor.
    + intros Hn.
      assert (E : r2 = r1) by (apply Hr; intros H; apply Hn, in_or_app; now left).
      subst r2. apply Hr'. intros H. apply Hn, in_or_app. now right.
    + now apply IH.
Qed.

(** A row addressed by an integer answers [WHERE id = ?] for that integer
    only, whatever the column is declared as. *)
Lemma id_matches_integer (a : affinity) (k n : Z) (r : row) :
  row_get "id" r = Integer n -> id_matches a k r = (n =? k)%Z.
Proof.
  intros H. unfold id_matches, id_is. rewrite H.
  destruct a; now rewrite orb_false_r.
Qed.

Lemma touches_only_sink_effect (k : Z) (rating : pyval) (date : sqlval) (t : table) :
  integer_ids t ->
  touches_only [Integer k] t (sink_effect k rating date t).
Proof.
  unfold integer_ids, touches_only, sink_effect. cbn [rows].
  induction 1 as [|r l (n & Hn & _) _ IH]; simpl; constructor; [|exact IH].
  intros Hnot. unfold row_effect.
  rewrite (id_matches_integer _ k n r Hn).
  destruct (Z.eqb_spec n k) as [->|Hk]; [|reflexivity].
  exfalso. apply Hnot. rewrite Hn. now left.
Qed.

Lemma integer_ids_kept (t t' : table) : integer_ids t -> kept t t' -> integer_ids t'.
Proof.
  unfold integer_ids, kept. intros H K. revert H.
  induction K as [|r r' l l' Hr _ IH]; intros H; [constructor|].
  inversion H as [|? ? (n & Hn & Hb) Hl]; subst.
  constructor; [|now apply IH].
  exists n. split; [|exact Hb]. now rewrite (Hr "id"%string eq_refl eq_refl).
Qed.

(** One attempt on a table that has the columns [id] and [rating]: a
    record whose rating can be bound is stored, and nothing else touches
    the store. *)
Lemma attempt_spec (web : profile_env) (n : Z) (uscf_id : sqlval) (db : table) :
  has_column "id" db = true ->
  has_column "rating" db = true ->
  in_int64 n = true ->
  exists lines r db',
    attempt web (Integer n) uscf_id db = Some (lines, r, db') /\
    count is_lookup lines = 1 /\ count is_sleep lines = 0 /\
    has_column "id" db' = true /\ has_column "rating" db' = true /\
    (db' = db \/ exists rating date, db' = sink_effect n rating date db) /\
    match outcome (get_uschess_info web (format uscf_id)) with
    | Ok (PDict d) =>
        exists rating date,
          d = [ ("rating", PStr rating); ("expiration_date", PStr date);
                ("player_id", PStr (format uscf_id)) ]%string /\
          if rating_fits (PStr rating)
          then r = Ok true /\ db' = sink_effect n (PStr rating) (TextVal date) db
          else r = Raise OverflowError /\ db' = db
    | Ok _ => r = Ok false /\ db' = db
    | Raise e => r = Raise e /\ db' = db
    end.
Proof.
  intros Hid Hrating Hn. unfold attempt.
  pose proof (lookup_answer_shape web (format uscf_id)) as Hshape.
  destruct (lookup_installs_once web (format uscf_id)) as [Hone Hnone].
  destruct (get_uschess_info web (format uscf_id)) as [t [v|e]];
    unfold outcome, trace in *; cbn [fst snd] in *.
  - destruct (Hshape v eq_refl) as [->|(rating & date & Hne & ->)].
    + cbn [truthy]. do 3 eexists. split; [reflexivity|].
      rewrite !count_app, Hone, Hnone.
      repeat split; auto.
    + destruct rating as [|ch rating]; [congruence|].
      cbn [truthy List.length Nat.eqb negb subscript dict_item dict_get
           String.eqb Ascii.eqb Bool.eqb store_record].
      destruct (rating_fits (PStr (ch :: rating))) eqn:Hfits.
      * rewrite (sink_effect_spec n (ch :: rating) (PStr date) (TextVal date) db
                   Hid Hrating Hn Hfits eq_refl).
        do 3 eexists. split; [reflexivity|].
        rewrite !count_app, Hone, Hnone.
        split; [reflexivity|]. split; [reflexivity|].
        split; [now apply sink_effect_keeps_column|].
        split; [now apply sink_effect_keeps_column|].
        split; [right; now eexists _, _|].
        exists (ch :: rating), date. split; [reflexivity|]. rewrite Hfits. now split.
      * rewrite (sink_rating_overflow n (ch :: rating) (PStr date) db Hid Hrating Hfits).
        do 3 eexists. split; [reflexivity|].
        rewrite !count_app, Hone, Hnone.
        split; [reflexivity|]. split; [reflexivity|].
        split; [exact Hid|]. split; [exact Hrating|]. split; [now left|].
        exists (ch :: rating), date. split; [reflexivity|]. rewrite Hfits. now split.
  - do 3 eexists. split; [reflexivity|]. repeat split; auto.
Qed.

(** One iteration on a table that has the columns [id] and [rating]. *)
Lemma iteration_spec (web : profile_env) (i n : nat) (p : player) (k : Z) (s : state) :
  player_id p = Integer k ->
  in_int64 k = true ->
  has_column "id" (store s) = true ->
  has_column "rating" (store s) = true ->
  integer_ids (store s) ->
  exists s',
    iteration web i n p s = Some s' /\
    successful_updates s'
    = successful_updates s + (if stores_record web p then 1 else 0) /\
    failed_updates s'
    = failed_updates s + (if stores_record web p then 0 else 1) /\
    count is_lookup (out s') = count is_lookup (out s) + 1 /\
    count is_sleep (out s') = count is_sleep (out s) + 1 /\
    has_column "id" (store s') = true /\ has_column "rating" (store s') = true /\
    integer_ids (store s') /\
    kept (store s) (store s') /\
    touches_only [Integer k] (store s) (store s') /\
    (returns_record web p = false -> store s' = store s).
Proof.
  destruct p as [[[pid name] uscf] current]. unfold player_id. cbn [fst].
  intros -> Hk Hid Hrating Hint. unfold iteration, returns_record, stores_record.
  destruct (attempt_spec web k uscf (store s) Hid Hrating Hk)
    as (lines & r & db' & -> & Hl & Hs & Hid' & Hrating' & Hdb & Hr).
  assert (Hkept : kept (store s) db')
    by (destruct Hdb as [->|(x & y & ->)]; auto using kept_refl, kept_sink_effect).
  assert (Htouch : touches_only [Integer k] (store s) db')
    by (destruct Hdb as [->|(x & y & ->)];
        auto using touches_only_refl, touches_only_sink_effect).
  assert (Hint' : integer_ids db') by exact (integer_ids_kept _ _ Hint Hkept).
  destruct (outcome (get_uschess_info web (format uscf))) as [[| | |d]|e].
  1-3: destruct Hr as [-> ->]; eexists; split; [reflexivity|]; cbn [store
         successful_updates failed_updates out];
       rewrite !count_app, Hl, Hs;
       repeat split; auto; simpl; lia.
  - destruct Hr as (rating & date & -> & Hr).
    cbn [dict_get String.eqb Ascii.eqb Bool.eqb].
    destruct (rating_fits (PStr rating)); destruct Hr as [-> ->];
      (eexists; split; [reflexivity|]);
      cbn [store successful_updates failed_updates out];
      rewrite !count_app, Hl, Hs;
      repeat split; auto; simpl; try lia; discriminate.
  - destruct Hr as [-> ->]. eexists. split; [reflexivity|].
    cbn [store successful_updates failed_updates out].
    rewrite !count_app, Hl, Hs.
    repeat split; auto; simpl; lia.
Qed.

Lemma stores_is_record (web : profile_env) (p : player) :
  stores_record web p = true -> returns_record web p = true.
Proof.
  destruct p as [[[pid name] uscf] current]. unfold stores_record, returns_record.
  destruct (outcome _) as [[| | |d]|e]; try discriminate. reflexivity.
Qed.

(** The loop: every player gets a lookup and the delay, whatever happened
    to the players before. *)
Lemma loop_spec (web : nat -> profile_env) (n : nat) (players : list player) :
  Forall (fun p => exists k, player_id p = Integer k /\ in_int64 k = true) players ->
  forall (i : nat) (s : state),
    has_column "id" (store s) = true ->
    has_column "rating" (store s) = true ->
    integer_ids (store s) ->
    exists s',
      loop web n i players s = Some s' /\
      successful_updates s' = successful_updates s + stored_from web i players /\
      successful_updates s' + failed_updates s'
      = successful_updates s + failed_updates s + List.length players /\
      count is_lookup (out s') = count is_lookup (out s) + List.length players /\
      count is_sleep (out s') = count is_sleep (out s) + List.length players /\
      kept (store s) (store s') /\
      touches_only (map player_id players) (store s) (store s') /\
      (records_from web i players = 0 -> store s' = store s).
Proof.
  induction 1 as [|p players (k & Hk & Hb) _ IH]; intros i s Hid Hrating Hint.
  - exists s. simpl. repeat split; auto using kept_refl, touches_only_refl; lia.
  - destruct (iteration_spec (web i) i n p k s Hk Hb Hid Hrating Hint)
      as (s1 & E1 & Hs1 & Hf1 & Hl1 & Hz1 & Hid1 & Hr1 & Hi1 & Hk1 & Ht1 & Hu1).
    destruct (IH (S i) s1 Hid1 Hr1 Hi1)
      as (s2 & E2 & Hs2 & Hsum2 & Hl2 & Hz2 & Hk2 & Ht2 & Hu2).
    exists s2. cbn [loop]. rewrite E1.
    split; [exact E2|]. cbn [stored_from records_from List.length map].
    split; [lia|]. split; [destruct (stores_record (web i) p); lia|].
    split; [lia|]. split; [lia|].
    split; [exact (kept_trans _ _ _ Hk1 Hk2)|].
    split.
    + rewrite Hk in *.
      exact (touches_only_rows_trans [Integer k] _ _ _ _ Ht1 Ht2).
    + intros H0. destruct (returns_record (web i) p); [discriminate|].
      rewrite Hu2 by lia. now apply Hu1.
Qed.

Lemma selected_players (db : table) (players : list player) :
  get_all_players_from_db db = Ok players ->
  players = map select_player (filter has_uscf_id (rows db)) /\
  has_column "id" db = true /\ has_column "rating" db = true.
Proof.
  unfold get_all_players_from_db. cbn [forallb].
  destruct (has_column "id" db); [|discriminate].
  destruct (has_column "name" db); [|discriminate].
  destruct (has_column "uscf_id" db); [|discriminate].
  destruct (has_column "rating" db); [|discriminate].
  intros [= <-]. auto.
Qed.

Lemma selected_integer_ids (db : table) :
  integer_ids db ->
  Forall (fun p => exists k, player_id p = Integer k /\ in_int64 k = true)
         (map select_player (filter has_uscf_id (rows db))).
Proof.
  unfold integer_ids. induction 1 as [|r l Hr _ IH]; simpl; [constructor|].
  destruct (has_uscf_id r); [|exact IH]. constructor; [exact Hr|exact IH].
Qed.

Lemma selected_player_ids (l : list row) :
  map player_id (map select_player (filter has_uscf_id l))
  = map (row_get "id") (filter has_uscf_id l).
Proof. rewrite map_map. reflexivity. Qed.

(** X23.  A single record's failure never aborts the batch: once the
    players are selected, the batch ends normally whatever the lookups do;
    every selected player gets one lookup followed by the delay; and the
    summary counts as successes the lookups that returned a record the
    sink could store -- one whose rating denotes no integer beyond 64
    bits -- and all the others as failures. *)
Theorem batch_totals (web : nat -> profile_env) (db : table) (players : list player) :
  get_all_players_from_db db = Ok players ->
  integer_ids db ->
  exists out db',
    process_all_players web db = Some (out, Ok tt, db') /\
    count is_lookup out = List.length players /\
    count is_sleep out = List.length players /\
    (players <> [] ->
     summary out
     = Some (List.length players, stored_from web 1 players,
             List.length players - stored_from web 1 players)).
Proof.
  intros Hsel Hids. unfold process_all_players. rewrite Hsel.
  destruct (selected_players db players Hsel) as (Hp & Hid & Hrating).
  pose proof (selected_integer_ids db Hids) as Hint. rewrite <- Hp in Hint.
  destruct players as [|p rest] eqn:E.
  - do 2 eexists. split; [reflexivity|]. repeat split; congruence.
  - rewrite <- E in *. clear E p rest.
    destruct (loop_spec web (List.length players) players Hint 1
                {| store := db; successful_updates := 0; failed_updates := 0;
                   out := [Found (List.length players)] |} Hid Hrating Hids)
      as (s & -> & Hs & Hsum & Hl & Hz & _).
    cbn [store successful_updates failed_updates out] in *.
    do 2 eexists. split; [reflexivity|].
    rewrite !count_app, Hl, Hz. split; [cbn; lia|]. split; [cbn; lia|].
    intros _. unfold summary. rewrite rev_unit. repeat f_equal; lia.
Qed.

Lemma batch_totals_witness :
  exists out db',
    process_all_players web_first_only players_before = Some (out, Ok tt, db') /\
    summary out = Some (2, 1, 1).
Proof.
  destruct (batch_totals web_first_only players_before
              (map select_player (filter has_uscf_id (rows players_before)))
              eq_refl)
    as (out & db' & E & _ & _ & Hs).
  - repeat constructor; eexists; split; reflexivity.
  - exists out, db'. split; [exact E|]. apply Hs. discriminate.
Defined.

(** X24.  The batch writes only where it should: the table keeps its rows
    and their order; no column other than [rating] and [expiration_date]
    changes in any row; a row whose identifier is not that of a row with a
    USCF id is left exactly as it was; and when no lookup returned a
    record, the whole table is as before. *)
Theorem batch_store
  (web : nat -> profile_env) (db db' : table) (out : list report) (r : result unit) :
  integer_ids db ->
  process_all_players web db = Some (out, r, db') ->
  kept db db' /\
  touches_only (map (row_get "id") (filter has_uscf_id (rows db))) db db' /\
  (records_from web 1 (map select_player (filter has_uscf_id (rows db))) = 0 ->
   db' = db).
Proof.
  intros Hids. unfold process_all_players.
  destruct (get_all_players_from_db db) as [players|e] eqn:Hsel.
  - destruct (selected_players db players Hsel) as (Hp & Hid & Hrating).
    pose proof (selected_integer_ids db Hids) as Hint. rewrite <- Hp in Hint.
    rewrite <- selected_player_ids, <- Hp.
    destruct players as [|p rest] eqn:E.
    + intros [= <- <- <-]. auto using kept_refl, touches_only_refl.
    + rewrite <- E in *. clear E p rest.
      destruct (loop_spec web (List.length players) players Hint 1
                  {| store := db; successful_updates := 0; failed_updates := 0;
                     out := [Found (List.length players)] |} Hid Hrating Hids)
        as (s & -> & _ & _ & _ & _ & Hk & Ht & Hu).
      cbn [store] in *. intros [= <- <- <-]. auto.
  - intros [= <- <- <-]. auto using kept_refl, touches_only_refl.
Qed.

Lemma batch_store_witness :
  exists out db',
    process_all_players web_first_only players_before = Some (out, Ok tt, db') /\
    kept players_before db' /\
    map (row_get "rating") (rows db') = [Integer 2104; Null].
Proof.
  eexists. eexists. split; [reflexivity|]. split; [|reflexivity].
  eapply (batch_store web_first_only players_before).
  - repeat constructor; eexists; split; reflexivity.
  - reflexivity.
Defined.

(** X25.  The batch raises in one case only: the selection of the players
    fails because the table lacks one of the columns [id], [name],
    [uscf_id] and [rating]; it then raises before any lookup, prints
    nothing and leaves the store alone. *)
Theorem batch_raises_iff
  (web : nat -> profile_env) (db db' : table) (out : list report) (e : exn) :
  process_all_players web db = Some (out, Raise e, db') <->
  (exists c, In c ["id"; "name"; "uscf_id"; "rating"]%string /\ has_column c db = false) /\
  e = OperationalError /\ out = [] /\ db' = db.
Proof.
  unfold process_all_players, get_all_players_from_db. cbn [forallb].
  split.
  - destruct (has_column "id" db) eqn:H1; cbn [andb];
      [|intros [= <- <- <-]; split; [exists "id"%string; simpl; auto 10|auto]].
    destruct (has_column "name" db) eqn:H2; cbn [andb];
      [|intros [= <- <- <-]; split; [exists "name"%string; simpl; auto 10|auto]].
    destruct (has_column "uscf_id" db) eqn:H3; cbn [andb];
      [|intros [= <- <- <-]; split; [exists "uscf_id"%string; simpl; auto 10|auto]].
    destruct (has_column "rating" db) eqn:H4; cbn [andb];
      [|intros [= <- <- <-]; split; [exists "rating"%string; simpl; auto 10|auto]].
    destruct (map select_player (filter has_uscf_id (rows db))); [discriminate|].
    destruct (loop _ _ _ _ _); discriminate.
  - intros ((c & Hin & Hc) & -> & -> & ->).
    destruct Hin as [<-|[<-|[<-|[<-|[]]]]]; rewrite Hc;
      repeat (destruct (has_column _ db); cbn [andb]); reflexivity.
Qed.

Lemma not_found_fits : rating_fits (PStr (lit "Not found")) = true.
Proof. reflexivity. Qed.

Lemma not_found_is_no_integer : rating_as_integer (PStr (lit "Not found")) = None.
Proof. reflexivity. Qed.

(** X26.  A lookup that found no rating still counts as an update: its
    record, whose rating is the text "Not found", is stored successfully;
    the stored ratings stay as they were, and the row of the player gets
    the expiration date of the record. *)
Theorem missing_rating_keeps_stored
  (web : profile_env) (k : Z) (uscf : sqlval) (db : table) (d : dict) :
  has_column "id" db = true ->
  has_column "rating" db = true ->
  in_int64 k = true ->
  outcome (get_uschess_info web (format uscf)) = Ok (PDict d) ->
  dict_get "rating" d = Some (PStr (lit "Not found")) ->
  exists lines db' date,
    attempt web (Integer k) uscf db = Some (lines, Ok true, db') /\
    dict_get "expiration_date" d = Some (PStr date) /\
    Forall2
      (fun r r' =>
         row_get "rating" r' = row_get "rating" r /\
         (id_is k r = true -> row_get "expiration_date" r' = TextVal date))
      (rows db) (rows db').
Proof.
  intros Hid Hrating Hk Hd Hnf.
  destruct (attempt_spec web k uscf db Hid Hrating Hk)
    as (lines & r & db' & E & _ & _ & _ & _ & _ & Hr).
  rewrite Hd in Hr. destruct Hr as (rating & date & -> & Hr).
  cbn [dict_get String.eqb Ascii.eqb Bool.eqb] in Hnf. injection Hnf as ->.
  rewrite not_found_fits in Hr. destruct Hr as [-> ->].
  exists lines, (sink_effect k (PStr (lit "Not found")) (TextVal date) db), date.
  split; [exact E|]. split; [reflexivity|].
  unfold sink_effect. cbn [rows].
  induction (rows db) as [|r l IH]; simpl; constructor; [|exact IH].
  pose proof (row_effect_spec db k (PStr (lit "Not found")) (TextVal date) r) as H.
  rewrite not_found_is_no_integer, stored_date_text in H.
  unfold id_matches in H. destruct (id_is k r); cbn [orb] in H.
  - destruct H as [H1 H2]. split; [exact H2|]. intros _. exact H1.
  - split; [|discriminate].
    destruct (match affinity_of "id" db with TEXT => _ | BLOB => _ end);
      [apply H|now rewrite H].
Qed.

Lemma missing_rating_keeps_stored_witness :
  exists lines db' date,
    attempt ProfileExamples.profile_no_rating (Integer 7) (TextVal (lit "14970943"))
      players_before
    = Some (lines, Ok true, db') /\
    date = lit "2026-03-31" /\
    map (row_get "rating") (rows db') = [Integer 2000; Null] /\
    map (row_get "expiration_date") (rows db') = [TextVal (lit "2026-03-31"); Null].
Proof.
  destruct (missing_rating_keeps_stored ProfileExamples.profile_no_rating 7
              (TextVal (lit "14970943")) players_before _
              eq_refl eq_refl eq_refl eq_refl eq_refl)
    as (lines & db' & date & E & Hdate & _).
  exists lines, db', date. split; [exact E|].
  injection Hdate as <-. injection E as <- <-.
  split; [reflexivity|]. split; reflexivity.
Defined.

Lemma format_integer_nonempty (n : Z) : format (Integer n) <> [].
Proof.
  unfold format, decimal. destruct (Z.to_int n) as [d|d]; [destruct d|]; discriminate.
Qed.

(** X27.  No lookup is made without an id: every selected player has a
    USCF id that is not null and whose text, as it goes into the two
    URLs, is not empty; and no more players are selected than the table
    has rows. *)
Theorem selected_have_ids (db : table) (players : list player) :
  get_all_players_from_db db = Ok players ->
  Forall (fun p => uscf_id p <> Null /\ format (uscf_id p) <> []) players /\
  List.length players <= List.length (rows db).
Proof.
  intros Hsel. destruct (selected_players db players Hsel) as (-> & _).
  clear Hsel. split.
  - induction (rows db) as [|r l IH]; simpl; [constructor|].
    destruct (has_uscf_id r) eqn:E; [|exact IH]. simpl. constructor; [|exact IH].
    unfold uscf_id, select_player. cbn [fst snd]. unfold has_uscf_id in E.
    destruct (row_get "uscf_id" r) as [|n|s]; [discriminate| |].
    + split; [discriminate|apply format_integer_nonempty].
    + split; [discriminate|]. destruct s; [discriminate E|discriminate].
  - rewrite length_map. apply filter_length_le.
Qed.

Lemma selected_have_ids_witness :
  Forall (fun p => uscf_id p <> Null /\ format (uscf_id p) <> [])
         (map select_player (filter has_uscf_id (rows players_before))) /\
  2 <= List.length (rows players_before).
Proof.
  apply (selected_have_ids players_before
           (map select_player (filter has_uscf_id (rows players_before)))).
  reflexivity.
Defined.

End BatchEdges.

(** ** The command line of the card search *)

Section CommandLine.

Import search_players Examples cli.

(** X28.  The script starts a browser only when it is given exactly two
    arguments of which the second reads as an integer.  With another number
    of arguments it prints the usage line and exits with status 1; with a
    second argument that is no integer it dies of a [ValueError], also
    before any browser activity; otherwise it prints what the search with
    that limit returns and exits with status 0 -- the search itself never
    ends the script with a traceback. *)
Theorem cli_endings (env : search_env) (argv : list text) :
  match snd (main env argv) with
  | Usage => List.length argv <> 3 /\ fst (main env argv) = []
  | Traceback e =>
      List.length argv = 3 /\ e = ValueError /\
      py_int (nth 2 argv []) = Raise ValueError /\ fst (main env argv) = []
  | Results players =>
      List.length argv = 3 /\
      exists max_results,
        py_int (nth 2 argv []) = Ok max_results /\
        get_uscf_player_data env (nth 1 argv []) max_results
        = (fst (main env argv), Ok players)
  end.
Proof.
  unfold main. destruct (Nat.eqb_spec (List.length argv) 3) as [Hl|Hl]; cbn [negb].
  - destruct (py_int_cases (nth 2 argv [])) as [[n Hn]|Hn]; rewrite Hn.
    + pose proof (search_outcome env (nth 1 argv []) n) as Ho.
      destruct (get_uscf_player_data env (nth 1 argv []) n) as [t [players|e]] eqn:E;
        [|discriminate Ho].
      cbn. split; [exact Hl|]. exists n. split; [reflexivity|exact E].
    + cbn [fst snd]. auto.
  - cbn [fst snd]. auto.
Qed.

Lemma cli_endings_witness :
  exit_status (snd (main search_ok [lit "search_players.py"; lit "Smith"; lit "ten"])) = 1 /\
  fst (main search_ok [lit "search_players.py"; lit "Smith"; lit "ten"]) = [].
Proof.
  pose proof (cli_endings search_ok [lit "search_players.py"; lit "Smith"; lit "ten"]) as H.
  destruct (snd (main search_ok [lit "search_players.py"; lit "Smith"; lit "ten"]))
    as [|e|players] eqn:E.
  - split; [reflexivity|]. apply H.
  - split; [reflexivity|]. apply H.
  - exfalso. destruct H as (_ & n & Hn & _). discriminate Hn.
Defined.

End CommandLine.
